(** * Galactic Defender (MiniGames3.py): the simulation core

    A shallow embedding of the game's update loop: entity updates, the
    collision and damage passes of [Game.update_physics], the wave
    scheduler, power-ups, the bomb and the shop.

    Numbers.  Python [int] values (hp of the player, score, coins, levels,
    damage, radii) are [Z].  Python [float] values (positions, timers,
    enemy hp, which the laser scales by [dt]) are exact rationals [Q]:
    rounding of binary floating point is not modelled.  Equality of
    rationals is [==] ([Qeq]).

    Outside world.  [math.hypot], [math.sin], [math.cos], [math.radians]
    and the entropy behind the [random] module are interfaces (classes
    [math.lib] and [random.source]); every theorem holds for all their
    implementations, and the concrete runs at the end use a reference
    one.  Keyboard, joystick and [time.time()] reach the code as an
    [Input] snapshot (one clock reading per tick).  Rendering and audio
    have no effect on the simulated state and are left out; the particle
    system is render-only, so only the random draws it consumes are kept.

    Objects.  The entity lists hold objects that the loops mutate in place
    and remove while walking a copy ([for e in list(self.enemies)]); each
    such loop is a [sweep] over the list, with the rest of the game as the
    state it threads. *)

From Stdlib Require Import ZArith QArith Qround Qabs Lia Lqa.
From stdpp Require Import base list strings gmap.

Local Open Scope Q_scope.

(** ** Numbers *)

Local Coercion inject_Z : Z >-> Q.

Definition Qltb (a b : Q) : bool := negb (Qle_bool b a).

Notation "a <=? b" := (Qle_bool a b) (at level 70, no associativity) : Q_scope.
Notation "a <? b" := (Qltb a b) (at level 70, no associativity) : Q_scope.
Notation "a >? b" := (Qltb b a) (at level 70, no associativity) : Q_scope.

(** Python's [max(a, b)] and [min(a, b)]: the first argument wins a tie. *)
Definition max (a b : Q) : Q := if a <? b then b else a.
Definition min (a b : Q) : Q := if b <? a then b else a.

(** [def clamp(v, lo, hi): return max(lo, min(hi, v))] *)
Definition clamp (v lo hi : Q) : Q := max lo (min hi v).
(** The same function at integer arguments ([hp], [bombs]). *)
Definition clampZ (v lo hi : Z) : Z := Z.max lo (Z.min hi v).

(** [int(q)]: truncation toward zero. *)
Definition int (q : Q) : Z := Z.quot (Qnum q) (Zpos (Qden q)).

(** Squared distance, as every circle test of the source writes it:
    [(ax - bx)**2 + (ay - by)**2]. *)
Definition dist2 (ax ay bx by_ : Q) : Q :=
  (ax - bx) * (ax - bx) + (ay - by_) * (ay - by_).

(** [l[i]] on a Python list; [None] stands for [IndexError]. *)
Definition getitem {A : Type} (l : list A) (i : Z) : option A :=
  if (0 <=? i)%Z then l !! Z.to_nat i
  else if (- Z.of_nat (length l) <=? i)%Z then l !! Z.to_nat (Z.of_nat (length l) + i)
  else None.

(** [d.get(key, 0)] on a dictionary of upgrade levels. *)
Definition get0 (d : gmap string Z) (key : string) : Z := default 0%Z (d !! key).

(** ** CONFIG *)

Definition WIDTH : Z := 1000.
Definition HEIGHT : Z := 650.
Definition PLAYER_MAX_HP : Z := 120.
Definition PLAYER_BASE_SPEED : Z := 300.
Definition PLAYER_DASH_SPEED : Z := 700.
Definition PLAYER_DASH_COOLDOWN : Q := 1.0.
Definition BULLET_SPEED : Z := 700.
Definition LASER_DURATION : Q := 0.25.

(** ** The [math] and [random] modules *)

Module math.
Class lib := {
  hypot : Q -> Q -> Q;
  sin : Q -> Q;
  cos : Q -> Q;
  radians : Q -> Q
}.
End math.

Module random.
(** The generator's entropy: [bits n] is the raw value behind the [n]-th
    call into the module.  The game state counts the calls made so far. *)
Class source := { bits : nat -> Z }.

Section Draws.
Context `{source}.

(** [random.random()]: a multiple of [2^-53] in [[0, 1)]. *)
Definition random (n : nat) : Q :=
  Qmake (bits n mod 2 ^ 53) (2 ^ 53).

(** [random.uniform(a, b)] is [a + (b - a) * random()]. *)
Definition uniform (a b : Q) (n : nat) : Q := a + (b - a) * random n.

(** An index below [k], one call. *)
Definition randbelow (k : Z) (n : nat) : Z := Qfloor (random n * k).

(** [random.randint(a, b)]: an integer of [[a, b]]. *)
Definition randint (a b : Z) (n : nat) : Z := (a + randbelow (b - a + 1) n)%Z.

(** [random.choice(seq)]; [d] is never returned on a non-empty list. *)
Definition choice {A : Type} (l : list A) (d : A) (n : nat) : A :=
  nth (Z.to_nat (randbelow (Z.of_nat (length l)) n)) l d.

(** [random.choices(population, weights=w)[0]]: the first element whose
    cumulative weight exceeds [random() * total]; the last one otherwise. *)
Fixpoint pick {A : Type} (l : list (A * Q)) (d : A) (u : Q) : A :=
  match l with
  | [] => d
  | [(a, _)] => a
  | (a, w) :: rest => if u <? w then a else pick rest d (u - w)
  end.
Definition choices {A : Type} (l : list (A * Q)) (d : A) (n : nat) : A :=
  pick l d (random n * fold_right (fun aw s => snd aw + s) 0 l).
End Draws.
End random.

(** ** PARTICLES *)

Module ParticleSystem.
(** [emit_explosion] builds [amount] particles, each from four calls
    ([random], [uniform], [randint], [uniform]); [emit_trail] builds one
    from four calls.  Only the number of calls is kept. *)
Definition emit_explosion (amount : nat) (rng : nat) : nat := (rng + 4 * amount)%nat.
Definition emit_trail (rng : nat) : nat := (rng + 4)%nat.
End ParticleSystem.

(** ** ENTITIES *)

Inductive Owner := by_player | by_enemy.

Module Bullet.
Record obj := mk {
  x : Q;
  y : Q;
  vx : Q;
  vy : Q;
  owner : Owner;
  dmg : Z;
  r : Z
}.

Definition set_x (v : Q) (o : obj) : obj :=
  {| x := v; y := y o; vx := vx o; vy := vy o; owner := owner o; dmg := dmg o; r := r o |}.

Definition set_y (v : Q) (o : obj) : obj :=
  {| x := x o; y := v; vx := vx o; vy := vy o; owner := owner o; dmg := dmg o; r := r o |}.

(** [def update(self, dt): self.x += self.vx*dt; self.y += self.vy*dt] *)
Definition update (dt : Q) (b : obj) : obj :=
  set_y (y b + vy b * dt) (set_x (x b + vx b * dt) b).

(** [def alive(self): return -50 < self.x < WIDTH+50 and -50 < self.y < HEIGHT+50] *)
Definition alive (b : obj) : bool :=
  (-50 <? x b) && (x b <? (WIDTH + 50)%Z) && (-50 <? y b) && (y b <? (HEIGHT + 50)%Z).
End Bullet.

Module LaserBeam.
Record obj := mk {
  x : Q;
  y : Q;
  dx : Q;
  dy : Q;
  life : Q;
  t : Q;
  dmg : Z
}.

Definition set_t (v : Q) (o : obj) : obj :=
  {| x := x o; y := y o; dx := dx o; dy := dy o; life := life o; t := v; dmg := dmg o |}.

Definition update (dt : Q) (l : obj) : obj := set_t (t l + dt) l.
Definition alive (l : obj) : bool := t l <? life l.
End LaserBeam.

Inductive Weapon := single | spread | laser.

Module Player.
Record obj := mk {
  x : Q;
  y : Q;
  r : Z;
  hp : Z;
  maxhp : Z;
  speed : Z;
  dash_cd : Q;
  dash_time : Q;
  coins : Z;
  score : Z;
  weapon_index : Z;
  bullets_cool : Q;
  rapid : Q;
  shield : Q;
  bombs : Z;
  upgrades : gmap string Z
}.

Definition set_x (v : Q) (o : obj) : obj :=
  {| x := v; y := y o; r := r o; hp := hp o; maxhp := maxhp o; speed := speed o;
     dash_cd := dash_cd o; dash_time := dash_time o; coins := coins o; score := score o;
     weapon_index := weapon_index o; bullets_cool := bullets_cool o; rapid := rapid o;
     shield := shield o; bombs := bombs o; upgrades := upgrades o |}.

Definition set_y (v : Q) (o : obj) : obj :=
  {| x := x o; y := v; r := r o; hp := hp o; maxhp := maxhp o; speed := speed o;
     dash_cd := dash_cd o; dash_time := dash_time o; coins := coins o; score := score o;
     weapon_index := weapon_index o; bullets_cool := bullets_cool o; rapid := rapid o;
     shield := shield o; bombs := bombs o; upgrades := upgrades o |}.

Definition set_hp (v : Z) (o : obj) : obj :=
  {| x := x o; y := y o; r := r o; hp := v; maxhp := maxhp o; speed := speed o;
     dash_cd := dash_cd o; dash_time := dash_time o; coins := coins o; score := score o;
     weapon_index := weapon_index o; bullets_cool := bullets_cool o; rapid := rapid o;
     shield := shield o; bombs := bombs o; upgrades := upgrades o |}.

Definition set_maxhp (v : Z) (o : obj) : obj :=
  {| x := x o; y := y o; r := r o; hp := hp o; maxhp := v; speed := speed o;
     dash_cd := dash_cd o; dash_time := dash_time o; coins := coins o; score := score o;
     weapon_index := weapon_index o; bullets_cool := bullets_cool o; rapid := rapid o;
     shield := shield o; bombs := bombs o; upgrades := upgrades o |}.

Definition set_speed (v : Z) (o : obj) : obj :=
  {| x := x o; y := y o; r := r o; hp := hp o; maxhp := maxhp o; speed := v;
     dash_cd := dash_cd o; dash_time := dash_time o; coins := coins o; score := score o;
     weapon_index := weapon_index o; bullets_cool := bullets_cool o; rapid := rapid o;
     shield := shield o; bombs := bombs o; upgrades := upgrades o |}.

Definition set_dash_cd (v : Q) (o : obj) : obj :=
  {| x := x o; y := y o; r := r o; hp := hp o; maxhp := maxhp o; speed := speed o;
     dash_cd := v; dash_time := dash_time o; coins := coins o; score := score o;
     weapon_index := weapon_index o; bullets_cool := bullets_cool o; rapid := rapid o;
     shield := shield o; bombs := bombs o; upgrades := upgrades o |}.

Definition set_coins (v : Z) (o : obj) : obj :=
  {| x := x o; y := y o; r := r o; hp := hp o; maxhp := maxhp o; speed := speed o;
     dash_cd := dash_cd o; dash_time := dash_time o; coins := v; score := score o;
     weapon_index := weapon_index o; bullets_cool := bullets_cool o; rapid := rapid o;
     shield := shield o; bombs := bombs o; upgrades := upgrades o |}.

Definition set_score (v : Z) (o : obj) : obj :=
  {| x := x o; y := y o; r := r o; hp := hp o; maxhp := maxhp o; speed := speed o;
     dash_cd := dash_cd o; dash_time := dash_time o; coins := coins o; score := v;
     weapon_index := weapon_index o; bullets_cool := bullets_cool o; rapid := rapid o;
     shield := shield o; bombs := bombs o; upgrades := upgrades o |}.

Definition set_weapon_index (v : Z) (o : obj) : obj :=
  {| x := x o; y := y o; r := r o; hp := hp o; maxhp := maxhp o; speed := speed o;
     dash_cd := dash_cd o; dash_time := dash_time o; coins := coins o; score := score o;
     weapon_index := v; bullets_cool := bullets_cool o; rapid := rapid o; shield := shield o;
     bombs := bombs o; upgrades := upgrades o |}.

Definition set_bullets_cool (v : Q) (o : obj) : obj :=
  {| x := x o; y := y o; r := r o; hp := hp o; maxhp := maxhp o; speed := speed o;
     dash_cd := dash_cd o; dash_time := dash_time o; coins := coins o; score := score o;
     weapon_index := weapon_index o; bullets_cool := v; rapid := rapid o; shield := shield o;
     bombs := bombs o; upgrades := upgrades o |}.

Definition set_rapid (v : Q) (o : obj) : obj :=
  {| x := x o; y := y o; r := r o; hp := hp o; maxhp := maxhp o; speed := speed o;
     dash_cd := dash_cd o; dash_time := dash_time o; coins := coins o; score := score o;
     weapon_index := weapon_index o; bullets_cool := bullets_cool o; rapid := v;
     shield := shield o; bombs := bombs o; upgrades := upgrades o |}.

Definition set_shield (v : Q) (o : obj) : obj :=
  {| x := x o; y := y o; r := r o; hp := hp o; maxhp := maxhp o; speed := speed o;
     dash_cd := dash_cd o; dash_time := dash_time o; coins := coins o; score := score o;
     weapon_index := weapon_index o; bullets_cool := bullets_cool o; rapid := rapid o;
     shield := v; bombs := bombs o; upgrades := upgrades o |}.

Definition set_bombs (v : Z) (o : obj) : obj :=
  {| x := x o; y := y o; r := r o; hp := hp o; maxhp := maxhp o; speed := speed o;
     dash_cd := dash_cd o; dash_time := dash_time o; coins := coins o; score := score o;
     weapon_index := weapon_index o; bullets_cool := bullets_cool o; rapid := rapid o;
     shield := shield o; bombs := v; upgrades := upgrades o |}.

Definition set_upgrades (v : gmap string Z) (o : obj) : obj :=
  {| x := x o; y := y o; r := r o; hp := hp o; maxhp := maxhp o; speed := speed o;
     dash_cd := dash_cd o; dash_time := dash_time o; coins := coins o; score := score o;
     weapon_index := weapon_index o; bullets_cool := bullets_cool o; rapid := rapid o;
     shield := shield o; bombs := bombs o; upgrades := v |}.

Definition weapons : list Weapon := [single; spread; laser].

(** [Player(x, y)] *)
Definition init (x0 y0 : Q) : obj :=
  {| x := x0; y := y0; r := 16; hp := PLAYER_MAX_HP; maxhp := PLAYER_MAX_HP;
     speed := PLAYER_BASE_SPEED; dash_cd := 0; dash_time := 0; coins := 0; score := 0;
     weapon_index := 0; bullets_cool := 0; rapid := 0; shield := 0; bombs := 2;
     upgrades := <["hp" := 0%Z]> (<["speed" := 0%Z]> (<["damage" := 0%Z]> ∅)) |}.

(** [self.weapon_index = (self.weapon_index + dirn) % len(self.weapons)] *)
Definition switch_weapon (dirn : Z) (p : obj) : obj :=
  set_weapon_index ((weapon_index p + dirn) mod Z.of_nat (length weapons))%Z p.

(** Cooldowns and buffs count down, floored at zero. *)
Definition update (dt : Q) (p : obj) : obj :=
  let p := set_dash_cd (max 0 (dash_cd p - dt)) p in
  let p := set_bullets_cool (max 0 (bullets_cool p - dt)) p in
  let p := set_rapid (max 0 (rapid p - dt)) p in
  set_shield (max 0 (shield p - dt)) p.
End Player.

(** *** Enemy types with simple AI *)

Module Enemy.
Inductive Kind := chaser | zig | shooter | boss.

Record obj := mk {
  x : Q;
  y : Q;
  kind : Kind;
  level : Z;
  hp : Q;
  r : Z;
  speed : Z;
  t : Q;
  cool : Q
}.

Definition set_x (v : Q) (o : obj) : obj :=
  {| x := v; y := y o; kind := kind o; level := level o; hp := hp o; r := r o;
     speed := speed o; t := t o; cool := cool o |}.

Definition set_y (v : Q) (o : obj) : obj :=
  {| x := x o; y := v; kind := kind o; level := level o; hp := hp o; r := r o;
     speed := speed o; t := t o; cool := cool o |}.

Definition set_hp (v : Q) (o : obj) : obj :=
  {| x := x o; y := y o; kind := kind o; level := level o; hp := v; r := r o; speed := speed o;
     t := t o; cool := cool o |}.

Definition set_t (v : Q) (o : obj) : obj :=
  {| x := x o; y := y o; kind := kind o; level := level o; hp := hp o; r := r o;
     speed := speed o; t := v; cool := cool o |}.

Definition set_cool (v : Q) (o : obj) : obj :=
  {| x := x o; y := y o; kind := kind o; level := level o; hp := hp o; r := r o;
     speed := speed o; t := t o; cool := v |}.

Definition is_boss (k : Kind) : bool :=
  match k with boss => true | _ => false end.

Section Methods.
Context `{math.lib, random.source}.

(** [Enemy(x, y, kind, level)]; call [n] of the generator draws [cool].
    The colour is cosmetic and left out. *)
Definition init (x0 y0 : Q) (k : Kind) (lvl : Z) (n : nat) : obj :=
  let basehp := (20 + lvl * 6)%Z in
  {| x := x0; y := y0; kind := k; level := lvl;
     hp := if is_boss k then (basehp * 6)%Z else basehp;
     r := if is_boss k then 36 else 12;
     speed := if is_boss k then 45 else (90 + lvl * 8)%Z;
     t := 0;
     cool := random.uniform 0.6 1.8 n |}.

(** The ring a boss fires: twelve bullets, 30 degrees apart, turned by
    [int(self.t*40) % 360] degrees. *)
Definition ring (e : obj) : list Bullet.obj :=
  map (fun k : nat =>
         let ang := (30 * Z.of_nat k)%Z in
         let rad := math.radians (ang + int (t e * 40) mod 360)%Z in
         {| Bullet.x := x e; Bullet.y := y e;
            Bullet.vx := math.cos rad * 200; Bullet.vy := math.sin rad * 200;
            Bullet.owner := by_enemy; Bullet.dmg := 10; Bullet.r := 5 |})
      (seq 0 12).

(** [def update(self, dt, player, bullets)]: the enemy after the call and
    the bullet list after the appends. *)
Definition update (dt : Q) (p : Player.obj) (bullets : list Bullet.obj) (e : obj)
  : obj * list Bullet.obj :=
  let e := set_t (t e + dt) e in
  let dx := Player.x p - x e in
  let dy := Player.y p - y e in
  let d := math.hypot dx dy + 1e-6 in
  let '(e, bullets) :=
    match kind e with
    | chaser =>
        let e := set_x (x e + dx / d * speed e * dt) e in
        let e := set_y (y e + dy / d * speed e * dt) e in
        (e, bullets)
    | zig =>
        let perpx := - dy / d in
        let perpy := dx / d in
        let wav := math.sin (t e * 4) * 80 in
        let e := set_x (x e + (dx / d * (speed e * 0.9) + perpx * wav * 0.01) * dt) e in
        let e := set_y (y e + (dy / d * (speed e * 0.9) + perpy * wav * 0.01) * dt) e in
        (e, bullets)
    | shooter =>
        let e := set_x (x e + dx / d * (speed e * 0.6) * dt) e in
        let e := set_y (y e + dy / d * (speed e * 0.6) * dt) e in
        let e := set_cool (cool e - dt) e in
        if cool e <=? 0 then
          let e := set_cool (0.9 - min 0.5 (level e * 0.03)) e in
          let vx := dx / d * (BULLET_SPEED * 0.6) in
          let vy := dy / d * (BULLET_SPEED * 0.6) in
          (e, bullets ++ [ {| Bullet.x := x e; Bullet.y := y e; Bullet.vx := vx;
                              Bullet.vy := vy; Bullet.owner := by_enemy;
                              Bullet.dmg := 8; Bullet.r := 4 |} ])
        else (e, bullets)
    | boss =>
        let e := set_cool (cool e - dt) e in
        if cool e <=? 0 then
          let e := set_cool 0.35 e in
          (e, bullets ++ ring e)
        else (e, bullets)
    end in
  let e := set_x (clamp (x e) (-100) (WIDTH + 100)%Z) e in
  let e := set_y (clamp (y e) (-100) (HEIGHT + 100)%Z) e in
  (e, bullets).
End Methods.
End Enemy.

(** *** Power-ups (the dictionaries of [drop_powerup]) *)

Module PowerUp.
Inductive Kind := heal | rapid | shield | bomb | coin.

Record obj := mk {
  x : Q;
  y : Q;
  type : Kind;
  t : Q
}.

Definition set_y (v : Q) (o : obj) : obj :=
  {| x := x o; y := v; type := type o; t := t o |}.

Definition set_t (v : Q) (o : obj) : obj :=
  {| x := x o; y := y o; type := type o; t := v |}.

Definition kinds : list Kind := [heal; rapid; shield; bomb; coin].
End PowerUp.

(** ** Input snapshot *)

Inductive Key :=
  | K_a | K_LEFT | K_d | K_RIGHT | K_w | K_UP | K_s | K_DOWN
  | K_SPACE | K_LSHIFT | K_z | K_j | K_q | K_e | K_x | K_k
  | K_p | K_ESCAPE | K_m | K_RETURN | K_h.

#[export] Instance Key_eq_dec : EqDecision Key.
Proof. solve_decision. Defined.

Record Joystick := { get_axis0 : Q; get_axis1 : Q; get_button0 : bool }.

(** What one tick reads from outside: [pygame.key.get_pressed()], the
    joystick when there is one, and the clock [time.time()]. *)
Record Input := { keys : Key -> bool; joystick : option Joystick; now : Q }.

Inductive Event := QUIT | KEYDOWN (k : Key) | OTHER.

(** ** GAME *)

(** [for e in list(self.xs): ...], where the body may mutate [e] in place
    and may call [self.xs.remove(e)].  Every entry of such a list is an
    object of its own (each append constructs a new one), so the removal
    drops the entry being visited; [None] stands for it.  The body sees the
    rest of the state [s], not the list it walks. *)
Fixpoint sweep {A S : Type} (body : A -> S -> option A * S) (xs : list A) (s : S)
  : list A * S :=
  match xs with
  | [] => ([], s)
  | e :: rest =>
      let '(kept, s) := body e s in
      let '(rest, s) := sweep body rest s in
      (match kept with Some e => e :: rest | None => rest end, s)
  end.

Module Game.
Inductive State := menu | play | pause | shop | gameover.
Inductive Phase := interlude | active.
Inductive Side := side_top | side_bottom | side_left | side_right.

Record obj := mk {
  state : State;
  hiscore : Z;
  persist_upgrades : gmap string Z;
  player : Player.obj;
  enemies : list Enemy.obj;
  bullets : list Bullet.obj;
  lasers : list LaserBeam.obj;
  powerups : list PowerUp.obj;
  wave : Z;
  wave_time : Q;
  spawn_timer : Q;
  wave_state : Phase;
  interlude_time : Q;
  difficulty : Q;
  last_bomb : option Q;
  last_interlude : option Q;
  rng : nat
}.

Definition set_state (v : State) (o : obj) : obj :=
  {| state := v; hiscore := hiscore o; persist_upgrades := persist_upgrades o;
     player := player o; enemies := enemies o; bullets := bullets o; lasers := lasers o;
     powerups := powerups o; wave := wave o; wave_time := wave_time o;
     spawn_timer := spawn_timer o; wave_state := wave_state o;
     interlude_time := interlude_time o; difficulty := difficulty o; last_bomb := last_bomb o;
     last_interlude := last_interlude o; rng := rng o |}.

Definition set_hiscore (v : Z) (o : obj) : obj :=
  {| state := state o; hiscore := v; persist_upgrades := persist_upgrades o;
     player := player o; enemies := enemies o; bullets := bullets o; lasers := lasers o;
     powerups := powerups o; wave := wave o; wave_time := wave_time o;
     spawn_timer := spawn_timer o; wave_state := wave_state o;
     interlude_time := interlude_time o; difficulty := difficulty o; last_bomb := last_bomb o;
     last_interlude := last_interlude o; rng := rng o |}.

Definition set_persist_upgrades (v : gmap string Z) (o : obj) : obj :=
  {| state := state o; hiscore := hiscore o; persist_upgrades := v; player := player o;
     enemies := enemies o; bullets := bullets o; lasers := lasers o; powerups := powerups o;
     wave := wave o; wave_time := wave_time o; spawn_timer := spawn_timer o;
     wave_state := wave_state o; interlude_time := interlude_time o;
     difficulty := difficulty o; last_bomb := last_bomb o; last_interlude := last_interlude o;
     rng := rng o |}.

Definition set_player (v : Player.obj) (o : obj) : obj :=
  {| state := state o; hiscore := hiscore o; persist_upgrades := persist_upgrades o;
     player := v; enemies := enemies o; bullets := bullets o; lasers := lasers o;
     powerups := powerups o; wave := wave o; wave_time := wave_time o;
     spawn_timer := spawn_timer o; wave_state := wave_state o;
     interlude_time := interlude_time o; difficulty := difficulty o; last_bomb := last_bomb o;
     last_interlude := last_interlude o; rng := rng o |}.

Definition set_enemies (v : list Enemy.obj) (o : obj) : obj :=
  {| state := state o; hiscore := hiscore o; persist_upgrades := persist_upgrades o;
     player := player o; enemies := v; bullets := bullets o; lasers := lasers o;
     powerups := powerups o; wave := wave o; wave_time := wave_time o;
     spawn_timer := spawn_timer o; wave_state := wave_state o;
     interlude_time := interlude_time o; difficulty := difficulty o; last_bomb := last_bomb o;
     last_interlude := last_interlude o; rng := rng o |}.

Definition set_bullets (v : list Bullet.obj) (o : obj) : obj :=
  {| state := state o; hiscore := hiscore o; persist_upgrades := persist_upgrades o;
     player := player o; enemies := enemies o; bullets := v; lasers := lasers o;
     powerups := powerups o; wave := wave o; wave_time := wave_time o;
     spawn_timer := spawn_timer o; wave_state := wave_state o;
     interlude_time := interlude_time o; difficulty := difficulty o; last_bomb := last_bomb o;
     last_interlude := last_interlude o; rng := rng o |}.

Definition set_lasers (v : list LaserBeam.obj) (o : obj) : obj :=
  {| state := state o; hiscore := hiscore o; persist_upgrades := persist_upgrades o;
     player := player o; enemies := enemies o; bullets := bullets o; lasers := v;
     powerups := powerups o; wave := wave o; wave_time := wave_time o;
     spawn_timer := spawn_timer o; wave_state := wave_state o;
     interlude_time := interlude_time o; difficulty := difficulty o; last_bomb := last_bomb o;
     last_interlude := last_interlude o; rng := rng o |}.

Definition set_powerups (v : list PowerUp.obj) (o : obj) : obj :=
  {| state := state o; hiscore := hiscore o; persist_upgrades := persist_upgrades o;
     player := player o; enemies := enemies o; bullets := bullets o; lasers := lasers o;
     powerups := v; wave := wave o; wave_time := wave_time o; spawn_timer := spawn_timer o;
     wave_state := wave_state o; interlude_time := interlude_time o;
     difficulty := difficulty o; last_bomb := last_bomb o; last_interlude := last_interlude o;
     rng := rng o |}.

Definition set_wave (v : Z) (o : obj) : obj :=
  {| state := state o; hiscore := hiscore o; persist_upgrades := persist_upgrades o;
     player := player o; enemies := enemies o; bullets := bullets o; lasers := lasers o;
     powerups := powerups o; wave := v; wave_time := wave_time o; spawn_timer := spawn_timer o;
     wave_state := wave_state o; interlude_time := interlude_time o;
     difficulty := difficulty o; last_bomb := last_bomb o; last_interlude := last_interlude o;
     rng := rng o |}.

Definition set_wave_time (v : Q) (o : obj) : obj :=
  {| state := state o; hiscore := hiscore o; persist_upgrades := persist_upgrades o;
     player := player o; enemies := enemies o; bullets := bullets o; lasers := lasers o;
     powerups := powerups o; wave := wave o; wave_time := v; spawn_timer := spawn_timer o;
     wave_state := wave_state o; interlude_time := interlude_time o;
     difficulty := difficulty o; last_bomb := last_bomb o; last_interlude := last_interlude o;
     rng := rng o |}.

Definition set_spawn_timer (v : Q) (o : obj) : obj :=
  {| state := state o; hiscore := hiscore o; persist_upgrades := persist_upgrades o;
     player := player o; enemies := enemies o; bullets := bullets o; lasers := lasers o;
     powerups := powerups o; wave := wave o; wave_time := wave_time o; spawn_timer := v;
     wave_state := wave_state o; interlude_time := interlude_time o;
     difficulty := difficulty o; last_bomb := last_bomb o; last_interlude := last_interlude o;
     rng := rng o |}.

Definition set_wave_state (v : Phase) (o : obj) : obj :=
  {| state := state o; hiscore := hiscore o; persist_upgrades := persist_upgrades o;
     player := player o; enemies := enemies o; bullets := bullets o; lasers := lasers o;
     powerups := powerups o; wave := wave o; wave_time := wave_time o;
     spawn_timer := spawn_timer o; wave_state := v; interlude_time := interlude_time o;
     difficulty := difficulty o; last_bomb := last_bomb o; last_interlude := last_interlude o;
     rng := rng o |}.

Definition set_interlude_time (v : Q) (o : obj) : obj :=
  {| state := state o; hiscore := hiscore o; persist_upgrades := persist_upgrades o;
     player := player o; enemies := enemies o; bullets := bullets o; lasers := lasers o;
     powerups := powerups o; wave := wave o; wave_time := wave_time o;
     spawn_timer := spawn_timer o; wave_state := wave_state o; interlude_time := v;
     difficulty := difficulty o; last_bomb := last_bomb o; last_interlude := last_interlude o;
     rng := rng o |}.

Definition set_difficulty (v : Q) (o : obj) : obj :=
  {| state := state o; hiscore := hiscore o; persist_upgrades := persist_upgrades o;
     player := player o; enemies := enemies o; bullets := bullets o; lasers := lasers o;
     powerups := powerups o; wave := wave o; wave_time := wave_time o;
     spawn_timer := spawn_timer o; wave_state := wave_state o;
     interlude_time := interlude_time o; difficulty := v; last_bomb := last_bomb o;
     last_interlude := last_interlude o; rng := rng o |}.

Definition set_last_bomb (v : option Q) (o : obj) : obj :=
  {| state := state o; hiscore := hiscore o; persist_upgrades := persist_upgrades o;
     player := player o; enemies := enemies o; bullets := bullets o; lasers := lasers o;
     powerups := powerups o; wave := wave o; wave_time := wave_time o;
     spawn_timer := spawn_timer o; wave_state := wave_state o;
     interlude_time := interlude_time o; difficulty := difficulty o; last_bomb := v;
     last_interlude := last_interlude o; rng := rng o |}.

Definition set_last_interlude (v : option Q) (o : obj) : obj :=
  {| state := state o; hiscore := hiscore o; persist_upgrades := persist_upgrades o;
     player := player o; enemies := enemies o; bullets := bullets o; lasers := lasers o;
     powerups := powerups o; wave := wave o; wave_time := wave_time o;
     spawn_timer := spawn_timer o; wave_state := wave_state o;
     interlude_time := interlude_time o; difficulty := difficulty o; last_bomb := last_bomb o;
     last_interlude := v; rng := rng o |}.

Definition set_rng (v : nat) (o : obj) : obj :=
  {| state := state o; hiscore := hiscore o; persist_upgrades := persist_upgrades o;
     player := player o; enemies := enemies o; bullets := bullets o; lasers := lasers o;
     powerups := powerups o; wave := wave o; wave_time := wave_time o;
     spawn_timer := spawn_timer o; wave_state := wave_state o;
     interlude_time := interlude_time o; difficulty := difficulty o; last_bomb := last_bomb o;
     last_interlude := last_interlude o; rng := v |}.

Section Methods.
Context `{math.lib, random.source}.

(** [def reset_run(self)].  [self.powerups] is not reset here: [run]
    creates it once. *)
Definition reset_run (g : obj) : obj :=
  let p := Player.init (WIDTH * 0.5) (HEIGHT * 0.7) in
  let p := Player.set_maxhp (PLAYER_MAX_HP + get0 (persist_upgrades g) "hp" * 20)%Z p in
  let p := Player.set_hp (Player.maxhp p) p in
  let p := Player.set_speed (PLAYER_BASE_SPEED + get0 (persist_upgrades g) "speed" * 30)%Z p in
  let g := set_player p g in
  let g := set_enemies [] g in
  let g := set_bullets [] g in
  let g := set_lasers [] g in
  let g := set_wave 0 g in
  let g := set_wave_time 0 g in
  let g := set_spawn_timer 0 g in
  let g := set_wave_state interlude g in
  let g := set_interlude_time 4.0 g in
  set_difficulty 1.0 g.

Definition start_game (g : obj) : obj := set_state play (reset_run g).

(** [Game()] up to the start of [run]: the state is the menu, [load_save]
    has read the hi-score and the persisted upgrades, [reset_run] has
    built the run, and [run] has set [self.powerups = []].  The generator
    has made no call yet. *)
Definition init (saved_hiscore : Z) (saved_upgrades : gmap string Z) : obj :=
  reset_run
    {| state := menu; hiscore := saved_hiscore; persist_upgrades := saved_upgrades;
       player := Player.init 0 0; enemies := []; bullets := []; lasers := [];
       powerups := []; wave := 0; wave_time := 0; spawn_timer := 0;
       wave_state := interlude; interlude_time := 0; difficulty := 0;
       last_bomb := None; last_interlude := None; rng := 0 |}.

(** [def spawn_enemy_edge(self, kind=None, level=1)]: four calls of the
    generator (side, coordinate, kind, the enemy's [cool]), three when the
    kind is given. *)
Definition spawn_enemy_edge (kind : option Enemy.Kind) (level : Z) (g : obj) : obj :=
  let n := rng g in
  let side := random.choice [side_top; side_bottom; side_left; side_right] side_right n in
  let '(x, y) :=
    match side with
    | side_top => (random.randint 50 (WIDTH - 50) (S n), -40)
    | side_bottom => (random.randint 50 (WIDTH - 50) (S n), HEIGHT + 40)
    | side_left => (-40, random.randint 50 (HEIGHT - 50) (S n))
    | side_right => (WIDTH + 40, random.randint 50 (HEIGHT - 50) (S n))
    end%Z in
  let '(k, n) :=
    match kind with
    | Some k => (k, S (S n))
    | None =>
        (random.choices [(Enemy.chaser, 0.5); (Enemy.shooter, 0.25); (Enemy.zig, 0.25)]
           Enemy.chaser (S (S n)), S (S (S n)))
    end in
  let g := set_enemies (enemies g ++ [Enemy.init x y k level n]) g in
  set_rng (S n) g.

(** [def spawn_wave(self)] *)
Definition spawn_wave (g : obj) : obj :=
  let g := set_wave (wave g + 1)%Z g in
  let g := set_difficulty (1 + wave g * 0.12) g in
  let n := Z.min (4 + wave g * 2) 40 in
  let lvl := (1 + wave g / 3)%Z in
  let g := Nat.iter (Z.to_nat n) (spawn_enemy_edge None lvl) g in
  if (wave g mod 5 =? 0)%Z then
    let e := Enemy.init (WIDTH / 2) (-120) Enemy.boss (3 + wave g / 5)%Z (rng g) in
    set_rng (S (rng g)) (set_enemies (enemies g ++ [e]) g)
  else g.

(** [def bomb_explode(self)]: one step of the loop over the enemies.  The
    state carried along is (score, killed, generator calls). *)
Definition bomb_step (p : Player.obj) (e : Enemy.obj) (s : Z * Z * nat)
  : option Enemy.obj * (Z * Z * nat) :=
  let '(score, killed, n) := s in
  let rad := 180%Z in
  if dist2 (Enemy.x e) (Enemy.y e) (Player.x p) (Player.y p) <=? (rad * rad)%Z then
    (None, (score + 15, killed + 1, ParticleSystem.emit_explosion 18 n)%Z)
  else (Some e, s).

Definition bomb_explode (g : obj) : obj :=
  let p := player g in
  let '(es, (score, killed, n)) :=
    sweep (bomb_step p) (enemies g) (Player.score p, 0%Z, rng g) in
  let p := Player.set_score score p in
  let p := if (0 <? killed)%Z then Player.set_coins (Player.coins p + killed * 2)%Z p else p in
  set_rng n (set_player p (set_enemies es g)).

(** *** [def input_play(self, dt)], section by section *)

(** Joystick and keyboard axes, then "normalize". *)
Definition move_vector (inp : Input) : Q * Q :=
  let move_x := 0 in
  let move_y := 0 in
  let '(move_x, move_y) :=
    match joystick inp with
    | Some j =>
        (if Qabs (get_axis0 j) >? 0.1 then get_axis0 j else move_x,
         if Qabs (get_axis1 j) >? 0.1 then get_axis1 j else move_y)
    | None => (move_x, move_y)
    end in
  let move_x := if keys inp K_a || keys inp K_LEFT then move_x - 1 else move_x in
  let move_x := if keys inp K_d || keys inp K_RIGHT then move_x + 1 else move_x in
  let move_y := if keys inp K_w || keys inp K_UP then move_y - 1 else move_y in
  let move_y := if keys inp K_s || keys inp K_DOWN then move_y + 1 else move_y in
  let vlen := math.hypot move_x move_y in
  if vlen >? 0 then (move_x / vlen, move_y / vlen) else (move_x, move_y).

(** "dash" *)
Definition dash (inp : Input) (mv : Q * Q) (g : obj) : obj :=
  let p := player g in
  if (keys inp K_SPACE || keys inp K_LSHIFT) && (Player.dash_cd p <=? 0) then
    let p := Player.set_dash_cd PLAYER_DASH_COOLDOWN p in
    let p := Player.set_x (Player.x p + fst mv * PLAYER_DASH_SPEED * 0.12) p in
    let p := Player.set_y (Player.y p + snd mv * PLAYER_DASH_SPEED * 0.12) p in
    set_rng (ParticleSystem.emit_trail (rng g)) (set_player p g)
  else g.

(** "movement" *)
Definition movement (dt : Q) (mv : Q * Q) (g : obj) : obj :=
  let p := player g in
  let p := Player.set_x (Player.x p + fst mv * Player.speed p * dt) p in
  let p := Player.set_y (Player.y p + snd mv * Player.speed p * dt) p in
  let p := Player.set_x (clamp (Player.x p) 20 (WIDTH - 20)%Z) p in
  let p := Player.set_y (clamp (Player.y p) 20 (HEIGHT - 20)%Z) p in
  set_player p g.

(** "switch weapons" *)
Definition switch (inp : Input) (g : obj) : obj :=
  let g := if keys inp K_q then set_player (Player.switch_weapon (-1) (player g)) g else g in
  if keys inp K_e then set_player (Player.switch_weapon 1 (player g)) g else g.

(** The guard of "bomb": the key, a charge, and more than half a second
    since [self.last_bomb] ([getattr(self, 'last_bomb', 0)]). *)
Definition bomb_ready (inp : Input) (g : obj) : bool :=
  (keys inp K_x || keys inp K_k) && (0 <? Player.bombs (player g))%Z
  && (now inp - default 0 (last_bomb g) >? 0.5).

(** "bomb" *)
Definition bomb (inp : Input) (g : obj) : obj :=
  if bomb_ready inp g then
    let g := set_player (Player.set_bombs (Player.bombs (player g) - 1)%Z (player g)) g in
    let g := set_last_bomb (Some (now inp)) g in
    bomb_explode g
  else g.

(** The three bullets of the spread weapon. *)
Definition spread_bullets (p : Player.obj) : list Bullet.obj :=
  map (fun a : Z =>
         let rad := math.radians (a - 90)%Z in
         {| Bullet.x := Player.x p; Bullet.y := Player.y p - 18;
            Bullet.vx := math.cos rad * BULLET_SPEED; Bullet.vy := math.sin rad * BULLET_SPEED;
            Bullet.owner := by_player;
            Bullet.dmg := (10 + get0 (Player.upgrades p) "damage")%Z; Bullet.r := 4 |})
      [-18; 0; 18]%Z.

(** "fire mechanics depending on weapon".  [weapon_index] is 0 at the
    start and a residue modulo 3 afterwards, so the lookup does not fail. *)
Definition fire (inp : Input) (g : obj) : obj :=
  let shoot :=
    keys inp K_z || keys inp K_j
    || match joystick inp with Some j => get_button0 j | None => false end in
  let p := player g in
  let rapid_factor := if Player.rapid p >? 0 then 0.6 else 1.0 in
  if shoot then
    match getitem Player.weapons (Player.weapon_index p) with
    | Some single =>
        let rate := 0.16 * rapid_factor in
        if Player.bullets_cool p <=? 0 then
          let p := Player.set_bullets_cool rate p in
          let dir_x := 0%Z in
          let dir_y := (-1)%Z in
          let dmg := (12 + get0 (Player.upgrades p) "damage" * 2)%Z in
          let b := {| Bullet.x := Player.x p; Bullet.y := Player.y p - 18;
                      Bullet.vx := (dir_x * BULLET_SPEED)%Z;
                      Bullet.vy := (dir_y * BULLET_SPEED)%Z;
                      Bullet.owner := by_player; Bullet.dmg := dmg; Bullet.r := 4 |} in
          set_bullets (bullets g ++ [b]) (set_player p g)
        else g
    | Some spread =>
        let rate := 0.26 * rapid_factor in
        if Player.bullets_cool p <=? 0 then
          let p := Player.set_bullets_cool rate p in
          set_bullets (bullets g ++ spread_bullets p) (set_player p g)
        else g
    | Some laser =>
        let rate := 0.38 * rapid_factor in
        if Player.bullets_cool p <=? 0 then
          let p := Player.set_bullets_cool rate p in
          let l := {| LaserBeam.x := Player.x p; LaserBeam.y := Player.y p - 10;
                      LaserBeam.dx := 0; LaserBeam.dy := -1;
                      LaserBeam.life := LASER_DURATION; LaserBeam.t := 0;
                      LaserBeam.dmg := (6 + get0 (Player.upgrades p) "damage")%Z |} in
          set_lasers (lasers g ++ [l]) (set_player p g)
        else g
    | None => g
    end
  else g.

Definition input_play (dt : Q) (inp : Input) (g : obj) : obj :=
  let mv := move_vector inp in
  let g := dash inp mv g in
  let g := movement dt mv g in
  let g := switch inp g in
  let g := bomb inp g in
  fire inp g.

(** *** [def update_physics(self, dt)], pass by pass *)

(** "update enemies": the body of the loop.  A dead enemy ([hp <= 0]) is
    removed and pays its reward. *)
Definition drop_powerup (x y : Q) (g : obj) : obj :=
  let k := random.choice PowerUp.kinds PowerUp.coin (rng g) in
  let g := set_rng (S (rng g)) g in
  set_powerups
    (powerups g ++ [ {| PowerUp.x := x; PowerUp.y := y; PowerUp.type := k; PowerUp.t := 0 |} ]) g.

Definition enemy_step (dt : Q) (e : Enemy.obj) (g : obj) : option Enemy.obj * obj :=
  let '(e, bs) := Enemy.update dt (player g) (bullets g) e in
  let g := set_bullets bs g in
  if Enemy.hp e <=? 0 then
    let g := set_rng (ParticleSystem.emit_explosion 14 (rng g)) g in
    let p := player g in
    let p := Player.set_score (Player.score p + (10 + Enemy.level e * 3))%Z p in
    let p := Player.set_coins (Player.coins p + (1 + Enemy.level e / 2))%Z p in
    let g := set_player p g in
    let n := rng g in
    let g := set_rng (S n) g in
    let g := if random.random n <? 0.18 then drop_powerup (Enemy.x e) (Enemy.y e) g else g in
    (None, g)
  else (Some e, g).

Definition enemy_pass (dt : Q) (g : obj) : obj :=
  let '(es, g) := sweep (enemy_step dt) (enemies g) g in
  set_enemies es g.

(** "check collisions: bullets -> enemies, enemy bullets -> player".
    A player bullet is absorbed by the first enemy of the list it touches. *)
Fixpoint hit_first (b : Bullet.obj) (es : list Enemy.obj) : option (list Enemy.obj) :=
  match es with
  | [] => None
  | e :: rest =>
      if dist2 (Enemy.x e) (Enemy.y e) (Bullet.x b) (Bullet.y b)
         <=? ((Enemy.r e + Bullet.r b) ^ 2)%Z
      then Some (Enemy.set_hp (Enemy.hp e - Bullet.dmg b) e :: rest)
      else option_map (cons e) (hit_first b rest)
  end.

Definition bullet_step (b : Bullet.obj) (g : obj) : option Bullet.obj * obj :=
  match Bullet.owner b with
  | by_player =>
      match hit_first b (enemies g) with
      | Some es => (None, set_enemies es g)
      | None => (Some b, g)
      end
  | by_enemy =>
      let p := player g in
      if dist2 (Player.x p) (Player.y p) (Bullet.x b) (Bullet.y b)
         <=? ((Player.r p + Bullet.r b) ^ 2)%Z
      then
        let g :=
          if Player.shield p <=? 0
          then set_player (Player.set_hp (Player.hp p - Bullet.dmg b)%Z p) g
          else g in
        (None, g)
      else (Some b, g)
  end.

Definition bullet_pass (g : obj) : obj :=
  let '(bs, g) := sweep bullet_step (bullets g) g in
  set_bullets bs g.

(** "lasers damage": the test the source applies to one beam and one
    enemy, and the damage of one tick. *)
Definition laser_hits (l : LaserBeam.obj) (e : Enemy.obj) : bool :=
  let px := Enemy.x e in
  let py := Enemy.y e in
  let x1 := LaserBeam.x l in
  let y1 := LaserBeam.y l in
  let x2 := LaserBeam.x l + LaserBeam.dx l * 2000 in
  let y2 := LaserBeam.y l + LaserBeam.dy l * 2000 in
  let num := Qabs ((y2 - y1) * px - (x2 - x1) * py + x2 * y1 - y2 * x1) in
  let den := math.hypot (y2 - y1) (x2 - x1) + 1e-6 in
  let dist := num / den in
  dist <=? (Enemy.r e + 4)%Z.

Definition laser_damage (dt : Q) (l : LaserBeam.obj) (e : Enemy.obj) : Enemy.obj :=
  if laser_hits l e then Enemy.set_hp (Enemy.hp e - LaserBeam.dmg l * dt * 8) e else e.

Definition laser_pass (dt : Q) (g : obj) : obj :=
  set_enemies (fold_left (fun es l => map (laser_damage dt l) es) (lasers g) (enemies g)) g.

(** "enemies collide with player" *)
Definition contact_step (e : Enemy.obj) (g : obj) : option Enemy.obj * obj :=
  let p := player g in
  if dist2 (Enemy.x e) (Enemy.y e) (Player.x p) (Player.y p)
     <=? ((Enemy.r e + Player.r p) ^ 2)%Z
  then
    let g :=
      if Player.shield p <=? 0
      then set_player (Player.set_hp (Player.hp p - 18)%Z p) g
      else g in
    (None, set_rng (ParticleSystem.emit_explosion 20 (rng g)) g)
  else (Some e, g).

Definition contact_pass (g : obj) : obj :=
  let '(es, g) := sweep contact_step (enemies g) g in
  set_enemies es g.

(** "update player cooldowns", "update bullets", "update lasers" *)
Definition advance (dt : Q) (g : obj) : obj :=
  let g := set_player (Player.update dt (player g)) g in
  let g := set_bullets (List.filter Bullet.alive (map (Bullet.update dt) (bullets g))) g in
  set_lasers (map (LaserBeam.update dt) (List.filter LaserBeam.alive (lasers g))) g.

Definition update_physics (dt : Q) (g : obj) : obj :=
  let g := advance dt g in
  let g := enemy_pass dt g in
  let g := bullet_pass g in
  let g := laser_pass dt g in
  contact_pass g.

(** *** [def update_powerups(self, dt)] *)

(** What a picked-up power-up does to the player. *)
Definition pickup (k : PowerUp.Kind) (p : Player.obj) : Player.obj :=
  match k with
  | PowerUp.heal => Player.set_hp (clampZ (Player.hp p + 40) 0 (Player.maxhp p)) p
  | PowerUp.rapid => Player.set_rapid 6.0 p
  | PowerUp.shield => Player.set_shield 6.0 p
  | PowerUp.bomb => Player.set_bombs (clampZ (Player.bombs p + 1) 0 6) p
  | PowerUp.coin => Player.set_coins (Player.coins p + 5)%Z p
  end.

Definition powerup_step (dt : Q) (u : PowerUp.obj) (g : obj) : option PowerUp.obj * obj :=
  let u := PowerUp.set_y (PowerUp.y u + 40 * dt) u in
  let u := PowerUp.set_t (PowerUp.t u + dt) u in
  let p := player g in
  if dist2 (PowerUp.x u) (PowerUp.y u) (Player.x p) (Player.y p)
     <=? ((Player.r p + 12) ^ 2)%Z
  then (None, set_player (pickup (PowerUp.type u) p) g)
  else if PowerUp.y u >? (HEIGHT + 40)%Z then (None, g)
  else (Some u, g).

Definition update_powerups (dt : Q) (g : obj) : obj :=
  let '(us, g) := sweep (powerup_step dt) (powerups g) g in
  set_powerups us g.

(** *** [def update_wave_and_spawning(self, dt)] *)

Definition update_wave_and_spawning (dt : Q) (inp : Input) (g : obj) : obj :=
  match wave_state g with
  | interlude =>
      let g := set_interlude_time (interlude_time g - dt) g in
      if interlude_time g <=? 0 then spawn_wave (set_wave_state active g) else g
  | active =>
      let g :=
        match enemies g with
        | [] =>
            let g := set_wave_state interlude g in
            let g := set_interlude_time 6.0 g in
            set_last_interlude (Some (now inp)) g
        | _ :: _ => g
        end in
      let g := set_spawn_timer (spawn_timer g - dt) g in
      if spawn_timer g <=? 0 then
        let g := set_spawn_timer (max 0.3 (1.2 / (1 + wave g * 0.08))) g in
        let n := rng g in
        let g := set_rng (S n) g in
        if random.random n <? 0.6 then spawn_enemy_edge None (1 + wave g / 2)%Z g else g
      else g
  end.

(** *** [def run(self)]: the body of [elif self.state == 'play'] *)

Definition check_player_death (g : obj) : obj :=
  if (Player.hp (player g) <=? 0)%Z then
    let g :=
      if (Player.score (player g) >? hiscore g)%Z
      then set_hiscore (Player.score (player g)) g
      else g in
    set_state gameover g
  else g.

Definition run_play (dt : Q) (inp : Input) (g : obj) : obj :=
  let g := input_play dt inp g in
  let g := update_physics dt g in
  let g := update_powerups dt g in
  let g := update_wave_and_spawning dt inp g in
  check_player_death g.

(** The [KEYDOWN] events [run] handles before it dispatches on the state. *)
Definition on_keydown (k : Key) (g : obj) : obj :=
  let g :=
    match k, state g with
    | (K_p | K_ESCAPE), play => set_state pause g
    | (K_p | K_ESCAPE), pause => set_state play g
    | _, _ => g
    end in
  let g :=
    match k, wave_state g, state g with
    | K_s, interlude, play => set_state shop g
    | _, _, _ => g
    end in
  match k, state g with
  | K_m, menu => g
  | K_m, _ => set_state menu g
  | _, _ => g
  end.

(** *** [def shop_loop(self)] *)

Definition opts : list (string * string * Z) :=
  [ ("Max HP +20", "hp", 8%Z);
    ("Speed +10", "speed", 10%Z);
    ("Damage +1", "damage", 12%Z);
    ("Extra Bomb", "bomb", 6%Z);
    ("Restore HP", "heal", 5%Z) ].

(** What buying the option [key] does once it is paid for. *)
Definition apply_option (key : string) (g : obj) : obj :=
  if (key =? "hp")%string || (key =? "speed")%string || (key =? "damage")%string then
    let g := set_persist_upgrades
               (<[key := (get0 (persist_upgrades g) key + 1)%Z]> (persist_upgrades g)) g in
    let p := player g in
    let p := Player.set_upgrades
               (<[key := (get0 (Player.upgrades p) key + 1)%Z]> (Player.upgrades p)) p in
    let p :=
      if (key =? "hp")%string then
        let p := Player.set_maxhp (Player.maxhp p + 20)%Z p in
        Player.set_hp (Player.maxhp p) p
      else p in
    set_player p g
  else if (key =? "bomb")%string then
    set_player (Player.set_bombs (Player.bombs (player g) + 1)%Z (player g)) g
  else if (key =? "heal")%string then
    let p := player g in
    set_player (Player.set_hp (Z.min (Player.maxhp p) (Player.hp p + 40)) p) g
  else g.

(** [K_RETURN] on the selected line: [opts[sel]] is bought when the coins
    suffice.  [sel] is 0 at the start and a residue modulo 5 afterwards. *)
Definition buy (sel : Z) (g : obj) : obj :=
  match getitem opts sel with
  | Some (label, key, cost) =>
      if (Player.coins (player g) >=? cost)%Z then
        let g := set_player (Player.set_coins (Player.coins (player g) - cost)%Z (player g)) g in
        apply_option key g
      else g
  | None => g
  end.

Definition shop_event (s : Z * obj) (e : Event) : Z * obj :=
  let '(sel, g) := s in
  match e with
  | KEYDOWN K_UP => ((sel - 1) mod Z.of_nat (length opts), g)%Z
  | KEYDOWN K_DOWN => ((sel + 1) mod Z.of_nat (length opts), g)%Z
  | KEYDOWN K_RETURN => (sel, buy sel g)
  | KEYDOWN K_ESCAPE => (sel, set_state play g)
  | _ => s
  end.

(** The loop [while self.state == 'shop'], one batch of events per turn;
    [batches] is what [pygame.event.get()] returns turn after turn. *)
Fixpoint shop_turns (batches : list (list Event)) (sel : Z) (g : obj) : obj :=
  match batches with
  | [] => g
  | evs :: rest =>
      match state g with
      | shop => let '(sel, g) := fold_left shop_event evs (sel, g) in shop_turns rest sel g
      | _ => g
      end
  end.

Definition shop_loop (batches : list (list Event)) (g : obj) : obj := shop_turns batches 0%Z g.
End Methods.
End Game.

(** ** A reference runtime, for running the model on concrete inputs *)

(** Square root rounded down to a multiple of [10^-9]; exact on the
    squares of such multiples. *)
Definition sqrt_down (q : Q) : Q := Qmake (Z.sqrt (Qfloor (q * Qmake (10 ^ 18) 1))) (10 ^ 9).

(** The angle [a] brought into [[-pi, pi]], with 355/113 for pi. *)
Definition wrap_angle (a : Q) : Q :=
  Qred (a - (710 # 113) * Qfloor (a / (710 # 113) + (1 # 2))).

(** [hypot] through [sqrt_down]; Taylor polynomials of degree 9 and 8 for
    [sin] and [cos] on the wrapped angle; [radians] with 355/113 for pi.
    The runs below call [hypot] only, at arguments where it is exact. *)
#[export] Instance reference_math : math.lib := {|
  math.hypot := fun a b => sqrt_down (a * a + b * b);
  math.sin := fun a =>
    let x := wrap_angle a in
    let x2 := x * x in
    Qred (x * (1 - x2 / 6 * (1 - x2 / 20 * (1 - x2 / 42 * (1 - x2 / 72)))));
  math.cos := fun a =>
    let x2 := wrap_angle a * wrap_angle a in
    Qred (1 - x2 / 2 * (1 - x2 / 12 * (1 - x2 / 30 * (1 - x2 / 56))));
  math.radians := fun a => Qred (a * (355 # 113) / 180)
|}.

(** A fixed entropy stream (multiples of the golden-ratio constant). *)
#[export] Instance reference_entropy : random.source := {|
  random.bits := fun n => (Z.of_nat n * 11400714819323198485)%Z
|}.

(** ** Concrete runs *)

(** No key down, no joystick, the clock at 100 seconds. *)
Definition no_keys : Input := {| keys := fun _ => false; joystick := None; now := 100 |}.

Definition holding (ks : list Key) : Input :=
  {| keys := fun k => existsb (fun k' => bool_decide (k = k')) ks;
     joystick := None; now := 100 |}.

(** A fresh run: no save file, ENTER pressed in the menu. *)
Definition g_start : Game.obj := Game.start_game (Game.init 0 ∅).

(** A level-1 chaser as [Enemy('chaser', level=1)] builds it, at [(x, y)]. *)
Definition chaser_at (x y : Q) : Enemy.obj := Enemy.init x y Enemy.chaser 1 0.

(** Wave 1 under way: the first interlude has run out (four seconds in
    one step) and [spawn_wave] has run. *)
Definition g_wave1 : Game.obj := Game.update_wave_and_spawning 4 no_keys g_start.

(** Seven level-1 chasers (the six of wave 1 and one extra spawn) have
    reached the player, who stands at (500, 455). *)
Definition g_swarmed : Game.obj :=
  Game.set_enemies (repeat (chaser_at 500 455) 7) g_wave1.

(** The same, with a heal power-up lying on the player. *)
Definition g_swarmed_heal : Game.obj :=
  Game.set_powerups
    [ {| PowerUp.x := 500; PowerUp.y := 455; PowerUp.type := PowerUp.heal; PowerUp.t := 0 |} ]
    g_swarmed.

(** A wounded chaser (10 hp left) just above the player, who fires. *)
Definition g_point_blank : Game.obj :=
  Game.set_enemies [Enemy.set_hp 10 (chaser_at 500 436)] g_wave1.

(** A chaser below the player, who switches to the laser (Q) and fires
    (Z): the beam starts at the player and points up the screen. *)
Definition g_laser_behind : Game.obj :=
  Game.set_enemies [chaser_at 500 600] g_wave1.

(** Wave 5 is active and its last enemy has just gone. *)
Definition g_wave5_cleared : Game.obj :=
  Game.set_wave_state Game.active (Game.set_wave 5 g_start).

(** The shop is open and the player owns 36 coins. *)
Definition g_rich : Game.obj :=
  Game.set_state Game.shop
    (Game.set_player (Player.set_coins 36 (Game.player g_start)) g_start).

(** The 36 coins spent on six bombs (three lines down, six times ENTER,
    ESC), then a bomb power-up lying on the player. *)
Definition g_eight_bombs : Game.obj :=
  let g := Game.shop_loop
             [ repeat (KEYDOWN K_DOWN) 3 ++ repeat (KEYDOWN K_RETURN) 6 ++ [KEYDOWN K_ESCAPE] ]
             g_rich in
  Game.set_powerups
    [ {| PowerUp.x := 500; PowerUp.y := 455; PowerUp.type := PowerUp.bomb; PowerUp.t := 0 |} ]
    g.

(** ** Vocabulary of the statements *)

Definition position (p : Player.obj) : Q * Q := (Player.x p, Player.y p).

(** The bomb's reach around the point [c]: [(e.x - x)**2 + (e.y - y)**2 <= 180*180]. *)
Definition in_blast (c : Q * Q) (e : Enemy.obj) : bool :=
  dist2 (Enemy.x e) (Enemy.y e) (fst c) (snd c) <=? (180 * 180)%Z.

(** What a bomb may change besides the generator: the enemies, the bomb
    count, score, coins and the time of the last bomb. *)
Definition ledger (g : Game.obj) : list Enemy.obj * Z * Z * Z * option Q :=
  (Game.enemies g, Player.bombs (Game.player g), Player.score (Game.player g),
   Player.coins (Game.player g), Game.last_bomb g).

(** Body contact with the player: [(e.x - x)**2 + (e.y - y)**2 <= (e.r + r)**2]. *)
Definition touches (p : Player.obj) (e : Enemy.obj) : bool :=
  dist2 (Enemy.x e) (Enemy.y e) (Player.x p) (Player.y p)
  <=? ((Enemy.r e + Player.r p) ^ 2)%Z.

(** An enemy the "update enemies" loop removes, and what it pays. *)
Definition dead (e : Enemy.obj) : bool := Enemy.hp e <=? 0.
Definition reward_score (e : Enemy.obj) : Z := 10 + Enemy.level e * 3.
Definition reward_coins (e : Enemy.obj) : Z := 1 + Enemy.level e / 2.
Definition sumZ {A : Type} (f : A -> Z) (l : list A) : Z :=
  fold_right (fun a s => (f a + s)%Z) 0%Z l.

(** A bullet that cannot heal the player: an enemy's bullet has a damage
    of at least zero (8 and 10 are the values the source creates). *)
Definition harmful (b : Bullet.obj) : Prop :=
  match Bullet.owner b with
  | by_enemy => (0 <= Bullet.dmg b)%Z
  | by_player => True
  end.

(** During the contact loop (and the bullet loop) the player changes in [hp] only, and [hp]
    does not grow; power-ups and bullets are not touched. *)
Definition contact_inv (g0 g : Game.obj) : Prop :=
  (exists h, (h <= Player.hp (Game.player g0))%Z
             /\ Game.player g = Player.set_hp h (Game.player g0))
  /\ Game.powerups g = Game.powerups g0
  /\ Game.bullets g = Game.bullets g0.

(** What a tick of [play] keeps: the state and the hi-score (until the
    death check), [maxhp], [hp <= maxhp], and harmful bullets only. *)
Definition tick_inv (st : Game.State) (hs M : Z) (g : Game.obj) : Prop :=
  Game.state g = st /\ Game.hiscore g = hs
  /\ Player.maxhp (Game.player g) = M
  /\ (Player.hp (Game.player g) <= M)%Z /\ (0 <= M)%Z
  /\ Forall harmful (Game.bullets g).

Definition hp_invariant (g : Game.obj) : Prop :=
  (Player.hp (Game.player g) <= Player.maxhp (Game.player g))%Z
  /\ (0 <= Player.maxhp (Game.player g))%Z
  /\ Forall harmful (Game.bullets g).

(** Where [spawn_enemy_edge] puts an enemy: integer coordinates, 40 units
    outside one border and at least 50 units from the corners. *)
Definition at_edge (e : Enemy.obj) : Prop :=
  exists x y : Z,
    Enemy.x e = inject_Z x /\ Enemy.y e = inject_Z y
    /\ ((y = -40 /\ 50 <= x <= WIDTH - 50)
        \/ (y = HEIGHT + 40 /\ 50 <= x <= WIDTH - 50)
        \/ (x = -40 /\ 50 <= y <= HEIGHT - 50)
        \/ (x = WIDTH + 40 /\ 50 <= y <= HEIGHT - 50))%Z.

(** The shop's permanent upgrades: [key in ('hp','speed','damage')]. *)
Definition permanent (key : string) : bool :=
  (key =? "hp")%string || (key =? "speed")%string || (key =? "damage")%string.

(** The enemy [e] moved by [s] times the beam's direction: forward along
    the beam for [s > 0], backward (behind the origin) for [s < 0]. *)
Definition slide (s : Q) (l : LaserBeam.obj) (e : Enemy.obj) : Enemy.obj :=
  Enemy.set_y (Enemy.y e + s * LaserBeam.dy l) (Enemy.set_x (Enemy.x e + s * LaserBeam.dx l) e).

(** The beam as a vector: from its origin to the point 2000 times its
    direction away. *)
Definition beam_span (l : LaserBeam.obj) : Q * Q :=
  (LaserBeam.x l + LaserBeam.dx l * 2000 - LaserBeam.x l,
   LaserBeam.y l + LaserBeam.dy l * 2000 - LaserBeam.y l).

(** Cross product of that vector with the enemy's offset from the beam's
    origin: its absolute value is the length of the vector times the
    distance of the enemy from the whole line through the origin. *)
Definition cross (l : LaserBeam.obj) (e : Enemy.obj) : Q :=
  snd (beam_span l) * (Enemy.x e - LaserBeam.x l)
  - fst (beam_span l) * (Enemy.y e - LaserBeam.y l).

(** The test in the words of the statement: [|cross| / (hypot + 1e-6)] is
    at most the enemy's radius plus 4. *)
Definition near_line `{math.lib} (l : LaserBeam.obj) (e : Enemy.obj) : bool :=
  Qabs (cross l e) / (math.hypot (snd (beam_span l)) (fst (beam_span l)) + 1e-6)
  <=? (Enemy.r e + 4)%Z.

(** The laser damage of one tick on [e]: [l.dmg*dt*8] for every beam of
    [ls] that [e] is near the line of. *)
Definition beam_damage `{math.lib} (dt : Q) (ls : list LaserBeam.obj) (e : Enemy.obj) : Q :=
  fold_right (fun l s => (if near_line l e then LaserBeam.dmg l * dt * 8 else 0) + s) 0 ls.

(** The power-up [u] lies where the enemy [e] is, and is new. *)
Definition dropped_by (e : Enemy.obj) (u : PowerUp.obj) : Prop :=
  PowerUp.x u = Enemy.x e /\ PowerUp.y u = Enemy.y e /\ PowerUp.t u = 0.

(** The power-up after it has fallen for [dt]. *)
Definition fallen (dt : Q) (u : PowerUp.obj) : PowerUp.obj :=
  PowerUp.set_t (PowerUp.t u + dt) (PowerUp.set_y (PowerUp.y u + 40 * dt) u).

(** The pickup test: [(p.x - x)**2 + (p.y - y)**2 <= (r + 12)**2]. *)
Definition reached (p : Player.obj) (u : PowerUp.obj) : bool :=
  dist2 (PowerUp.x u) (PowerUp.y u) (Player.x p) (Player.y p)
  <=? ((Player.r p + 12) ^ 2)%Z.

(** What happens to a run, one step at a time: a tick of [play], or
    [K_RETURN] on line [sel] of the shop. *)
Inductive Action := Tick (dt : Q) (inp : Input) | Purchase (sel : Z).

Definition perform `{math.lib, random.source} (g : Game.obj) (a : Action) : Game.obj :=
  match a with
  | Tick dt inp => Game.run_play dt inp g
  | Purchase sel => Game.buy sel g
  end.

(** ** The particle system with its particles *)

(** [class Particle]; the colour is cosmetic and left out. *)
Module Particle.
Record obj := mk {
  x : Q;
  y : Q;
  vx : Q;
  vy : Q;
  life : Q;
  t : Q;
  r : Z
}.

(** [def update(self, dt)]: the particle after the call, and what the
    call returns, [self.t < self.life]. *)
Definition update (dt : Q) (p : obj) : obj * bool :=
  let t' := t p + dt in
  ({| x := x p + vx p * dt; y := y p + vy p * dt;
      vx := vx p * 0.98; vy := vy p * 0.98;
      life := life p; t := t'; r := r p |},
   t' <? life p).
End Particle.

(** [class ParticleSystem] with its list [ps].  [math.tau] is a parameter.
    Each function returns the list and the generator's call count. *)
Module Particles.
Section Methods.
Context `{math.lib, random.source}.
Variable tau : Q.

(** [def emit_explosion(self, x, y, color, amount, speed)] *)
Fixpoint emit_explosion (x y : Q) (amount : nat) (speed : Q)
    (ps : list Particle.obj) (n : nat) : list Particle.obj * nat :=
  match amount with
  | O => (ps, n)
  | S amount =>
      let ang := random.random n * tau in
      let spd := random.uniform (0.2 * speed) speed (S n) in
      let vx := math.cos ang * spd in
      let vy := math.sin ang * spd in
      let r := random.randint 2 4 (S (S n)) in
      let life := random.uniform 0.3 0.9 (S (S (S n))) in
      emit_explosion x y amount speed
        (ps ++ [ {| Particle.x := x; Particle.y := y; Particle.vx := vx; Particle.vy := vy;
                    Particle.life := life; Particle.t := 0; Particle.r := r |} ])
        (S (S (S (S n))))
  end.

(** [def emit_trail(self, x, y, color)] *)
Definition emit_trail (x y : Q) (ps : list Particle.obj) (n : nat)
  : list Particle.obj * nat :=
  let vx := random.uniform (-30) 30 n in
  let vy := random.uniform (-30) 30 (S n) in
  let r := random.randint 1 3 (S (S n)) in
  let life := random.uniform 0.2 0.45 (S (S (S n))) in
  (ps ++ [ {| Particle.x := x; Particle.y := y; Particle.vx := vx; Particle.vy := vy;
              Particle.life := life; Particle.t := 0; Particle.r := r |} ],
   S (S (S (S n)))).

(** [def update(self, dt): self.ps = [p for p in self.ps if p.update(dt)]] *)
Definition update (dt : Q) (ps : list Particle.obj) : list Particle.obj :=
  map fst (List.filter snd (map (Particle.update dt) ps)).
End Methods.
End Particles.

(** ** [def gameover_loop(self)] *)

(** One call handles the events of one [pygame.event.get()]; [None]
    stands for [sys.exit()] on [QUIT]. *)
Fixpoint gameover_loop (evs : list Event) (g : Game.obj) : option Game.obj :=
  match evs with
  | [] => Some g
  | KEYDOWN K_RETURN :: rest => gameover_loop rest (Game.set_state Game.menu g)
  | QUIT :: _ => None
  | _ :: rest => gameover_loop rest g
  end.

(** ** Vocabulary of the further statements *)

(** What only [input_play] and the shop change of the player: position,
    radius, speed, weapon, upgrade levels and [maxhp]. *)
Definition build (p : Player.obj)
  : Q * Q * Z * Z * Z * gmap string Z * Z :=
  (Player.x p, Player.y p, Player.r p, Player.speed p, Player.weapon_index p,
   Player.upgrades p, Player.maxhp p).

(** What [update_physics] and [update_powerups] leave alone. *)
Definition beyond_physics (g : Game.obj) :=
  (Game.state g, Game.hiscore g, Game.persist_upgrades g, Game.wave g, Game.wave_time g,
   Game.spawn_timer g, Game.wave_state g, Game.interlude_time g, Game.difficulty g,
   Game.last_bomb g, Game.last_interlude g, build (Game.player g)).

(** The four timers of the player are not negative. *)
Definition timers_settled (p : Player.obj) : Prop :=
  0 <= Player.dash_cd p /\ 0 <= Player.bullets_cool p
  /\ 0 <= Player.rapid p /\ 0 <= Player.shield p.

Definition valid_weapon (p : Player.obj) : Prop :=
  (0 <= Player.weapon_index p < 3)%Z.

(** The box [Enemy.update] keeps an enemy in. *)
Definition in_box (e : Enemy.obj) : Prop :=
  -100 <= Enemy.x e <= (WIDTH + 100)%Z /\ -100 <= Enemy.y e <= (HEIGHT + 100)%Z.

(** An enemy as the constructor leaves it, of a level that is not negative. *)
Definition newborn (e : Enemy.obj) : Prop :=
  0 < Enemy.hp e
  /\ Enemy.hp e == (if Enemy.is_boss (Enemy.kind e) then (20 + Enemy.level e * 6) * 6
                    else 20 + Enemy.level e * 6)%Z
  /\ Enemy.r e = (if Enemy.is_boss (Enemy.kind e) then 36 else 12)%Z
  /\ Enemy.t e == 0
  /\ 0.6 <= Enemy.cool e < 1.8.

(** Total damage carried by the bullets of one owner, and total hp of a
    list of enemies. *)
Definition same_owner (a b : Owner) : bool :=
  match a, b with
  | by_player, by_player | by_enemy, by_enemy => true
  | _, _ => false
  end.

Definition damage_of (o : Owner) (bs : list Bullet.obj) : Z :=
  sumZ (fun b => if same_owner (Bullet.owner b) o then Bullet.dmg b else 0%Z) bs.

Definition total_hp (es : list Enemy.obj) : Q :=
  fold_right (fun e s => Enemy.hp e + s) 0 es.

(** No direction is asked for: no joystick, and opposite keys cancel. *)
Definition no_direction (inp : Input) : Prop :=
  joystick inp = None
  /\ (keys inp K_a || keys inp K_LEFT) = (keys inp K_d || keys inp K_RIGHT)
  /\ (keys inp K_w || keys inp K_UP) = (keys inp K_s || keys inp K_DOWN).

(** A power-up that has fallen below the screen. *)
Definition lost (u : PowerUp.obj) : bool := PowerUp.y u >? (HEIGHT + 40)%Z.

(** What [update_physics] keeps true from its first step on: the fields
    [view] shows, and the timers. *)
(** The invariant behind the frame of the physics: everything of
    [beyond_physics] is as in [c], and the timers are not negative. *)
Definition physics_inv {C : Type} (view : Game.obj -> C) (c : C) (g : Game.obj) : Prop :=
  view g = c /\ timers_settled (Game.player g).

(** Only the hp differs between the two enemies. *)
Definition only_hp (e e' : Enemy.obj) : Prop := e' = Enemy.set_hp (Enemy.hp e') e.

(** The event is a press of the key [k]; the event closes the window. *)
Definition pressed (k : Key) (e : Event) : bool :=
  match e with
  | KEYDOWN k' => bool_decide (k' = k)
  | _ => false
  end.

Definition closes (e : Event) : bool :=
  match e with
  | QUIT => true
  | _ => false
  end.

(** Seven chasers on the player, as in [g_swarmed], six seconds of shield
    left. *)
Definition g_shielded : Game.obj :=
  Game.set_player (Player.set_shield 6 (Game.player g_swarmed)) g_swarmed.

(** * Properties *)

(** ** Comparisons, [max], [min] and [clamp] *)

Lemma Qltb_lt (a b : Q) : (a <? b) = true <-> a < b.
Proof.
  unfold Qltb. rewrite negb_true_iff, <- not_true_iff_false, Qle_bool_iff.
  split; [apply Qnot_le_lt | apply Qlt_not_le].
Qed.

Lemma Qltb_ge (a b : Q) : (a <? b) = false <-> b <= a.
Proof.
  unfold Qltb. rewrite negb_false_iff. apply Qle_bool_iff.
Qed.

Lemma Qleb_gt (a b : Q) : (a <=? b) = false <-> b < a.
Proof.
  rewrite <- not_true_iff_false, Qle_bool_iff.
  split; [apply Qnot_le_lt | apply Qlt_not_le].
Qed.

Ltac Qcases :=
  repeat match goal with
    | |- context [Qltb ?a ?b] =>
        let E := fresh "E" in
        destruct (Qltb a b) eqn:E; [apply Qltb_lt in E | apply Qltb_ge in E]
    | |- context [Qle_bool ?a ?b] =>
        let E := fresh "E" in
        destruct (Qle_bool a b) eqn:E; [apply Qle_bool_iff in E | apply Qleb_gt in E]
    end.

Lemma clamp_bounds (v lo hi : Q) : lo <= hi -> lo <= clamp v lo hi <= hi.
Proof. intros Hlh. unfold clamp, max, min. Qcases; lra. Qed.

(** Case analysis on every test of the goal. *)
Ltac branches :=
  repeat match goal with
         | |- context [if ?b then _ else _] => destruct b
         | |- context [match ?o with Some _ => _ | None => _ end] => destruct o
         | |- context [match ?w with single => _ | _ => _ end] => destruct w
         end.

(** ** The generator *)

Lemma random_range `{random.source} (n : nat) : 0 <= random.random n < 1.
Proof.
  unfold random.random.
  assert (Hm : (0 <= random.bits n mod 2 ^ 53 < 2 ^ 53)%Z) by (apply Z.mod_pos_bound; lia).
  unfold Qle, Qlt; simpl. lia.
Qed.

Lemma randbelow_range `{random.source} (k : Z) (n : nat) :
  (0 < k -> 0 <= random.randbelow k n < k)%Z.
Proof.
  intros Hk. unfold random.randbelow.
  pose proof (random_range n) as [H0 H1].
  assert (Hq : 0 <= random.random n * k < k).
  { assert (0 < inject_Z k) by (change 0 with (inject_Z 0); rewrite <- Zlt_Qlt; lia). nra. }
  destruct Hq as [Hq0 Hq1]. split.
  - change 0%Z with (Qfloor 0). apply Qfloor_resp_le, Hq0.
  - rewrite Zlt_Qlt. eapply Qle_lt_trans; [apply Qfloor_le | exact Hq1].
Qed.

(** ** Loops that remove while they walk a copy *)

Section Sweep.
Context {A S : Type} (body : A -> S -> option A * S).

Lemma sweep_cons (e : A) (xs : list A) (s : S) :
  sweep body (e :: xs) s =
    (match fst (body e s) with
     | Some e' => e' :: fst (sweep body xs (snd (body e s)))
     | None => fst (sweep body xs (snd (body e s)))
     end,
     snd (sweep body xs (snd (body e s)))).
Proof.
  simpl. destruct (body e s) as [k s1]; simpl.
  destruct (sweep body xs s1) as [rest s2]; reflexivity.
Qed.

(** An invariant of the body is an invariant of the loop. *)
Lemma sweep_invariant (P : A -> Prop) (I : S -> Prop) :
  (forall e s, P e -> I s -> I (snd (body e s))) ->
  forall xs s, Forall P xs -> I s -> I (snd (sweep body xs s)).
Proof.
  intros Hbody xs. induction xs as [|e xs IH]; intros s HP HI; [exact HI|].
  rewrite sweep_cons; simpl. inversion HP; subst. apply IH; auto.
Qed.

(** What holds of every entry the body keeps holds of the list left. *)
Lemma sweep_kept (P R : A -> Prop) :
  (forall e s e', P e -> fst (body e s) = Some e' -> R e') ->
  forall xs s, Forall P xs -> Forall R (fst (sweep body xs s)).
Proof.
  intros Hbody xs. induction xs as [|e xs IH]; intros s HP; [constructor|].
  rewrite sweep_cons; simpl. inversion HP; subst.
  destruct (fst (body e s)) eqn:E; [constructor; eauto|]; apply IH; auto.
Qed.

(** When the body's verdict on an entry does not depend on the state (as
    long as an invariant holds), the loop is a filter-map. *)
Lemma sweep_omap (I : S -> Prop) (f : A -> option A) :
  (forall e s, I s -> fst (body e s) = f e /\ I (snd (body e s))) ->
  forall xs s, I s -> fst (sweep body xs s) = omap f xs.
Proof.
  intros Hbody xs. induction xs as [|e xs IH]; intros s HI; [reflexivity|].
  rewrite sweep_cons; simpl. destruct (Hbody e s HI) as [-> HI'].
  rewrite (IH _ HI'). destruct (f e); reflexivity.
Qed.
End Sweep.

(** ** What [Enemy.update] touches *)

Section EnemyFacts.
Context `{math.lib, random.source}.

(** The enemy after its update depends on the player's position only, and
    not on the bullets already in flight. *)
Lemma update_enemy_position_only (dt : Q) (p p' : Player.obj) (bs bs' : list Bullet.obj)
    (e : Enemy.obj) :
  position p = position p' ->
  fst (Enemy.update dt p bs e) = fst (Enemy.update dt p' bs' e).
Proof.
  unfold position. intros [= Hx Hy]. unfold Enemy.update. rewrite Hx, Hy. cbv zeta.
  destruct (Enemy.kind _); cbn [Enemy.kind Enemy.set_t Enemy.set_x Enemy.set_y
    Enemy.set_cool Enemy.cool]; branches; reflexivity.
Qed.

Lemma update_enemy_hp (dt : Q) (p : Player.obj) (bs : list Bullet.obj) (e : Enemy.obj) :
  let e' := fst (Enemy.update dt p bs e) in
  Enemy.hp e' = Enemy.hp e /\ Enemy.level e' = Enemy.level e
  /\ Enemy.kind e' = Enemy.kind e /\ Enemy.r e' = Enemy.r e.
Proof.
  unfold Enemy.update. cbv zeta.
  destruct (Enemy.kind _) eqn:K; cbn [Enemy.kind Enemy.set_t Enemy.set_x Enemy.set_y
    Enemy.set_cool Enemy.cool] in *; branches; cbn; rewrite ?K; repeat split; reflexivity.
Qed.

(** The bullets an enemy fires are appended, and they are harmful. *)
Lemma update_enemy_bullets (dt : Q) (p : Player.obj) (bs : list Bullet.obj) (e : Enemy.obj) :
  exists new, snd (Enemy.update dt p bs e) = bs ++ new /\ Forall harmful new.
Proof.
  unfold Enemy.update. cbv zeta.
  destruct (Enemy.kind _); cbn [Enemy.kind Enemy.set_t Enemy.set_x Enemy.set_y
    Enemy.set_cool Enemy.cool]; branches; cbn [snd];
    try (exists []; rewrite app_nil_r; split; [reflexivity | constructor]).
  - eexists; split; [reflexivity|]. constructor; [|constructor]. unfold harmful; simpl; lia.
  - eexists; split; [reflexivity|]. unfold Enemy.ring.
    apply List.Forall_forall. intros b Hb. apply in_map_iff in Hb as (k & <- & _).
    unfold harmful; simpl; lia.
Qed.
End EnemyFacts.

(** ** Frame facts of [input_play] *)

Section GameFacts.
Context `{math.lib, random.source}.

Lemma bomb_explode_position (g : Game.obj) :
  position (Game.player (Game.bomb_explode g)) = position (Game.player g).
Proof.
  unfold Game.bomb_explode.
  destruct (sweep _ _ _) as [es [[score killed] n]]; simpl.
  destruct (0 <? killed)%Z; reflexivity.
Qed.

Lemma bomb_position (inp : Input) (g : Game.obj) :
  position (Game.player (Game.bomb inp g)) = position (Game.player g).
Proof.
  unfold Game.bomb. destruct (Game.bomb_ready inp g); [|reflexivity].
  rewrite bomb_explode_position. reflexivity.
Qed.

Lemma switch_position (inp : Input) (g : Game.obj) :
  position (Game.player (Game.switch inp g)) = position (Game.player g).
Proof.
  unfold Game.switch. destruct (keys inp K_q), (keys inp K_e); reflexivity.
Qed.

Lemma fire_position (inp : Input) (g : Game.obj) :
  position (Game.player (Game.fire inp g)) = position (Game.player g).
Proof.
  unfold Game.fire. branches; reflexivity.
Qed.

Lemma dash_ledger (inp : Input) (mv : Q * Q) (g : Game.obj) :
  ledger (Game.dash inp mv g) = ledger g.
Proof. unfold Game.dash. branches; reflexivity. Qed.

Lemma movement_ledger (dt : Q) (mv : Q * Q) (g : Game.obj) :
  ledger (Game.movement dt mv g) = ledger g.
Proof. reflexivity. Qed.

Lemma switch_ledger (inp : Input) (g : Game.obj) :
  ledger (Game.switch inp g) = ledger g.
Proof. unfold Game.switch. branches; reflexivity. Qed.

Lemma fire_ledger (inp : Input) (g : Game.obj) :
  ledger (Game.fire inp g) = ledger g.
Proof. unfold Game.fire. branches; reflexivity. Qed.

Lemma bomb_ready_ledger (inp : Input) (g g' : Game.obj) :
  ledger g' = ledger g -> Game.bomb_ready inp g' = Game.bomb_ready inp g.
Proof.
  unfold ledger, Game.bomb_ready. intros Hl.
  injection Hl as _ -> _ _ ->. reflexivity.
Qed.

(** The loop of [bomb_explode]: the enemies in reach go, each one adds 15
    to the score and one to [killed]. *)
Lemma bomb_step_eq (p : Player.obj) (e : Enemy.obj) (score killed : Z) (n : nat) :
  Game.bomb_step p e (score, killed, n) =
    if in_blast (position p) e
    then (None, ((score + 15)%Z, (killed + 1)%Z, ParticleSystem.emit_explosion 18 n))
    else (Some e, (score, killed, n)).
Proof. reflexivity. Qed.

Lemma bomb_sweep_spec (p : Player.obj) (es : list Enemy.obj) (score killed : Z) (n : nat) :
  let r := sweep (Game.bomb_step p) es (score, killed, n) in
  let k := Z.of_nat (length (List.filter (in_blast (position p)) es)) in
  fst r = List.filter (fun e => negb (in_blast (position p) e)) es
  /\ fst (fst (snd r)) = (score + 15 * k)%Z
  /\ snd (fst (snd r)) = (killed + k)%Z.
Proof.
  revert score killed n. induction es as [|e es IH]; intros score killed n.
  - simpl. repeat split; lia.
  - rewrite sweep_cons, bomb_step_eq. cbn [List.filter].
    destruct (in_blast (position p) e); cbn [fst snd negb length].
    + specialize (IH (score + 15)%Z (killed + 1)%Z (ParticleSystem.emit_explosion 18 n)).
      cbv zeta in IH. destruct IH as (-> & -> & ->). repeat split; lia.
    + specialize (IH score killed n).
      cbv zeta in IH. destruct IH as (-> & -> & ->). repeat split; lia.
Qed.

Lemma bomb_explode_ledger (g : Game.obj) :
  let c := position (Game.player g) in
  let k := Z.of_nat (length (List.filter (in_blast c) (Game.enemies g))) in
  ledger (Game.bomb_explode g) =
    (List.filter (fun e => negb (in_blast c e)) (Game.enemies g),
     Player.bombs (Game.player g),
     (Player.score (Game.player g) + 15 * k)%Z,
     (Player.coins (Game.player g) + 2 * k)%Z,
     Game.last_bomb g).
Proof.
  intros c k. unfold Game.bomb_explode.
  pose proof (bomb_sweep_spec (Game.player g) (Game.enemies g)
                (Player.score (Game.player g)) 0%Z (Game.rng g)) as Hs.
  cbv zeta in Hs. fold c k in Hs.
  destruct (sweep _ _ _) as [es [[score killed] n]]. simpl in Hs.
  destruct Hs as (-> & -> & ->). unfold ledger.
  assert (0 <= k)%Z by (unfold k; lia). clearbody k.
  rewrite Z.add_0_l. destruct (Z.ltb_spec 0 k); simpl.
  - rewrite (Z.mul_comm k 2). reflexivity.
  - replace k with 0%Z by lia. rewrite !Z.add_0_r. reflexivity.
Qed.

Lemma input_play_ledger (dt : Q) (inp : Input) (g : Game.obj) :
  let g' := Game.input_play dt inp g in
  let c := position (Game.player g') in
  let k := Z.of_nat (length (List.filter (in_blast c) (Game.enemies g))) in
  ledger g' =
    if Game.bomb_ready inp g then
      (List.filter (fun e => negb (in_blast c e)) (Game.enemies g),
       (Player.bombs (Game.player g) - 1)%Z,
       (Player.score (Game.player g) + 15 * k)%Z,
       (Player.coins (Game.player g) + 2 * k)%Z,
       Some (now inp))
    else ledger g.
Proof.
  intros g' c k. subst c k g'. unfold Game.input_play. cbv zeta.
  set (mv := Game.move_vector inp).
  set (g3 := Game.switch inp (Game.movement dt mv (Game.dash inp mv g))).
  assert (H3 : ledger g3 = ledger g).
  { unfold g3. rewrite switch_ledger, movement_ledger, dash_ledger. reflexivity. }
  rewrite fire_position, fire_ledger.
  unfold Game.bomb. rewrite (bomb_ready_ledger inp g g3 H3).
  destruct (Game.bomb_ready inp g); [|exact H3].
  rewrite bomb_explode_position, bomb_explode_ledger. cbn [Game.player Game.set_last_bomb
    Game.set_player Game.enemies Game.last_bomb Player.bombs Player.score Player.coins
    Player.set_bombs position Player.x Player.y].
  unfold ledger in H3. injection H3 as -> -> -> -> _. reflexivity.
Qed.

(** C7. The bomb of [input_play].  It goes off exactly when the key is
    down, a charge is left and more than half a second has passed since the
    last one.  Then it removes exactly the enemies within 180 units of the
    player (squared distance at most 180*180, measured from where the
    player stands after this tick's movement), each one adding 15 to the
    score and 2 to the coins, and the bomb count drops by exactly one.
    Otherwise enemies, bomb count, score and coins are as they were. *)
Theorem bomb_action (dt : Q) (inp : Input) (g : Game.obj) :
  let g' := Game.input_play dt inp g in
  let p := Game.player g in
  let p' := Game.player g' in
  let killed := Z.of_nat (length (List.filter (in_blast (position p')) (Game.enemies g))) in
  (Game.bomb_ready inp g = true <->
     (keys inp K_x = true \/ keys inp K_k = true)
     /\ (0 < Player.bombs p)%Z
     /\ 0.5 < now inp - default 0 (Game.last_bomb g))
  /\ if Game.bomb_ready inp g then
       Game.enemies g' =
         List.filter (fun e => negb (in_blast (position p') e)) (Game.enemies g)
       /\ Player.bombs p' = (Player.bombs p - 1)%Z
       /\ Player.score p' = (Player.score p + 15 * killed)%Z
       /\ Player.coins p' = (Player.coins p + 2 * killed)%Z
       /\ Game.last_bomb g' = Some (now inp)
     else
       Game.enemies g' = Game.enemies g
       /\ Player.bombs p' = Player.bombs p
       /\ Player.score p' = Player.score p
       /\ Player.coins p' = Player.coins p
       /\ Game.last_bomb g' = Game.last_bomb g.
Proof.
  intros g' p p' killed. split.
  - unfold Game.bomb_ready. fold p.
    rewrite !andb_true_iff, orb_true_iff, Z.ltb_lt, Qltb_lt. tauto.
  - pose proof (input_play_ledger dt inp g) as Hl. cbv zeta in Hl.
    fold g' in Hl. fold p' in Hl. fold killed in Hl. fold p in Hl.
    destruct (Game.bomb_ready inp g); unfold ledger in Hl; fold p p' in Hl;
      injection Hl as -> -> -> -> ->; repeat split; reflexivity.
Qed.

(** C9. After [input_play] the player stands inside
    [[20, WIDTH-20] x [20, HEIGHT-20]], whatever the keys, the joystick,
    the dash and the elapsed time were: both coordinates are clamped after
    the dash impulse and the movement, and nothing later in the function
    moves the player. *)
Theorem input_play_keeps_player_on_screen (dt : Q) (inp : Input) (g : Game.obj) :
  let p := Game.player (Game.input_play dt inp g) in
  20 <= Player.x p <= (WIDTH - 20)%Z /\ 20 <= Player.y p <= (HEIGHT - 20)%Z.
Proof.
  intros p.
  assert (Hp : position p =
               position (Game.player (Game.movement dt (Game.move_vector inp)
                                        (Game.dash inp (Game.move_vector inp) g)))).
  { unfold p, Game.input_play. rewrite fire_position, bomb_position, switch_position.
    reflexivity. }
  injection Hp as -> ->. unfold Game.movement; simpl.
  split; apply clamp_bounds; vm_compute; discriminate.
Qed.

(** ** Spawning *)

Lemma choices_kind (n : nat) :
  Enemy.is_boss
    (random.choices [(Enemy.chaser, 0.5); (Enemy.shooter, 0.25); (Enemy.zig, 0.25)]
       Enemy.chaser n) = false.
Proof. unfold random.choices, random.pick. branches; reflexivity. Qed.

Lemma randint_range (a b : Z) (n : nat) :
  (a <= b -> a <= random.randint a b n <= b)%Z.
Proof.
  intros Hab. unfold random.randint.
  pose proof (randbelow_range (b - a + 1) n ltac:(lia)). lia.
Qed.

(** [spawn_enemy_edge] appends one enemy of the asked level, standing at
    an edge, of the asked kind or of a kind that is not [boss]; besides
    the generator nothing else changes. *)
Lemma spawn_enemy_edge_spec (kind : option Enemy.Kind) (lvl : Z) (g : Game.obj) :
  exists (e : Enemy.obj) (n : nat),
    Game.spawn_enemy_edge kind lvl g = Game.set_rng n (Game.set_enemies (Game.enemies g ++ [e]) g)
    /\ Enemy.level e = lvl
    /\ at_edge e
    /\ match kind with
       | Some k => Enemy.kind e = k
       | None => Enemy.is_boss (Enemy.kind e) = false
       end.
Proof.
  unfold Game.spawn_enemy_edge.
  pose proof (randint_range 50 (WIDTH - 50) (S (Game.rng g)) ltac:(vm_compute; discriminate)) as Hx.
  pose proof (randint_range 50 (HEIGHT - 50) (S (Game.rng g)) ltac:(vm_compute; discriminate)) as Hy.
  set (x := random.randint 50 (WIDTH - 50) (S (Game.rng g))) in *.
  set (y := random.randint 50 (HEIGHT - 50) (S (Game.rng g))) in *.
  destruct (random.choice _ _ _); destruct kind as [k|]; cbv zeta iota beta.
  all: eexists; eexists; split; [reflexivity|]; split; [reflexivity|].
  all: split; [|first [reflexivity | apply choices_kind]].
  all: unfold at_edge; cbn [Enemy.init Enemy.x Enemy.y].
  all: eexists; eexists; split; [reflexivity|]; split; [reflexivity|]; tauto.
Qed.

Lemma spawn_iter_spec (lvl : Z) (k : nat) (g : Game.obj) :
  exists (base : list Enemy.obj) (n : nat),
    Nat.iter k (Game.spawn_enemy_edge None lvl) g
      = Game.set_rng n (Game.set_enemies (Game.enemies g ++ base) g)
    /\ length base = k
    /\ Forall (fun e => Enemy.level e = lvl
                        /\ Enemy.is_boss (Enemy.kind e) = false
                        /\ at_edge e) base.
Proof.
  induction k as [|k IH].
  - exists [], (Game.rng g). rewrite app_nil_r. destruct g; repeat split; constructor.
  - destruct IH as (base & n & Hg & Hlen & Hall). rewrite Nat.iter_succ, Hg.
    destruct (spawn_enemy_edge_spec None lvl
                (Game.set_rng n (Game.set_enemies (Game.enemies g ++ base) g)))
      as (e & n' & -> & Hlvl & Hedge & Hkind).
    exists (base ++ [e]), n'. cbn. rewrite <- app_assoc. split; [reflexivity|].
    split; [rewrite length_app; simpl; lia|].
    apply Forall_app. split; [exact Hall|]. constructor; [tauto | constructor].
Qed.

(** [spawn_wave], for the wave [N = wave + 1] it generates. *)
Lemma spawn_wave_spec (g : Game.obj) :
  let N := (Game.wave g + 1)%Z in
  exists (base extra : list Enemy.obj) (n : nat),
    Game.spawn_wave g
      = Game.set_rng n
          (Game.set_enemies (Game.enemies g ++ base ++ extra)
             (Game.set_difficulty (1 + N * 0.12) (Game.set_wave N g)))
    /\ length base = Z.to_nat (Z.min (4 + N * 2) 40)
    /\ Forall (fun e => Enemy.level e = (1 + N / 3)%Z
                        /\ Enemy.is_boss (Enemy.kind e) = false
                        /\ at_edge e) base
    /\ if (N mod 5 =? 0)%Z
       then exists b, extra = [b] /\ Enemy.kind b = Enemy.boss
                      /\ Enemy.level b = (3 + N / 5)%Z
       else extra = [].
Proof.
  intros N. unfold Game.spawn_wave. cbv zeta.
  cbn [Game.wave Game.set_wave Game.set_difficulty]. fold N.
  match goal with
  | |- context [Nat.iter ?k (Game.spawn_enemy_edge None ?lvl) ?g0] =>
      destruct (spawn_iter_spec lvl k g0) as (base & n & -> & Hlen & Hall)
  end.
  cbn [Game.wave Game.set_rng Game.set_enemies Game.enemies Game.rng Game.set_wave
       Game.set_difficulty].
  destruct (N mod 5 =? 0)%Z.
  - eexists base, [_], _. rewrite <- app_assoc.
    split; [reflexivity|]. split; [exact Hlen|]. split; [exact Hall|].
    eexists; repeat split; reflexivity.
  - exists base, [], n. rewrite app_nil_r.
    split; [reflexivity|]. split; [exact Hlen|]. split; [exact Hall | reflexivity].
Qed.

(** C4. When the interlude timer runs out, [update_wave_and_spawning]
    makes the phase active and generates wave [N = wave + 1]: the wave
    counter becomes [N], the difficulty [1 + N*0.12]; exactly
    [min(4 + 2N, 40)] enemies are appended, each of level [1 + N/3] (floor
    division), of a kind that is not boss, standing at a screen edge; and
    one boss of level [3 + N/5] follows them exactly when [N mod 5 = 0]. *)
Theorem wave_generation (dt : Q) (inp : Input) (g : Game.obj) :
  Game.wave_state g = Game.interlude ->
  Game.interlude_time g - dt <= 0 ->
  (0 <= Game.wave g)%Z ->
  let g' := Game.update_wave_and_spawning dt inp g in
  let N := (Game.wave g + 1)%Z in
  exists base extra : list Enemy.obj,
    Game.enemies g' = Game.enemies g ++ base ++ extra
    /\ Game.wave g' = N
    /\ Game.wave_state g' = Game.active
    /\ Game.difficulty g' == 1 + N * 0.12
    /\ Z.of_nat (length base) = Z.min (4 + 2 * N) 40
    /\ Forall (fun e => Enemy.level e = (1 + N / 3)%Z
                        /\ Enemy.is_boss (Enemy.kind e) = false
                        /\ at_edge e) base
    /\ if (N mod 5 =? 0)%Z
       then exists b, extra = [b] /\ Enemy.kind b = Enemy.boss
                      /\ Enemy.level b = (3 + N / 5)%Z
       else extra = [].
Proof.
  intros Hphase Htime Hwave g' N. subst g'.
  unfold Game.update_wave_and_spawning. rewrite Hphase. cbv zeta.
  cbn [Game.interlude_time Game.set_interlude_time].
  apply Qle_bool_iff in Htime. rewrite Htime.
  destruct (spawn_wave_spec
              (Game.set_wave_state Game.active
                 (Game.set_interlude_time (Game.interlude_time g - dt) g)))
    as (base & extra & n & -> & Hlen & Hall & Hextra).
  cbn in Hlen, Hall, Hextra |- *. fold N in Hlen, Hall, Hextra |- *.
  exists base, extra. repeat split; try reflexivity; try assumption.
  rewrite Hlen. subst N. lia.
Qed.

(** C6. The scheduler's countdown.  A run starts in the interlude with 4
    time-units on the timer and wave 0.  In the active phase, a tick that
    finds no enemy alive puts the phase back to interlude with the timer at
    exactly 6 (and this is the only way back: with an enemy alive the phase
    stays active).  In the interlude the timer runs down by [dt] and
    nothing spawns, until it reaches 0: then the phase turns active and
    the wave counter goes up by one. *)
Theorem interlude_countdown (dt : Q) (inp : Input) (g : Game.obj) :
  let g0 := Game.reset_run g in
  let g' := Game.update_wave_and_spawning dt inp g in
  (Game.wave_state g0 = Game.interlude /\ Game.interlude_time g0 == 4 /\ Game.wave g0 = 0%Z)
  /\ (Game.wave_state g = Game.active -> Game.enemies g = [] ->
        Game.wave_state g' = Game.interlude /\ Game.interlude_time g' == 6)
  /\ (Game.wave_state g = Game.active -> Game.enemies g <> [] ->
        Game.wave_state g' = Game.active)
  /\ (Game.wave_state g = Game.interlude -> 0 < Game.interlude_time g - dt ->
        Game.wave_state g' = Game.interlude
        /\ Game.interlude_time g' == Game.interlude_time g - dt
        /\ Game.wave g' = Game.wave g /\ Game.enemies g' = Game.enemies g)
  /\ (Game.wave_state g = Game.interlude -> Game.interlude_time g - dt <= 0 ->
        Game.wave_state g' = Game.active /\ Game.wave g' = (Game.wave g + 1)%Z).
Proof.
  intros g0 g'. split; [repeat split; reflexivity|].
  assert (Hactive : Game.wave_state g = Game.active ->
            Game.wave_state g' = match Game.enemies g with
                                 | [] => Game.interlude
                                 | _ :: _ => Game.active
                                 end
            /\ (Game.enemies g = [] -> Game.interlude_time g' == 6)).
  { intros Hphase. subst g'. unfold Game.update_wave_and_spawning. rewrite Hphase.
    cbv zeta.
    match goal with
    | |- context [Game.spawn_enemy_edge None ?lvl ?gs] =>
        destruct (spawn_enemy_edge_spec None lvl gs) as (e & n & -> & _)
    end.
    destruct (Game.enemies g); branches; cbn; rewrite ?Hphase;
      (split; [reflexivity | intros; first [reflexivity | discriminate]]). }
  split; [|split].
  - intros Hphase Hempty. destruct (Hactive Hphase) as [Hs Ht].
    rewrite Hempty in Hs. split; [exact Hs | exact (Ht Hempty)].
  - intros Hphase Hsome. destruct (Hactive Hphase) as [Hs _].
    destruct (Game.enemies g); [congruence | exact Hs].
  - split; intros Hphase Htime; subst g'; unfold Game.update_wave_and_spawning;
      rewrite Hphase; cbv zeta; cbn [Game.interlude_time Game.set_interlude_time].
    + apply Qleb_gt in Htime. rewrite Htime. cbn. rewrite Hphase.
      repeat split; reflexivity.
    + apply Qle_bool_iff in Htime. rewrite Htime.
      match goal with
      | |- context [Game.spawn_wave ?gs] =>
          destruct (spawn_wave_spec gs) as (base & extra & n & -> & _)
      end.
      split; reflexivity.
Qed.

(** ** The shop *)

Lemma lookup_In {A : Type} (l : list A) (i : nat) (a : A) : l !! i = Some a -> In a l.
Proof.
  revert i. induction l as [|b l IH]; intros [|i] Hl; try discriminate.
  - injection Hl as ->. left; reflexivity.
  - right. exact (IH i Hl).
Qed.

Lemma getitem_In {A : Type} (l : list A) (i : Z) (a : A) : getitem l i = Some a -> In a l.
Proof.
  unfold getitem. destruct (0 <=? i)%Z; [apply lookup_In|].
  destruct (_ <=? i)%Z; [apply lookup_In | discriminate].
Qed.

(** C5. [K_RETURN] in the shop, on a line [(label, key, cost)] of the
    menu.  With fewer coins than the cost the whole game state is left as
    it was.  Otherwise the cost is taken from the coins and the option is
    applied: a permanent upgrade (hp, speed, damage) raises its level by
    one both in the persisted upgrades and in the player's own, and [hp]
    also raises [maxhp] by 20 and refills the hp; [bomb] adds a bomb;
    [heal] restores 40 hp up to [maxhp]. *)
Theorem shop_purchase_atomic (sel : Z) (label key : string) (cost : Z) (g : Game.obj) :
  getitem Game.opts sel = Some (label, key, cost) ->
  let p := Game.player g in
  let g' := Game.buy sel g in
  let p' := Game.player g' in
  if (Player.coins p <? cost)%Z then g' = g
  else
    Player.coins p' = (Player.coins p - cost)%Z
    /\ (if permanent key then
          Game.persist_upgrades g'
            = <[key := (get0 (Game.persist_upgrades g) key + 1)%Z]> (Game.persist_upgrades g)
          /\ Player.upgrades p'
            = <[key := (get0 (Player.upgrades p) key + 1)%Z]> (Player.upgrades p)
        else
          Game.persist_upgrades g' = Game.persist_upgrades g
          /\ Player.upgrades p' = Player.upgrades p)
    /\ Player.maxhp p' = (if (key =? "hp")%string then Player.maxhp p + 20 else Player.maxhp p)%Z
    /\ Player.hp p' = (if (key =? "hp")%string then Player.maxhp p + 20
                       else if (key =? "heal")%string
                            then Z.min (Player.maxhp p) (Player.hp p + 40)
                            else Player.hp p)%Z
    /\ Player.bombs p' = (if (key =? "bomb")%string then Player.bombs p + 1
                          else Player.bombs p)%Z.
Proof.
  intros Hsel p g' p'. subst g' p'. unfold Game.buy. rewrite Hsel. fold p.
  rewrite Z.geb_leb, (Z.ltb_antisym cost (Player.coins p)).
  destruct (cost <=? Player.coins p)%Z; cbn [negb]; [|reflexivity].
  apply getitem_In in Hsel. cbn in Hsel.
  destruct Hsel as [E|[E|[E|[E|[E|[]]]]]]; injection E as _ <- _; cbn;
    repeat split; reflexivity.
Qed.

(** ** The passes of [update_physics] *)

Lemma set_hp_same (p : Player.obj) : Player.set_hp (Player.hp p) p = p.
Proof. destruct p; reflexivity. Qed.

Lemma omap_filter_not {A : Type} (b : A -> bool) (xs : list A) :
  omap (fun e => if b e then None else Some e) xs = List.filter (fun e => negb (b e)) xs.
Proof.
  induction xs as [|e xs IH]; [reflexivity|].
  cbn. rewrite IH. destruct (b e); reflexivity.
Qed.

Lemma contact_inv_touches (g0 g : Game.obj) (e : Enemy.obj) :
  contact_inv g0 g -> touches (Game.player g) e = touches (Game.player g0) e.
Proof. intros [(h & _ & ->) _]. reflexivity. Qed.

Lemma contact_step_inv (g0 : Game.obj) (e : Enemy.obj) (g : Game.obj) :
  contact_inv g0 g ->
  fst (Game.contact_step e g) = (if touches (Game.player g0) e then None else Some e)
  /\ contact_inv g0 (snd (Game.contact_step e g)).
Proof.
  intros HI. rewrite <- (contact_inv_touches g0 g e HI).
  unfold Game.contact_step. fold (touches (Game.player g) e).
  destruct (touches (Game.player g) e); [|split; [reflexivity | exact HI]].
  split; [reflexivity|]. destruct HI as ((h & Hh & Hp) & Hu & Hb).
  destruct (Player.shield (Game.player g) <=? 0); cbn; (split; [|split; assumption]).
  - exists (h - 18)%Z. split; [lia|]. rewrite Hp. reflexivity.
  - exists h. split; assumption.
Qed.

Lemma contact_pass_spec (g : Game.obj) :
  Game.enemies (Game.contact_pass g)
    = List.filter (fun e => negb (touches (Game.player g) e)) (Game.enemies g)
  /\ contact_inv g (Game.contact_pass g).
Proof.
  assert (Hstart : contact_inv g g).
  { split; [|split; reflexivity]. exists (Player.hp (Game.player g)).
    split; [lia | symmetry; apply set_hp_same]. }
  pose proof (sweep_omap Game.contact_step (contact_inv g) _
                (fun e s HI => contact_step_inv g e s HI) (Game.enemies g) g Hstart) as Hk.
  pose proof (sweep_invariant Game.contact_step (fun _ => True) (contact_inv g)
                (fun e s _ HI => proj2 (contact_step_inv g e s HI)) (Game.enemies g) g) as Hi.
  unfold Game.contact_pass. destruct (sweep _ _ _) as [es g1]. cbn [fst snd] in *.
  split.
  - cbn. rewrite Hk. apply omap_filter_not.
  - specialize (Hi ltac:(apply List.Forall_forall; intros; exact I) Hstart).
    destruct Hi as (Hp & Hu & Hb). repeat split; assumption.
Qed.

(** C10. The contact loop of [update_physics] removes exactly the enemies
    that touch the player, and pays nothing for them: the player's score
    and coins and the list of power-ups come out of it unchanged. *)
Theorem contact_kills_pay_nothing (g : Game.obj) :
  let g' := Game.contact_pass g in
  Game.enemies g' = List.filter (fun e => negb (touches (Game.player g) e)) (Game.enemies g)
  /\ Player.score (Game.player g') = Player.score (Game.player g)
  /\ Player.coins (Game.player g') = Player.coins (Game.player g)
  /\ Game.powerups g' = Game.powerups g.
Proof.
  intros g'. destruct (contact_pass_spec g) as (He & (h & _ & Hp) & Hu & _).
  fold g' in He, Hp, Hu. rewrite Hp. repeat split; assumption.
Qed.

(** One turn of the "update enemies" loop. *)
Lemma enemy_step_spec (dt : Q) (e : Enemy.obj) (g : Game.obj) :
  let e' := fst (Enemy.update dt (Game.player g) (Game.bullets g) e) in
  let r := Game.enemy_step dt e g in
  fst r = (if dead e then None else Some e')
  /\ Game.player (snd r)
     = (if dead e
        then Player.set_coins (Player.coins (Game.player g) + reward_coins e)%Z
               (Player.set_score (Player.score (Game.player g) + reward_score e)%Z
                  (Game.player g))
        else Game.player g)
  /\ (exists drops, Game.powerups (snd r) = Game.powerups g ++ drops
                    /\ (length drops <= if dead e then 1 else 0)%nat
                    /\ Forall (fun u => PowerUp.x u = Enemy.x e' /\ PowerUp.y u = Enemy.y e')
                         drops)
  /\ (exists new, Game.bullets (snd r) = Game.bullets g ++ new /\ Forall harmful new).
Proof.
  intros e' r. subst r. unfold Game.enemy_step.
  destruct (update_enemy_hp dt (Game.player g) (Game.bullets g) e) as (Hhp & Hlvl & _).
  destruct (update_enemy_bullets dt (Game.player g) (Game.bullets g) e) as (new & Hnew & Hharm).
  fold e' in Hhp, Hlvl. subst e'.
  destruct (Enemy.update dt (Game.player g) (Game.bullets g) e) as [e' bs].
  cbn [fst snd] in *. subst bs.
  unfold dead, reward_coins, reward_score. rewrite <- Hhp, <- Hlvl.
  destruct (Enemy.hp e' <=? 0).
  - cbn [fst snd]. split; [reflexivity|].
    destruct (random.random _ <? 0.18); cbn.
    + split; [reflexivity|]. split; [|exists new; split; [reflexivity | assumption]].
      eexists; split; [reflexivity|]. split; [simpl; lia|].
      constructor; [split; reflexivity | constructor].
    + split; [reflexivity|]. split; [|exists new; split; [reflexivity | assumption]].
      exists []. rewrite app_nil_r. split; [reflexivity|]. split; [simpl; lia | constructor].
  - cbn. split; [reflexivity|]. split; [reflexivity|].
    split; [|exists new; split; [reflexivity | assumption]].
    exists []. rewrite app_nil_r. split; [reflexivity|]. split; [simpl; lia | constructor].
Qed.

(** The power-up list after one turn of the loop, at any state [g] of it:
    a dead enemy leaves one power-up where it stands after its move when
    the draw that follows its explosion is below 0.18, and nothing
    otherwise. *)
Lemma enemy_step_drop (dt : Q) (e : Enemy.obj) (g : Game.obj) :
  let e' := fst (Enemy.update dt (Game.player g) (Game.bullets g) e) in
  let n := ParticleSystem.emit_explosion 14 (Game.rng g) in
  Game.powerups (snd (Game.enemy_step dt e g))
  = Game.powerups g ++
      (if dead e && (random.random n <? 0.18)
       then [ {| PowerUp.x := Enemy.x e'; PowerUp.y := Enemy.y e';
                 PowerUp.type := random.choice PowerUp.kinds PowerUp.coin (S n);
                 PowerUp.t := 0 |} ]
       else []).
Proof.
  cbv zeta. unfold Game.enemy_step.
  destruct (update_enemy_hp dt (Game.player g) (Game.bullets g) e) as (Hhp & _).
  destruct (Enemy.update dt (Game.player g) (Game.bullets g) e) as [e' bs].
  cbn [fst] in *. unfold dead. rewrite <- Hhp.
  destruct (Enemy.hp e' <=? 0); cbn [andb].
  - cbn [Game.rng Game.set_rng Game.set_bullets Game.set_player].
    destruct (random.random _ <? 0.18); cbn; [reflexivity | rewrite app_nil_r; reflexivity].
  - cbn. rewrite app_nil_r. reflexivity.
Qed.

(** Where the power-ups of the whole loop lie: each one where a dead enemy
    stands after its move. *)
Lemma enemy_sweep_drops (dt : Q) (p0 : Player.obj) (es : list Enemy.obj) :
  forall g : Game.obj,
  position (Game.player g) = position p0 ->
  exists drops,
    Game.powerups (snd (sweep (Game.enemy_step dt) es g)) = Game.powerups g ++ drops
    /\ (length drops <= length (List.filter dead es))%nat
    /\ Forall (fun u => exists e, In e (List.filter dead es)
                                  /\ dropped_by (fst (Enemy.update dt p0 [] e)) u) drops.
Proof.
  induction es as [|e es IH]; intros g Hpos.
  - exists []. cbn. rewrite app_nil_r. repeat split; [lia | constructor].
  - rewrite sweep_cons. cbn [fst snd List.filter].
    pose proof (enemy_step_drop dt e g) as Hd. cbv zeta in Hd.
    destruct (enemy_step_spec dt e g) as (_ & Hp & _).
    set (g1 := snd (Game.enemy_step dt e g)) in *.
    assert (Hpos1 : position (Game.player g1) = position p0).
    { rewrite Hp. destruct (dead e); [|exact Hpos]. rewrite <- Hpos. reflexivity. }
    destruct (IH g1 Hpos1) as (d2 & Hd2 & Hl2 & Hat2).
    rewrite (update_enemy_position_only dt (Game.player g) p0 (Game.bullets g) [] e Hpos)
      in Hd.
    rewrite Hd2, Hd, <- app_assoc.
    eexists. split; [reflexivity|].
    destruct (dead e); cbn [andb].
    + split.
      * destruct (random.random _ <? 0.18); rewrite length_app; cbn [length]; lia.
      * apply Forall_app. split.
        -- destruct (random.random _ <? 0.18); [|constructor].
           constructor; [|constructor]. exists e. split; [left; reflexivity|].
           repeat split.
        -- eapply Forall_impl; [exact Hat2|]. intros u (e0 & Hin & Hat).
           exists e0. split; [right; exact Hin | exact Hat].
    + cbn [app]. split; [exact Hl2 | exact Hat2].
Qed.

(** A bomb leaves the power-ups alone. *)
Lemma bomb_explode_powerups (g : Game.obj) :
  Game.powerups (Game.bomb_explode g) = Game.powerups g.
Proof.
  unfold Game.bomb_explode. destruct (sweep _ _ _) as [es [[score killed] n]].
  branches; reflexivity.
Qed.

(** The whole loop, from any state in which the player stands where [p0]
    stands. *)
Lemma enemy_sweep_spec (dt : Q) (p0 : Player.obj) (es : list Enemy.obj) :
  forall g : Game.obj,
  position (Game.player g) = position p0 ->
  let r := sweep (Game.enemy_step dt) es g in
  let gone := List.filter dead es in
  fst r = map (fun e => fst (Enemy.update dt p0 [] e))
              (List.filter (fun e => negb (dead e)) es)
  /\ position (Game.player (snd r)) = position p0
  /\ Player.score (Game.player (snd r))
     = (Player.score (Game.player g) + sumZ reward_score gone)%Z
  /\ Player.coins (Game.player (snd r))
     = (Player.coins (Game.player g) + sumZ reward_coins gone)%Z
  /\ Player.hp (Game.player (snd r)) = Player.hp (Game.player g)
  /\ Player.maxhp (Game.player (snd r)) = Player.maxhp (Game.player g)
  /\ (exists drops, Game.powerups (snd r) = Game.powerups g ++ drops
                    /\ (length drops <= length gone)%nat)
  /\ (exists new, Game.bullets (snd r) = Game.bullets g ++ new /\ Forall harmful new).
Proof.
  induction es as [|e es IH]; intros g Hpos; cbv zeta.
  - cbn. rewrite !Z.add_0_r. repeat split; try assumption.
    + exists []. rewrite app_nil_r. split; [reflexivity | simpl; lia].
    + exists []. rewrite app_nil_r. split; [reflexivity | constructor].
  - rewrite sweep_cons. cbn [fst snd List.filter].
    destruct (enemy_step_spec dt e g) as (Hk & Hp & (d1 & Hd1 & Hl1 & _) & (n1 & Hn1 & Hh1)).
    set (g1 := snd (Game.enemy_step dt e g)) in *.
    assert (Hpos1 : position (Game.player g1) = position p0).
    { rewrite Hp. destruct (dead e); [|exact Hpos]. rewrite <- Hpos. reflexivity. }
    specialize (IH g1 Hpos1). cbv zeta in IH.
    destruct IH as (IHk & IHpos & IHs & IHc & IHhp & IHm & (d2 & Hd2 & Hl2) & (n2 & Hn2 & Hh2)).
    rewrite Hk, IHk, IHs, IHc, IHhp, IHm, Hp.
    split; [|split; [exact IHpos|]].
    { destruct (dead e); cbn [negb map]; [reflexivity|]. f_equal.
      apply update_enemy_position_only, Hpos. }
    destruct (dead e); cbn [sumZ fold_right length Player.score Player.coins Player.hp
      Player.maxhp Player.set_coins Player.set_score].
    all: repeat split; try lia.
    all: try (exists (d1 ++ d2); rewrite Hd2, Hd1, <- app_assoc; split;
              [reflexivity | rewrite length_app; lia]).
    all: try (exists (n1 ++ n2); rewrite Hn2, Hn1, <- app_assoc; split;
              [reflexivity | apply Forall_app; split; assumption]).
  all: unfold sumZ; lia.
Qed.

(** C3, as the code has it.  The "update enemies" loop runs in every
    [update_physics], after the timers and before the collision passes of
    that tick.  It removes exactly the enemies whose hp is at most 0, so
    every enemy has a positive hp when the bullet pass starts.  Each enemy
    it removes pays once, [10 + level*3] to the score and [1 + level/2]
    (floor division) to the coins, and leaves at most one power-up, where
    the enemy stands after its move of this tick: one call of the
    generator decides the drop, with threshold 0.18.  An enemy that the
    contact loop removes pays nothing, whatever its hp, and one that a
    bomb removes pays a flat 15 and 2 and drops nothing. *)
Theorem dead_enemies_pay_once (dt : Q) (g : Game.obj) :
  let g2 := Game.enemy_pass dt (Game.advance dt g) in
  let gone := List.filter dead (Game.enemies g) in
  let moved e := fst (Enemy.update dt (Game.player g) [] e) in
  Game.update_physics dt g
    = Game.contact_pass (Game.laser_pass dt (Game.bullet_pass g2))
  /\ Game.enemies g2
     = map moved (List.filter (fun e => negb (dead e)) (Game.enemies g))
  /\ Forall (fun e => 0 < Enemy.hp e) (Game.enemies g2)
  /\ Player.score (Game.player g2)
     = (Player.score (Game.player g) + sumZ reward_score gone)%Z
  /\ Player.coins (Game.player g2)
     = (Player.coins (Game.player g) + sumZ reward_coins gone)%Z
  /\ (exists drops, Game.powerups g2 = Game.powerups g ++ drops
                    /\ (length drops <= length gone)%nat
                    /\ Forall (fun u => exists e, In e gone /\ dropped_by (moved e) u) drops)
  /\ (forall (e : Enemy.obj) (s : Game.obj), dead e = true ->
        let e' := fst (Enemy.update dt (Game.player s) (Game.bullets s) e) in
        let n := ParticleSystem.emit_explosion 14 (Game.rng s) in
        Game.powerups (snd (Game.enemy_step dt e s))
        = Game.powerups s ++
            (if random.random n <? 0.18
             then [ {| PowerUp.x := Enemy.x e'; PowerUp.y := Enemy.y e';
                       PowerUp.type := random.choice PowerUp.kinds PowerUp.coin (S n);
                       PowerUp.t := 0 |} ]
             else []))
  /\ (forall s : Game.obj,
        (Player.score (Game.player (Game.contact_pass s)),
         Player.coins (Game.player (Game.contact_pass s)),
         Game.powerups (Game.contact_pass s))
        = (Player.score (Game.player s), Player.coins (Game.player s), Game.powerups s))
  /\ (forall s : Game.obj,
        let k := Z.of_nat (length (List.filter (in_blast (position (Game.player s)))
                                     (Game.enemies s))) in
        Player.score (Game.player (Game.bomb_explode s))
        = (Player.score (Game.player s) + 15 * k)%Z
        /\ Player.coins (Game.player (Game.bomb_explode s))
           = (Player.coins (Game.player s) + 2 * k)%Z
        /\ Game.powerups (Game.bomb_explode s) = Game.powerups s).
Proof.
  cbv zeta. split; [reflexivity|].
  assert (Hpos : position (Game.player (Game.advance dt g)) = position (Game.player g))
    by reflexivity.
  assert (Hen : Game.enemies (Game.advance dt g) = Game.enemies g) by reflexivity.
  assert (Hpu : Game.powerups (Game.advance dt g) = Game.powerups g) by reflexivity.
  assert (Hsc : Player.score (Game.player (Game.advance dt g)) = Player.score (Game.player g))
    by reflexivity.
  assert (Hco : Player.coins (Game.player (Game.advance dt g)) = Player.coins (Game.player g))
    by reflexivity.
  set (g1 := Game.advance dt g) in *. clearbody g1.
  unfold Game.enemy_pass.
  pose proof (enemy_sweep_spec dt (Game.player g) (Game.enemies g1) g1 Hpos) as Hs.
  pose proof (enemy_sweep_drops dt (Game.player g) (Game.enemies g1) g1 Hpos) as Hd.
  cbv zeta in Hs.
  destruct (sweep (Game.enemy_step dt) (Game.enemies g1) g1) as [es g3].
  cbn [fst snd] in Hs, Hd. rewrite Hen, ?Hpu, ?Hsc, ?Hco in Hs. rewrite Hen, Hpu in Hd.
  destruct Hs as (-> & _ & Hscore & Hcoins & _).
  cbn [Game.enemies Game.player Game.powerups Game.set_enemies].
  split; [reflexivity|]. split.
  { apply List.Forall_forall. intros e' He'.
    apply in_map_iff in He' as (e & <- & He). apply filter_In in He as [_ He].
    destruct (update_enemy_hp dt (Game.player g) [] e) as (-> & _).
    unfold dead in He. apply negb_true_iff, Qleb_gt in He. exact He. }
  split; [exact Hscore|]. split; [exact Hcoins|]. split; [exact Hd|]. split.
  { intros e s He. pose proof (enemy_step_drop dt e s) as Hstep. cbv zeta in Hstep.
    rewrite He in Hstep. exact Hstep. }
  split.
  { intros s. destruct (contact_pass_spec s) as (_ & (h & _ & Hp) & Hu & _).
    rewrite Hp, Hu. reflexivity. }
  intros s. pose proof (bomb_explode_ledger s) as Hl. cbv zeta in Hl.
  unfold ledger in Hl. injection Hl as _ _ Hs15 Hc2 _.
  split; [exact Hs15|]. split; [exact Hc2 | apply bomb_explode_powerups].
Qed.

(** ** Lasers *)

(** The test of the source is the test of the statement. *)
Lemma laser_hits_near_line (l : LaserBeam.obj) (e : Enemy.obj) :
  Game.laser_hits l e = near_line l e.
Proof.
  unfold Game.laser_hits, near_line, cross, beam_span. cbv zeta. cbn [fst snd].
  match goal with
  | |- (Qabs ?a / ?d <=? ?b) = (Qabs ?a' / ?d <=? ?b) =>
      assert (Ha : a == a') by ring
  end.
  apply eq_true_iff_eq. rewrite !Qle_bool_iff. rewrite Ha. reflexivity.
Qed.

Lemma laser_damage_eq (dt : Q) (l : LaserBeam.obj) (e : Enemy.obj) :
  Game.laser_damage dt l e
  = if near_line l e then Enemy.set_hp (Enemy.hp e - LaserBeam.dmg l * dt * 8) e else e.
Proof. unfold Game.laser_damage. rewrite laser_hits_near_line. reflexivity. Qed.

(** The test looks at the place and the radius of the enemy, not at its
    hp, and at the origin and direction of the beam, not at its age. *)
Lemma near_line_hp (l : LaserBeam.obj) (h : Q) (e : Enemy.obj) :
  near_line l (Enemy.set_hp h e) = near_line l e.
Proof. reflexivity. Qed.

Lemma beam_damage_aged (dt dt' : Q) (ls : list LaserBeam.obj) (e : Enemy.obj) :
  beam_damage dt (map (LaserBeam.update dt') ls) e = beam_damage dt ls e.
Proof.
  unfold beam_damage. induction ls as [|l ls IH]; [reflexivity|].
  cbn [map fold_right]. rewrite IH. reflexivity.
Qed.

(** One beam after the other, each enemy loses the damage of the beams
    whose line it is near; nothing else of the enemy changes. *)
Lemma laser_fold_spec (dt : Q) (ls : list LaserBeam.obj) :
  forall es : list Enemy.obj,
  Forall2 (fun e e' => e' = Enemy.set_hp (Enemy.hp e') e
                       /\ Enemy.hp e' == Enemy.hp e - beam_damage dt ls e)
          es (fold_left (fun es l => map (Game.laser_damage dt l) es) ls es).
Proof.
  induction ls as [|l ls IH]; intros es.
  - cbn. induction es as [|e es IHes]; constructor; [|exact IHes].
    split; [destruct e; reflexivity | cbn; ring].
  - cbn [fold_left]. specialize (IH (map (Game.laser_damage dt l) es)).
    remember (fold_left _ ls _) as out eqn:Hout. clear Hout.
    revert out IH. induction es as [|e es IHes]; intros out IH;
      inversion IH as [|e1 e' es1 out' [He Hhp] Hrest]; subst; constructor.
    + assert (Hsame : forall l', near_line l' (Game.laser_damage dt l e) = near_line l' e).
      { intros l'. rewrite laser_damage_eq. destruct (near_line l e); reflexivity. }
      assert (Htot : beam_damage dt ls (Game.laser_damage dt l e) = beam_damage dt ls e).
      { clear -Hsame. unfold beam_damage. induction ls as [|l' ls IHls]; [reflexivity|].
        cbn [fold_right]. rewrite Hsame, IHls. reflexivity. }
      split.
      * rewrite He. rewrite laser_damage_eq.
        destruct (near_line l e); destruct e; reflexivity.
      * rewrite Hhp, Htot. unfold beam_damage. cbn [fold_right].
        rewrite laser_damage_eq. destruct (near_line l e); cbn; ring.
    + apply IHes. exact Hrest.
Qed.

(** The enemy and bullet loops leave the beams alone, so the beams of the
    laser pass are those [advance] kept: the ones alive when the tick
    began, each [dt] older. *)
Lemma lasers_of_the_laser_pass (dt : Q) (g : Game.obj) :
  Game.lasers (Game.bullet_pass (Game.enemy_pass dt (Game.advance dt g)))
  = map (LaserBeam.update dt) (List.filter LaserBeam.alive (Game.lasers g)).
Proof.
  assert (Hadv : Game.lasers (Game.advance dt g)
                 = map (LaserBeam.update dt) (List.filter LaserBeam.alive (Game.lasers g)))
    by reflexivity.
  revert Hadv. generalize (map (LaserBeam.update dt) (List.filter LaserBeam.alive (Game.lasers g))).
  generalize (Game.advance dt g). clear g. intros g ls Hls.
  assert (Hen : Game.lasers (Game.enemy_pass dt g) = ls).
  { unfold Game.enemy_pass.
    pose proof (sweep_invariant (Game.enemy_step dt) (fun _ => True)
                  (fun s => Game.lasers s = ls)) as Hs.
    specialize (Hs ltac:(
      intros e s _ Hl; unfold Game.enemy_step;
      destruct (Enemy.update dt (Game.player s) (Game.bullets s) e) as [e' bs];
      unfold Game.drop_powerup; cbv zeta; branches; exact Hl)).
    specialize (Hs (Game.enemies g) g ltac:(apply List.Forall_forall; intros; exact I) Hls).
    destruct (sweep _ _ _) as [es g1]. exact Hs. }
  revert Hen. generalize (Game.enemy_pass dt g). clear g Hls. intros g Hls.
  unfold Game.bullet_pass.
  pose proof (sweep_invariant Game.bullet_step (fun _ => True)
                (fun s => Game.lasers s = ls)) as Hs.
  specialize (Hs ltac:(
    intros b s _ Hl; unfold Game.bullet_step;
    destruct (Bullet.owner b); [destruct (Game.hit_first b (Game.enemies s))|];
    cbv zeta; branches; exact Hl)).
  specialize (Hs (Game.bullets g) g ltac:(apply List.Forall_forall; intros; exact I) Hls).
  destruct (sweep _ _ _) as [bs g1]. exact Hs.
Qed.

(** C2, as the code has it.  In every [update_physics] the "lasers
    damage" pass comes after the bullet pass, and its beams are those that
    were alive ([t < life]) when the tick began.  Every enemy then in the
    list keeps everything but its hp and loses [l.dmg * dt * 8] for each
    such beam [l] whose line it is near, and nothing for the others.  Near
    the line means [|cross| / (hypot + 1e-6) <= e.r + 4], with [cross] the
    cross product of the beam (2000 times its direction) and the enemy's
    offset from the origin: this is what the source computes, and it
    measures the distance to the whole line, so an enemy moved any amount
    along the beam, forward or backward past the origin, passes or fails
    exactly as before. *)
Theorem laser_damage_along_line (dt : Q) (g : Game.obj) (l : LaserBeam.obj)
    (e : Enemy.obj) (s : Q) :
  let beams := List.filter LaserBeam.alive (Game.lasers g) in
  let g2 := Game.bullet_pass (Game.enemy_pass dt (Game.advance dt g)) in
  Game.update_physics dt g = Game.contact_pass (Game.laser_pass dt g2)
  /\ Game.lasers g2 = map (LaserBeam.update dt) beams
  /\ Forall2 (fun e e' => e' = Enemy.set_hp (Enemy.hp e') e
                          /\ Enemy.hp e' == Enemy.hp e - beam_damage dt beams e)
             (Game.enemies g2) (Game.enemies (Game.laser_pass dt g2))
  /\ Game.laser_hits l e = near_line l e
  /\ near_line l (slide s l e) = near_line l e.
Proof.
  cbv zeta. split; [reflexivity|]. split; [apply lasers_of_the_laser_pass|]. split.
  - unfold Game.laser_pass at 1. cbn [Game.enemies Game.set_enemies].
    rewrite lasers_of_the_laser_pass.
    eapply Forall2_impl; [apply laser_fold_spec|].
    intros a b [Ha Hb]. split; [exact Ha|]. rewrite Hb, beam_damage_aged. reflexivity.
  - split; [apply laser_hits_near_line|].
    unfold near_line, cross, beam_span, slide.
    cbn [fst snd Enemy.x Enemy.y Enemy.r Enemy.set_x Enemy.set_y].
    match goal with
    | |- (Qabs ?a / ?d <=? ?b) = (Qabs ?a' / ?d <=? ?b) =>
        assert (Ha : a == a') by ring
    end.
    apply eq_true_iff_eq. rewrite !Qle_bool_iff. rewrite Ha. reflexivity.
Qed.

(** ** Power-ups *)

Lemma powerup_step_eq (dt : Q) (u : PowerUp.obj) (g : Game.obj) :
  Game.powerup_step dt u g =
    if reached (Game.player g) (fallen dt u)
    then (None, Game.set_player (Game.pickup (PowerUp.type u) (Game.player g)) g)
    else if PowerUp.y (fallen dt u) >? (HEIGHT + 40)%Z then (None, g)
         else (Some (fallen dt u), g).
Proof. reflexivity. Qed.

(** C8, as the code has it.  A power-up falls by [40*dt]; if it then
    overlaps the player (radius bonus 12) it is removed and applied; if
    not, it is removed without any effect once it is below [HEIGHT + 40],
    and kept otherwise.  Applied, [heal] sets hp to [hp + 40] clamped to
    [[0, maxhp]]; [rapid] and [shield] set their timer to 6, whatever it
    was; [bomb] sets the bomb count to [bombs + 1] clamped to [[0, 6]],
    which is the count plus one below 6 and never less than the count as
    long as the count is at most 6; [coin] adds 5 coins. *)
Theorem powerup_effects (dt : Q) (u : PowerUp.obj) (g : Game.obj) :
  let p := Game.player g in
  let u' := fallen dt u in
  let r := Game.powerup_step dt u g in
  (if reached p u'
   then fst r = None /\ snd r = Game.set_player (Game.pickup (PowerUp.type u) p) g
   else snd r = g
        /\ fst r = if PowerUp.y u' >? (HEIGHT + 40)%Z then None else Some u')
  /\ Game.pickup PowerUp.heal p
     = Player.set_hp (Z.max 0 (Z.min (Player.maxhp p) (Player.hp p + 40))) p
  /\ Game.pickup PowerUp.rapid p = Player.set_rapid 6.0 p
  /\ Game.pickup PowerUp.shield p = Player.set_shield 6.0 p
  /\ Game.pickup PowerUp.coin p = Player.set_coins (Player.coins p + 5) p
  /\ Game.pickup PowerUp.bomb p
     = Player.set_bombs (Z.max 0 (Z.min 6 (Player.bombs p + 1))) p
  /\ ((0 <= Player.bombs p < 6)%Z ->
        Player.bombs (Game.pickup PowerUp.bomb p) = (Player.bombs p + 1)%Z)
  /\ ((Player.bombs p <= 6)%Z ->
        (Player.bombs p <= Player.bombs (Game.pickup PowerUp.bomb p) <= 6)%Z)
  /\ ((0 <= Player.maxhp p)%Z ->
        (Player.hp (Game.pickup PowerUp.heal p) <= Player.maxhp p)%Z)
  /\ ((0 <= Player.maxhp p)%Z -> (-40 <= Player.hp p)%Z ->
        Player.hp (Game.pickup PowerUp.heal p)
        = Z.min (Player.maxhp p) (Player.hp p + 40)).
Proof.
  intros p u' r. split.
  - subst r. rewrite powerup_step_eq. fold p u'.
    destruct (reached p u'); [split; reflexivity|].
    destruct (PowerUp.y u' >? _); split; reflexivity.
  - repeat split; try reflexivity; cbn; unfold clampZ; lia.
Qed.

(** ** What a tick keeps *)

Ltac tick_frame :=
  unfold tick_inv; intros (? & ? & ? & ? & ? & ?); branches; cbn;
  repeat split; try assumption; try lia.

Lemma input_play_tick_inv (st : Game.State) (hs M : Z) (dt : Q) (inp : Input) (g : Game.obj) :
  tick_inv st hs M g -> tick_inv st hs M (Game.input_play dt inp g).
Proof.
  intros HI. unfold Game.input_play. cbv zeta.
  set (mv := Game.move_vector inp).
  assert (H1 : tick_inv st hs M (Game.dash inp mv g)).
  { revert HI. unfold Game.dash. tick_frame. }
  assert (H2 : tick_inv st hs M (Game.movement dt mv (Game.dash inp mv g))).
  { revert H1. generalize (Game.dash inp mv g). intros g1. unfold Game.movement. tick_frame. }
  revert H2. generalize (Game.movement dt mv (Game.dash inp mv g)). intros g2 H2.
  assert (H3 : tick_inv st hs M (Game.switch inp g2)).
  { revert H2. unfold Game.switch. tick_frame. }
  revert H3. generalize (Game.switch inp g2). intros g3 H3.
  assert (H4 : tick_inv st hs M (Game.bomb inp g3)).
  { revert H3. unfold Game.bomb, Game.bomb_explode. cbv zeta.
    destruct (Game.bomb_ready inp g3); [|tauto].
    destruct (sweep _ _ _) as [es [[score killed] n]]. tick_frame. }
  revert H4. generalize (Game.bomb inp g3). intros g4.
  unfold Game.fire. tick_frame.
  all: apply Forall_app; split; [assumption|].
  all: repeat (constructor; try exact I).
Qed.

Lemma advance_tick_inv (st : Game.State) (hs M : Z) (dt : Q) (g : Game.obj) :
  tick_inv st hs M g -> tick_inv st hs M (Game.advance dt g).
Proof.
  unfold Game.advance. tick_frame.
  apply List.Forall_forall. intros b Hb. apply filter_In in Hb as [Hb _].
  apply in_map_iff in Hb as (b0 & <- & Hb0).
  match goal with Hh : Forall harmful _ |- _ => rewrite List.Forall_forall in Hh; exact (Hh b0 Hb0) end.
Qed.

Lemma enemy_pass_tick_inv (st : Game.State) (hs M : Z) (dt : Q) (g : Game.obj) :
  tick_inv st hs M g -> tick_inv st hs M (Game.enemy_pass dt g).
Proof.
  intros HI. unfold Game.enemy_pass.
  pose proof (sweep_invariant (Game.enemy_step dt) (fun _ => True) (tick_inv st hs M)) as Hs.
  specialize (Hs ltac:(
    intros e s _; unfold Game.enemy_step;
    destruct (update_enemy_bullets dt (Game.player s) (Game.bullets s) e) as (new & Hn & Hh);
    destruct (Enemy.update dt (Game.player s) (Game.bullets s) e) as [e' bs];
    cbn [snd] in Hn; subst bs; tick_frame; apply Forall_app; split; assumption)).
  specialize (Hs (Game.enemies g) g ltac:(apply List.Forall_forall; intros; exact I) HI).
  destruct (sweep _ _ _) as [es g1]. revert Hs. cbn [snd]. tick_frame.
Qed.

Lemma bullet_step_tick_inv (st : Game.State) (hs M : Z) (b : Bullet.obj) (g : Game.obj) :
  harmful b -> tick_inv st hs M g -> tick_inv st hs M (snd (Game.bullet_step b g)).
Proof.
  unfold harmful, Game.bullet_step. intros Hb.
  destruct (Bullet.owner b); [destruct (Game.hit_first b (Game.enemies g))|]; tick_frame.
Qed.

Lemma bullet_pass_tick_inv (st : Game.State) (hs M : Z) (g : Game.obj) :
  tick_inv st hs M g -> tick_inv st hs M (Game.bullet_pass g).
Proof.
  intros HI. unfold Game.bullet_pass.
  assert (Hh : Forall harmful (Game.bullets g)) by (destruct HI as (_ & _ & _ & _ & _ & Hh); exact Hh).
  pose proof (sweep_invariant Game.bullet_step harmful (tick_inv st hs M)
                (bullet_step_tick_inv st hs M) (Game.bullets g) g Hh HI) as Hs.
  pose proof (sweep_kept Game.bullet_step harmful harmful) as Hk.
  specialize (Hk ltac:(
    intros b s b' Hb; unfold Game.bullet_step; branches; cbn [fst];
    intros [= <-]; exact Hb) (Game.bullets g) g Hh).
  destruct (sweep _ _ _) as [bs g1]. cbn [fst snd] in *. revert Hs. tick_frame.
Qed.

Lemma laser_pass_tick_inv (st : Game.State) (hs M : Z) (dt : Q) (g : Game.obj) :
  tick_inv st hs M g -> tick_inv st hs M (Game.laser_pass dt g).
Proof. unfold Game.laser_pass. tick_frame. Qed.

Lemma contact_pass_tick_inv (st : Game.State) (hs M : Z) (g : Game.obj) :
  tick_inv st hs M g -> tick_inv st hs M (Game.contact_pass g).
Proof.
  intros HI. unfold Game.contact_pass.
  pose proof (sweep_invariant Game.contact_step (fun _ => True) (tick_inv st hs M)) as Hs.
  specialize (Hs ltac:(intros e s _; unfold Game.contact_step; tick_frame)).
  specialize (Hs (Game.enemies g) g ltac:(apply List.Forall_forall; intros; exact I) HI).
  destruct (sweep _ _ _) as [es g1]. revert Hs. cbn [snd]. tick_frame.
Qed.

Lemma update_powerups_tick_inv (st : Game.State) (hs M : Z) (dt : Q) (g : Game.obj) :
  tick_inv st hs M g -> tick_inv st hs M (Game.update_powerups dt g).
Proof.
  intros HI. unfold Game.update_powerups.
  pose proof (sweep_invariant (Game.powerup_step dt) (fun _ => True) (tick_inv st hs M)) as Hs.
  specialize (Hs ltac:(
    intros u s _; rewrite powerup_step_eq; unfold Game.pickup, clampZ;
    destruct (PowerUp.type u); tick_frame)).
  specialize (Hs (Game.powerups g) g ltac:(apply List.Forall_forall; intros; exact I) HI).
  destruct (sweep _ _ _) as [us g1]. revert Hs. cbn [snd]. tick_frame.
Qed.

Lemma update_wave_tick_inv (st : Game.State) (hs M : Z) (dt : Q) (inp : Input) (g : Game.obj) :
  tick_inv st hs M g -> tick_inv st hs M (Game.update_wave_and_spawning dt inp g).
Proof.
  unfold Game.update_wave_and_spawning. cbv zeta.
  repeat match goal with
         | |- context [Game.spawn_enemy_edge None ?lvl ?gs] =>
             destruct (spawn_enemy_edge_spec None lvl gs) as (? & ? & -> & _)
         | |- context [Game.spawn_wave ?gs] =>
             destruct (spawn_wave_spec gs) as (? & ? & ? & -> & _)
         end.
  destruct (Game.wave_state g); [|destruct (Game.enemies g)]; tick_frame.
Qed.

Lemma run_play_before_check (st : Game.State) (hs M : Z) (dt : Q) (inp : Input)
    (g : Game.obj) :
  tick_inv st hs M g ->
  exists g1, Game.run_play dt inp g = Game.check_player_death g1 /\ tick_inv st hs M g1.
Proof.
  intros HI. eexists. split; [reflexivity|].
  apply update_wave_tick_inv, update_powerups_tick_inv.
  unfold Game.update_physics. cbv zeta.
  apply contact_pass_tick_inv, laser_pass_tick_inv, bullet_pass_tick_inv,
    enemy_pass_tick_inv, advance_tick_inv, input_play_tick_inv, HI.
Qed.

Lemma hp_invariant_tick_inv (g : Game.obj) :
  hp_invariant g <->
  tick_inv (Game.state g) (Game.hiscore g) (Player.maxhp (Game.player g)) g.
Proof. unfold hp_invariant, tick_inv. tauto. Qed.

Lemma check_player_death_hp_invariant (g : Game.obj) :
  hp_invariant g -> hp_invariant (Game.check_player_death g).
Proof. unfold Game.check_player_death, hp_invariant. branches; cbn; tauto. Qed.

Lemma run_play_hp_invariant (dt : Q) (inp : Input) (g : Game.obj) :
  hp_invariant g -> hp_invariant (Game.run_play dt inp g).
Proof.
  intros HI. apply hp_invariant_tick_inv in HI.
  destruct (run_play_before_check _ _ _ dt inp g HI) as (g1 & -> & H1).
  apply check_player_death_hp_invariant.
  destruct H1 as (_ & _ & HM & Hle & HM0 & Hb). unfold hp_invariant. rewrite HM. tauto.
Qed.

Lemma buy_hp_invariant (sel : Z) (g : Game.obj) :
  hp_invariant g -> hp_invariant (Game.buy sel g).
Proof.
  unfold hp_invariant, Game.buy, Game.apply_option. intros (Hle & HM & Hb).
  destruct (getitem Game.opts sel) as [[[label key] cost]|]; [|tauto].
  branches; cbn; repeat split; try assumption; lia.
Qed.

(** From a fresh run on, whatever is played and bought, the hp never
    exceeds [maxhp]. *)
Lemma hp_invariant_along_a_run (acts : list Action) (g : Game.obj) :
  hp_invariant g -> hp_invariant (fold_left perform acts g).
Proof.
  revert g. induction acts as [|a acts IH]; intros g HI; [exact HI|].
  cbn [fold_left]. apply IH. destruct a; cbn [perform].
  - apply run_play_hp_invariant, HI.
  - apply buy_hp_invariant, HI.
Qed.

(** C1, as the code has it.  A tick of the play state keeps [maxhp], keeps
    [hp <= maxhp], and lets only harmful enemy bullets fly (this is the
    invariant [hp_invariant], and a fresh run has it).  The hp is not kept
    above 0: damage is subtracted without a floor.  At the end of the tick
    the death check runs: if the hp is at most 0 the state becomes
    [gameover] and the hi-score becomes the score when the score is larger;
    if the hp is positive, state and hi-score are as before the tick. *)
Theorem hp_capped_and_death_ends_run (dt : Q) (inp : Input) (g : Game.obj) :
  hp_invariant g ->
  let g' := Game.run_play dt inp g in
  hp_invariant g'
  /\ Player.maxhp (Game.player g') = Player.maxhp (Game.player g)
  /\ (if (Player.hp (Game.player g') <=? 0)%Z
      then Game.state g' = Game.gameover
           /\ Game.hiscore g' = Z.max (Game.hiscore g) (Player.score (Game.player g'))
      else Game.state g' = Game.state g /\ Game.hiscore g' = Game.hiscore g).
Proof.
  intros HI g'. split; [apply run_play_hp_invariant, HI|].
  apply hp_invariant_tick_inv in HI.
  destruct (run_play_before_check _ _ _ dt inp g HI) as (g1 & Hg' & H1).
  subst g'. rewrite Hg'. clear Hg'.
  destruct H1 as (Hst & Hhs & HM & Hle & HM0 & Hbs). unfold Game.check_player_death.
  destruct (Player.hp (Game.player g1) <=? 0)%Z eqn:E.
  - destruct (Z.gtb_spec (Player.score (Game.player g1)) (Game.hiscore g1));
      cbn; rewrite ?E; repeat split; try assumption; lia.
  - rewrite E. repeat split; assumption.
Qed.
End GameFacts.

(** ** Concrete runs *)

Lemma start_game_hp_invariant `{math.lib, random.source} (g : Game.obj) :
  (0 <= get0 (Game.persist_upgrades g) "hp")%Z -> hp_invariant (Game.start_game g).
Proof.
  intros Hlvl. unfold hp_invariant. cbn. unfold PLAYER_MAX_HP.
  repeat split; try lia. constructor.
Qed.

(** Seven enemies touch a player at full health in the same tick: the hp
    goes from 120 to -6, below zero. *)
Lemma hp_falls_below_zero :
  let g' := Game.run_play (1 # 60) no_keys g_swarmed in
  Player.hp (Game.player g_swarmed) = 120%Z
  /\ Player.maxhp (Game.player g_swarmed) = 120%Z
  /\ Player.hp (Game.player g') = (-6)%Z
  /\ Game.state g' = Game.gameover.
Proof. vm_compute. repeat split; reflexivity. Qed.

(** The same tick with a heal power-up on the player: [update_physics]
    leaves the hp at -6, [update_powerups] lifts it to 34 before the death
    check, and the run goes on. *)
Lemma death_healed_before_the_check :
  let g1 := Game.update_physics (1 # 60) (Game.input_play (1 # 60) no_keys g_swarmed_heal) in
  let g' := Game.run_play (1 # 60) no_keys g_swarmed_heal in
  Player.hp (Game.player g1) = (-6)%Z
  /\ Player.hp (Game.player g') = 34%Z
  /\ Game.state g' = Game.play.
Proof. vm_compute. repeat split; reflexivity. Qed.

(** The swarmed tick read through the theorem: the invariant holds before
    and after, and the run is over. *)
Lemma hp_capped_witness :
  hp_invariant g_swarmed
  /\ hp_invariant (Game.run_play (1 # 60) no_keys g_swarmed)
  /\ Game.state (Game.run_play (1 # 60) no_keys g_swarmed) = Game.gameover.
Proof.
  assert (Hinv : hp_invariant g_swarmed).
  { unfold hp_invariant. repeat split; [vm_compute; discriminate .. | constructor]. }
  pose proof (hp_capped_and_death_ends_run (1 # 60) no_keys g_swarmed Hinv) as Hrun.
  cbv zeta in Hrun. destruct Hrun as (H1 & _ & H3).
  split; [exact Hinv|]. split; [exact H1|].
  assert (Hdead : (Player.hp (Game.player (Game.run_play (1 # 60) no_keys g_swarmed)) <=? 0)%Z
                  = true) by (vm_compute; reflexivity).
  rewrite Hdead in H3. exact (proj1 H3).
Defined.

(** The player fires the laser upward from (500, 445); the chaser is below
    the player, behind the beam's origin (its offset from the origin has a
    negative product with the direction), and still loses 0.8 of its 26 hp
    in that tick. *)
Lemma laser_hits_enemy_behind_origin :
  let g' := Game.run_play (1 # 60) (holding [K_q; K_z]) g_laser_behind in
  match Game.lasers g', Game.enemies g_laser_behind, Game.enemies g' with
  | [l], [e], [e'] =>
      (Enemy.x e' - LaserBeam.x l) * LaserBeam.dx l
      + (Enemy.y e' - LaserBeam.y l) * LaserBeam.dy l < 0
      /\ Enemy.hp e == 26
      /\ Enemy.hp e' == 25.2
  | _, _, _ => False
  end.
Proof. vm_compute. repeat split; reflexivity. Qed.

(** The player's bullet takes a wounded chaser to -2 hp; the chaser touches
    the player in the same tick and is removed by the contact loop: an
    enemy with [hp <= 0] is gone, and score and coins have not moved. *)
Lemma bullet_kill_on_contact_pays_nothing :
  let g1 := Game.input_play (1 # 60) (holding [K_z]) g_point_blank in
  let g2 := Game.laser_pass (1 # 60)
              (Game.bullet_pass (Game.enemy_pass (1 # 60) (Game.advance (1 # 60) g1))) in
  let g3 := Game.update_physics (1 # 60) g1 in
  g3 = Game.contact_pass g2
  /\ (exists e, Game.enemies g2 = [e] /\ Enemy.hp e <= 0)
  /\ Game.enemies g3 = []
  /\ Player.score (Game.player g3) = Player.score (Game.player g_point_blank)
  /\ Player.coins (Game.player g3) = Player.coins (Game.player g_point_blank)
  /\ Game.powerups g3 = Game.powerups g_point_blank.
Proof.
  intros g1 g2 g3. split; [reflexivity|]. split.
  - destruct (Game.enemies g2) as [|e [|]] eqn:Ee; try (vm_compute in Ee; discriminate).
    exists e. split; [reflexivity|]. vm_compute in Ee. injection Ee as <-.
    vm_compute. discriminate.
  - vm_compute. repeat split; reflexivity.
Qed.

(** The first wave of a fresh run: four seconds pass, wave 1 brings six
    enemies and no boss. *)
Lemma wave_generation_witness :
  (Game.wave_state g_start = Game.interlude
   /\ Game.interlude_time g_start - 4 <= 0
   /\ (0 <= Game.wave g_start)%Z)
  /\ exists base extra : list Enemy.obj,
       Game.enemies (Game.update_wave_and_spawning 4 no_keys g_start)
         = Game.enemies g_start ++ base ++ extra
       /\ Z.of_nat (length base) = 6%Z
       /\ extra = [].
Proof.
  assert (H1 : Game.wave_state g_start = Game.interlude) by reflexivity.
  assert (H2 : Game.interlude_time g_start - 4 <= 0) by (vm_compute; discriminate).
  assert (H3 : (0 <= Game.wave g_start)%Z) by (vm_compute; discriminate).
  split; [repeat split; assumption|].
  pose proof (wave_generation 4 no_keys g_start H1 H2 H3) as Hgen.
  cbv zeta in Hgen. destruct Hgen as (base & extra & He & _ & _ & _ & Hlen & _ & Hextra).
  exists base, extra. split; [exact He|]. split; [exact Hlen | exact Hextra].
Defined.

(** Line 3 of the shop, "Extra Bomb" for 6 coins, bought with 36 coins. *)
Lemma shop_purchase_witness :
  getitem Game.opts 3 = Some ("Extra Bomb", "bomb", 6%Z)
  /\ Player.coins (Game.player (Game.buy 3 g_rich)) = 30%Z
  /\ Player.bombs (Game.player (Game.buy 3 g_rich)) = 3%Z.
Proof.
  assert (Hsel : getitem Game.opts 3 = Some ("Extra Bomb", "bomb", 6%Z)) by reflexivity.
  split; [exact Hsel|].
  pose proof (shop_purchase_atomic 3 _ _ _ g_rich Hsel) as Hbuy.
  cbv zeta in Hbuy.
  assert (Hpay : (Player.coins (Game.player g_rich) <? 6)%Z = false) by reflexivity.
  rewrite Hpay in Hbuy. destruct Hbuy as (Hc & _ & _ & _ & Hb).
  split; [exact Hc | exact Hb].
Defined.

(** Wave 5, active, no enemy left: back to the interlude, timer at 6. *)
Lemma interlude_countdown_witness :
  Game.wave_state (Game.update_wave_and_spawning (1 # 60) no_keys g_wave5_cleared)
    = Game.interlude
  /\ Game.interlude_time (Game.update_wave_and_spawning (1 # 60) no_keys g_wave5_cleared) == 6.
Proof.
  exact (proj1 (proj2 (interlude_countdown (1 # 60) no_keys g_wave5_cleared)) eq_refl eq_refl).
Defined.

(** Eight bombs (six of them bought), then a bomb power-up: six bombs. *)
Lemma bomb_pickup_lowers_count :
  Player.bombs (Game.player g_eight_bombs) = 8%Z
  /\ Player.bombs (Game.player (Game.update_powerups (1 # 60) g_eight_bombs)) = 6%Z.
Proof. vm_compute. split; reflexivity. Qed.

(** * Further properties *)

(** Case analysis on the comparisons of the goal, innermost first. *)
Ltac no_test t :=
  lazymatch t with
  | context [if _ then _ else _] => fail
  | _ => idtac
  end.

Ltac Qtests :=
  repeat match goal with
    | |- context [Qltb ?a ?b] =>
        no_test a; no_test b;
        let E := fresh "E" in
        destruct (Qltb a b) eqn:E; [apply Qltb_lt in E | apply Qltb_ge in E]; cbv iota
    | |- context [Qle_bool ?a ?b] =>
        no_test a; no_test b;
        let E := fresh "E" in
        destruct (Qle_bool a b) eqn:E; [apply Qle_bool_iff in E | apply Qleb_gt in E];
        cbv iota
    end.

(** ** Helpers of the source *)

Lemma clamp_wd (a b lo hi : Q) : a == b -> clamp a lo hi == clamp b lo hi.
Proof. intros E. unfold clamp, max, min. Qtests; lra. Qed.

Lemma clamp_behaviour_in (v lo hi : Q) : lo <= v <= hi -> clamp v lo hi == v.
Proof. unfold clamp, max, min. intros; Qtests; lra. Qed.

(** X1. [clamp(v, lo, hi)] is never below [lo], also when the bounds are
    crossed; with [lo <= hi] it is at most [hi], it returns a value of the
    range unchanged, and it sends lower values to [lo] and higher values
    to [hi]. *)
Theorem clamp_behaviour (v lo hi : Q) :
  lo <= clamp v lo hi
  /\ (lo <= hi -> clamp v lo hi <= hi)
  /\ (lo <= v <= hi -> clamp v lo hi == v)
  /\ (v <= lo -> clamp v lo hi == lo)
  /\ (lo <= hi -> hi <= v -> clamp v lo hi == hi)
  /\ (lo <= hi -> clamp (clamp v lo hi) lo hi == clamp v lo hi).
Proof.
  unfold clamp, max, min. repeat split; intros; Qtests; lra.
Qed.

(** ** The player *)

(** X2. [switch_weapon] always leaves an index of the weapon list,
    whatever the index and the step were; on such an index a step and its
    opposite cancel, and three steps the same way come back to the same
    weapon. *)
Theorem switch_weapon_cycles (dirn : Z) (p : Player.obj) :
  valid_weapon (Player.switch_weapon dirn p)
  /\ is_Some (getitem Player.weapons (Player.weapon_index (Player.switch_weapon dirn p)))
  /\ (valid_weapon p ->
        Player.weapon_index (Player.switch_weapon (- dirn) (Player.switch_weapon dirn p))
        = Player.weapon_index p
        /\ Player.weapon_index
             (Player.switch_weapon dirn (Player.switch_weapon dirn (Player.switch_weapon dirn p)))
           = Player.weapon_index p).
Proof.
  unfold valid_weapon, Player.switch_weapon.
  change (Z.of_nat (length Player.weapons)) with 3%Z.
  cbn [Player.weapon_index Player.set_weapon_index].
  assert (Hr : (0 <= (Player.weapon_index p + dirn) mod 3 < 3)%Z)
    by (apply Z.mod_pos_bound; lia).
  split; [exact Hr|]. split.
  - unfold getitem. destruct (Z.leb_spec 0 ((Player.weapon_index p + dirn) mod 3)); [|lia].
    assert (Hn : (Z.to_nat ((Player.weapon_index p + dirn) mod 3) < 3)%nat) by lia.
    destruct (Z.to_nat _) as [|[|[|k]]]; cbn; first [lia | eexists; reflexivity].
  - intros Hv. split; Z.div_mod_to_equations; lia.
Qed.

(** X3. [Player.update] counts the four timers down by [dt] and stops
    them at 0: afterwards none is negative, a timer that had at most [dt]
    left is at 0, every other one has lost exactly [dt]; nothing else of
    the player changes. *)
Theorem player_timers_count_down (dt : Q) (p : Player.obj) :
  let p' := Player.update dt p in
  let counted (t t' : Q) :=
    0 <= t' /\ (t <= dt -> t' == 0) /\ (dt < t -> t' == t - dt) in
  timers_settled p'
  /\ counted (Player.dash_cd p) (Player.dash_cd p')
  /\ counted (Player.bullets_cool p) (Player.bullets_cool p')
  /\ counted (Player.rapid p) (Player.rapid p')
  /\ counted (Player.shield p) (Player.shield p')
  /\ build p' = build p
  /\ (Player.hp p', Player.coins p', Player.score p', Player.bombs p')
     = (Player.hp p, Player.coins p, Player.score p, Player.bombs p).
Proof.
  cbv zeta. unfold Player.update, timers_settled. cbn. unfold max.
  repeat split; intros; Qtests; lra.
Qed.

(** ** Enemies *)

Section EnemyUpdate.
Context `{math.lib, random.source}.

(** X4. [Enemy.update] leaves every kind of enemy inside the box
    [[-100, WIDTH+100] x [-100, HEIGHT+100]], whatever the player's
    position and the elapsed time; it advances the enemy's clock by [dt]
    and never changes hp, level, kind, radius or speed. *)
Theorem enemy_update_keeps_box_and_stats (dt : Q) (p : Player.obj) (bs : list Bullet.obj)
    (e : Enemy.obj) :
  let e' := fst (Enemy.update dt p bs e) in
  in_box e'
  /\ Enemy.t e' = Enemy.t e + dt
  /\ (Enemy.hp e', Enemy.level e', Enemy.kind e', Enemy.r e', Enemy.speed e')
     = (Enemy.hp e, Enemy.level e, Enemy.kind e, Enemy.r e, Enemy.speed e).
Proof.
  cbv zeta. unfold Enemy.update, in_box. cbv zeta.
  destruct (Enemy.kind _) eqn:K;
    cbn [Enemy.kind Enemy.set_t Enemy.set_x Enemy.set_y Enemy.set_cool Enemy.cool] in *;
    branches; cbn; rewrite ?K.
  all: split; [split; apply clamp_bounds; vm_compute; discriminate|].
  all: split; reflexivity.
Qed.

(** X5. What [Enemy.update] appends to the bullets.  Bullets already in
    flight stay in front, untouched.  A chaser and a zig never fire.  A
    shooter whose cooldown runs out in this call fires one bullet of
    damage 8 and starts a cooldown of [0.9 - min(0.5, level*0.03)], which
    is never below 0.4; a boss whose cooldown runs out fires twelve
    bullets of damage 10 from where it stands and starts a cooldown of
    0.35.  Otherwise the cooldown just loses [dt].  Every bullet fired is
    an enemy's. *)
Theorem enemy_fire_by_kind (dt : Q) (p : Player.obj) (bs : list Bullet.obj) (e : Enemy.obj) :
  let e' := fst (Enemy.update dt p bs e) in
  let due := Enemy.cool e - dt <=? 0 in
  exists new : list Bullet.obj,
    snd (Enemy.update dt p bs e) = bs ++ new
    /\ Forall (fun b => Bullet.owner b = by_enemy) new
    /\ match Enemy.kind e with
       | Enemy.chaser | Enemy.zig => new = [] /\ Enemy.cool e' = Enemy.cool e
       | Enemy.shooter =>
           if due then
             length new = 1%nat
             /\ Forall (fun b => Bullet.dmg b = 8%Z /\ Bullet.r b = 4%Z) new
             /\ Enemy.cool e' = 0.9 - min 0.5 (Enemy.level e * 0.03)
             /\ 0.4 <= Enemy.cool e'
           else new = [] /\ Enemy.cool e' = Enemy.cool e - dt
       | Enemy.boss =>
           if due then
             length new = 12%nat
             /\ Forall (fun b => Bullet.dmg b = 10%Z /\ Bullet.r b = 5%Z
                                 /\ Bullet.x b = Enemy.x e /\ Bullet.y b = Enemy.y e) new
             /\ Enemy.cool e' == 0.35
           else new = [] /\ Enemy.cool e' = Enemy.cool e - dt
       end.
Proof.
  cbv zeta. unfold Enemy.update. cbv zeta.
  destruct (Enemy.kind e) eqn:K;
    cbn [Enemy.kind Enemy.set_t Enemy.set_x Enemy.set_y Enemy.set_cool Enemy.cool
         Enemy.level Enemy.x Enemy.y];
    rewrite ?K.
  - exists []. rewrite app_nil_r. cbn. repeat split; constructor.
  - exists []. rewrite app_nil_r. cbn. repeat split; constructor.
  - destruct (Enemy.cool e - dt <=? 0).
    + eexists. split; [reflexivity|]. cbn.
      split; [repeat constructor|]. split; [reflexivity|].
      split; [repeat constructor|]. split; [reflexivity|].
      unfold min. Qtests; lra.
    + exists []. rewrite app_nil_r. cbn. repeat split; constructor.
  - destruct (Enemy.cool e - dt <=? 0).
    + eexists. split; [reflexivity|]. cbn.
      split; [repeat constructor|]. split; [reflexivity|].
      split; [repeat constructor | reflexivity].
    + exists []. rewrite app_nil_r. cbn. repeat split; constructor.
Qed.
End EnemyUpdate.

(** ** Particles *)

Section ParticleFacts.
Context `{math.lib, random.source}.

Lemma uniform_range (a b : Q) (n : nat) :
  a <= b -> a <= random.uniform a b n /\ (a < b -> random.uniform a b n < b).
Proof.
  intros Hab. unfold random.uniform. pose proof (random_range n) as [Hr0 Hr1].
  split; [nra|]. intros Hlt. nra.
Qed.

(** X6. [emit_explosion] appends exactly [amount] particles, all at the
    point of the explosion and of age 0, with a radius in [[2, 4]] and a
    life in [[0.3, 0.9)]; it makes four calls of the generator per
    particle.  [emit_trail] appends one particle of radius in [[1, 3]]
    and life in [[0.2, 0.45)] and makes four calls. *)
Theorem emitters_append (tau x y speed : Q) (amount : nat) (ps : list Particle.obj) (n : nat) :
  (exists new : list Particle.obj,
     fst (Particles.emit_explosion tau x y amount speed ps n) = ps ++ new
     /\ length new = amount
     /\ snd (Particles.emit_explosion tau x y amount speed ps n)
        = ParticleSystem.emit_explosion amount n
     /\ Forall (fun q => Particle.x q = x /\ Particle.y q = y /\ Particle.t q = 0
                         /\ (2 <= Particle.r q <= 4)%Z
                         /\ 0.3 <= Particle.life q < 0.9) new)
  /\ (exists q : Particle.obj,
        fst (Particles.emit_trail x y ps n) = ps ++ [q]
        /\ snd (Particles.emit_trail x y ps n) = ParticleSystem.emit_trail n
        /\ Particle.x q = x /\ Particle.y q = y /\ Particle.t q = 0
        /\ (1 <= Particle.r q <= 3)%Z
        /\ 0.2 <= Particle.life q < 0.45).
Proof.
  split.
  - revert ps n. induction amount as [|k IH]; intros ps n.
    + exists []. cbn. rewrite app_nil_r. unfold ParticleSystem.emit_explosion.
      repeat split; [lia | constructor].
    + cbn [Particles.emit_explosion].
      match goal with
      | |- context [Particles.emit_explosion _ _ _ _ _ (ps ++ [?q]) ?m] =>
          destruct (IH (ps ++ [q]) m) as (new & Hf & Hl & Hs & Hall); exists (q :: new)
      end.
      rewrite Hf, Hs, <- app_assoc. split; [reflexivity|]. split; [simpl; lia|].
      split; [unfold ParticleSystem.emit_explosion; lia|].
      constructor; [|exact Hall]. cbn.
      pose proof (randint_range 2 4 (S (S n)) ltac:(lia)).
      pose proof (uniform_range 0.3 0.9 (S (S (S n))) ltac:(lra)) as [? Hlt].
      specialize (Hlt ltac:(lra)). tauto.
  - eexists. cbn. split; [reflexivity|]. split; [unfold ParticleSystem.emit_trail; lia|].
    pose proof (randint_range 1 3 (S (S n)) ltac:(lia)).
    pose proof (uniform_range 0.2 0.45 (S (S (S n))) ltac:(lra)) as [? Hlt].
    specialize (Hlt ltac:(lra)). tauto.
Qed.
End ParticleFacts.

(** X7. [ParticleSystem.update] ages every particle by [dt], moves it by
    its velocity and damps the velocity; it keeps exactly the particles
    whose new age is below their life, so the particles left are all
    younger than their life, the list never grows, and an update that
    takes every particle to the end of its life empties the list. *)
Theorem particles_age_out (dt : Q) (ps : list Particle.obj) :
  let ps' := Particles.update dt ps in
  ps' = map (fun q => fst (Particle.update dt q))
            (List.filter (fun q => Particle.t q + dt <? Particle.life q) ps)
  /\ Forall (fun q => Particle.t q < Particle.life q) ps'
  /\ (length ps' <= length ps)%nat
  /\ (Forall (fun q => Particle.life q <= Particle.t q + dt) ps -> ps' = []).
Proof.
  cbv zeta. unfold Particles.update.
  assert (Hshape : map fst (List.filter snd (map (Particle.update dt) ps))
                   = map (fun q => fst (Particle.update dt q))
                         (List.filter (fun q => Particle.t q + dt <? Particle.life q) ps)).
  { induction ps as [|q ps IH]; [reflexivity|].
    cbn [map List.filter]. unfold Particle.update at 1. cbn [snd].
    destruct (Particle.t q + dt <? Particle.life q); cbn [map]; rewrite IH; reflexivity. }
  rewrite Hshape. clear Hshape. split; [reflexivity|]. split; [|split].
  - apply List.Forall_forall. intros q' Hq'. apply in_map_iff in Hq' as (q & <- & Hq).
    apply filter_In in Hq as [_ Hq]. apply Qltb_lt in Hq. exact Hq.
  - rewrite length_map. apply filter_length_le.
  - intros Hall. induction Hall as [|q ps Hq _ IH]; [reflexivity|].
    cbn [List.filter]. apply Qltb_ge in Hq. rewrite Hq. exact IH.
Qed.

(** ** Input *)

Section InputFacts.
Context `{math.lib, random.source}.

Lemma fire_blocked (inp : Input) (g : Game.obj) :
  (Player.bullets_cool (Game.player g) <=? 0) = false -> Game.fire inp g = g.
Proof.
  intros Hc. unfold Game.fire. cbv zeta. rewrite Hc. branches; reflexivity.
Qed.

Lemma fire_starts_cooldown (inp : Input) (g : Game.obj) :
  Game.fire inp g = g
  \/ (Player.bullets_cool (Game.player (Game.fire inp g)) <=? 0) = false.
Proof.
  unfold Game.fire. cbv zeta. branches; first [left; reflexivity | right; reflexivity].
Qed.

(** X8. Firing is rate-limited by [bullets_cool].  While the cooldown is
    positive [fire] does nothing; a shot starts a positive cooldown, so
    firing twice without time passing in between shoots once.  One call
    adds at most three bullets or one laser beam, never both, and every
    bullet it adds is the player's. *)
Theorem fire_is_rate_limited (inp : Input) (g : Game.obj) :
  Game.fire inp (Game.fire inp g) = Game.fire inp g
  /\ (0 < Player.bullets_cool (Game.player g) -> Game.fire inp g = g)
  /\ exists (newb : list Bullet.obj) (newl : list LaserBeam.obj),
       Game.bullets (Game.fire inp g) = Game.bullets g ++ newb
       /\ Game.lasers (Game.fire inp g) = Game.lasers g ++ newl
       /\ (length newb + 3 * length newl <= 3)%nat
       /\ Forall (fun b => Bullet.owner b = by_player) newb
       /\ Game.enemies (Game.fire inp g) = Game.enemies g.
Proof.
  split; [|split].
  - destruct (fire_starts_cooldown inp g) as [E | Hc].
    + rewrite E. exact E.
    + apply (fire_blocked inp (Game.fire inp g)), Hc.
  - intros Hpos. apply fire_blocked, Qleb_gt, Hpos.
  - unfold Game.fire. cbv zeta. branches; cbn.
    all: first
      [ exists [], []; rewrite !app_nil_r; repeat split;
        solve [reflexivity | simpl; lia | constructor]
      | eexists _, []; split; [reflexivity|]; split; [symmetry; apply app_nil_r|];
        split; [simpl; lia|]; split; [repeat constructor | reflexivity]
      | exists []; eexists; split; [symmetry; apply app_nil_r|]; split; [reflexivity|];
        split; [simpl; lia|]; split; [constructor | reflexivity] ].
Qed.

(** X9. The dash is rate-limited by [dash_cd].  While the cooldown is
    positive [dash] does nothing; a dash sets the cooldown to
    [PLAYER_DASH_COOLDOWN] and moves the player by
    [PLAYER_DASH_SPEED * 0.12 = 84] times the direction, so a second dash
    without time passing in between does nothing. *)
Theorem dash_is_rate_limited (inp : Input) (mv : Q * Q) (g : Game.obj) :
  let p := Game.player g in
  let p' := Game.player (Game.dash inp mv g) in
  Game.dash inp mv (Game.dash inp mv g) = Game.dash inp mv g
  /\ (0 < Player.dash_cd p -> Game.dash inp mv g = g)
  /\ (Game.dash inp mv g = g
      \/ Player.dash_cd p' = PLAYER_DASH_COOLDOWN
         /\ Player.x p' == Player.x p + 84 * fst mv
         /\ Player.y p' == Player.y p + 84 * snd mv
         /\ Game.rng (Game.dash inp mv g) = (Game.rng g + 4)%nat).
Proof.
  cbv zeta. unfold Game.dash at 2 3 4 5 6 7 8 9.
  destruct ((keys inp K_SPACE || keys inp K_LSHIFT) && (Player.dash_cd (Game.player g) <=? 0))
    eqn:E.
  - split; [|split].
    + unfold Game.dash. cbn. rewrite andb_false_r. reflexivity.
    + intros Hpos. apply andb_true_iff in E as [_ E]. apply Qle_bool_iff in E. lra.
    + right. cbn. unfold PLAYER_DASH_SPEED, ParticleSystem.emit_trail.
      repeat split; try reflexivity; try ring. 
  - split; [|split].
    + unfold Game.dash. rewrite E. reflexivity.
    + reflexivity.
    + left. reflexivity.
Qed.

Lemma move_vector_still (inp : Input) :
  no_direction inp -> fst (Game.move_vector inp) == 0 /\ snd (Game.move_vector inp) == 0.
Proof.
  intros (Hj & Hx & Hy). unfold Game.move_vector. rewrite Hj. cbv zeta.
  destruct (keys inp K_a || keys inp K_LEFT), (keys inp K_d || keys inp K_RIGHT);
    try discriminate;
    destruct (keys inp K_w || keys inp K_UP), (keys inp K_s || keys inp K_DOWN);
    try discriminate.
  all: match goal with |- context [if ?b then _ else _] => destruct b end; cbn [fst snd].
  all: split; unfold Qdiv; ring.
Qed.

Lemma input_play_position (dt : Q) (inp : Input) (g : Game.obj) :
  position (Game.player (Game.input_play dt inp g))
  = position (Game.player (Game.movement dt (Game.move_vector inp)
                             (Game.dash inp (Game.move_vector inp) g))).
Proof.
  unfold Game.input_play. cbv zeta.
  rewrite fire_position, bomb_position, switch_position. reflexivity.
Qed.

(** X10. With no joystick and no net direction on the keyboard (no
    direction key down, or opposite keys down together) [input_play] does
    not move the player, dash or no dash: it only brings the position
    into the screen bounds, so a player inside the bounds stays put. *)
Theorem no_direction_no_motion (dt : Q) (inp : Input) (g : Game.obj) :
  no_direction inp ->
  let p := Game.player g in
  let p' := Game.player (Game.input_play dt inp g) in
  Player.x p' == clamp (Player.x p) 20 (WIDTH - 20)%Z
  /\ Player.y p' == clamp (Player.y p) 20 (HEIGHT - 20)%Z
  /\ (20 <= Player.x p <= (WIDTH - 20)%Z -> Player.x p' == Player.x p)
  /\ (20 <= Player.y p <= (HEIGHT - 20)%Z -> Player.y p' == Player.y p).
Proof.
  intros Hn p p'.
  destruct (move_vector_still inp Hn) as [Hx Hy].
  pose proof (input_play_position dt inp g) as Hp. fold p' in Hp.
  unfold position in Hp. injection Hp as Hpx Hpy.
  assert (Hcx : Player.x p' == clamp (Player.x p) 20 (WIDTH - 20)%Z).
  { rewrite Hpx. unfold Game.movement, Game.dash, p.
    branches; cbn [Game.player Game.set_player Game.set_rng Player.x Player.y Player.speed
                   Player.set_x Player.set_y Player.set_dash_cd];
      apply clamp_wd; rewrite Hx; ring. }
  assert (Hcy : Player.y p' == clamp (Player.y p) 20 (HEIGHT - 20)%Z).
  { rewrite Hpy. unfold Game.movement, Game.dash, p.
    branches; cbn [Game.player Game.set_player Game.set_rng Player.x Player.y Player.speed
                   Player.set_x Player.set_y Player.set_dash_cd];
      apply clamp_wd; rewrite Hy; ring. }
  split; [exact Hcx|]. split; [exact Hcy|].
  split; intros Hin; [rewrite Hcx | rewrite Hcy]; apply clamp_behaviour_in; exact Hin.
Qed.
End InputFacts.

(** ** The frame of the physics *)

Section PhysicsFrame.
Context `{math.lib, random.source}.

Ltac frame :=
  unfold physics_inv, beyond_physics, build, timers_settled;
  intros [? (? & ? & ? & ?)]; branches; cbn in *;
  (split; [assumption | repeat split; first [assumption | lra]]).

Lemma timers_settled_update (dt : Q) (p : Player.obj) : timers_settled (Player.update dt p).
Proof.
  unfold timers_settled, Player.update. cbn. unfold max. repeat split; Qtests; lra.
Qed.

Lemma enemy_step_frame (c : _) (dt : Q) (e : Enemy.obj) (g : Game.obj) :
  physics_inv beyond_physics c g -> physics_inv beyond_physics c (snd (Game.enemy_step dt e g)).
Proof.
  unfold Game.enemy_step.
  destruct (Enemy.update dt (Game.player g) (Game.bullets g) e) as [e' bs]. frame.
Qed.

Lemma bullet_step_frame (c : _) (b : Bullet.obj) (g : Game.obj) :
  physics_inv beyond_physics c g -> physics_inv beyond_physics c (snd (Game.bullet_step b g)).
Proof.
  unfold Game.bullet_step.
  destruct (Bullet.owner b); [destruct (Game.hit_first b (Game.enemies g))|]; frame.
Qed.

Lemma contact_step_frame (c : _) (e : Enemy.obj) (g : Game.obj) :
  physics_inv beyond_physics c g -> physics_inv beyond_physics c (snd (Game.contact_step e g)).
Proof. unfold Game.contact_step. frame. Qed.

Lemma powerup_step_frame (c : _) (dt : Q) (u : PowerUp.obj) (g : Game.obj) :
  physics_inv beyond_physics c g ->
  physics_inv beyond_physics c (snd (Game.powerup_step dt u g)).
Proof.
  rewrite powerup_step_eq. unfold Game.pickup. destruct (PowerUp.type u); frame.
Qed.

Lemma sweep_frame {A : Type} (body : A -> Game.obj -> option A * Game.obj)
    (I : Game.obj -> Prop) (xs : list A) (g : Game.obj) :
  (forall e s, I s -> I (snd (body e s))) -> I g -> I (snd (sweep body xs g)).
Proof.
  intros Hbody HI.
  apply (sweep_invariant body (fun _ => True) I); auto.
  apply List.Forall_forall. intros; exact Logic.I.
Qed.

Lemma update_physics_frame (c : _) (dt : Q) (g : Game.obj) :
  beyond_physics g = c -> physics_inv beyond_physics c (Game.update_physics dt g).
Proof.
  intros Hc.
  assert (H1 : physics_inv beyond_physics c (Game.advance dt g)).
  { split; [|apply timers_settled_update]. rewrite <- Hc. reflexivity. }
  unfold Game.update_physics. cbv zeta. revert H1. generalize (Game.advance dt g). intros g1 H1.
  assert (H2 : physics_inv beyond_physics c (Game.enemy_pass dt g1)).
  { unfold Game.enemy_pass.
    pose proof (sweep_frame (Game.enemy_step dt) _ (Game.enemies g1) g1
                  (enemy_step_frame c dt) H1) as Hs.
    destruct (sweep _ _ _) as [es g2]. revert Hs. cbn [snd]. frame. }
  revert H2. generalize (Game.enemy_pass dt g1). intros g2 H2.
  assert (H3 : physics_inv beyond_physics c (Game.bullet_pass g2)).
  { unfold Game.bullet_pass.
    pose proof (sweep_frame Game.bullet_step _ (Game.bullets g2) g2
                  (bullet_step_frame c) H2) as Hs.
    destruct (sweep _ _ _) as [bs g3]. revert Hs. cbn [snd]. frame. }
  revert H3. generalize (Game.bullet_pass g2). intros g3 H3.
  assert (H4 : physics_inv beyond_physics c (Game.laser_pass dt g3)).
  { revert H3. unfold Game.laser_pass. frame. }
  revert H4. generalize (Game.laser_pass dt g3). intros g4 H4.
  unfold Game.contact_pass.
  pose proof (sweep_frame Game.contact_step _ (Game.enemies g4) g4
                (contact_step_frame c) H4) as Hs.
  destruct (sweep _ _ _) as [es g5]. revert Hs. cbn [snd]. frame.
Qed.

Lemma update_powerups_frame (c : _) (dt : Q) (g : Game.obj) :
  physics_inv beyond_physics c g -> physics_inv beyond_physics c (Game.update_powerups dt g).
Proof.
  intros HI. unfold Game.update_powerups.
  pose proof (sweep_frame (Game.powerup_step dt) _ (Game.powerups g) g
                (powerup_step_frame c dt) HI) as Hs.
  destruct (sweep _ _ _) as [us g1]. revert Hs. cbn [snd]. frame.
Qed.

Lemma update_wave_player (dt : Q) (inp : Input) (g : Game.obj) :
  Game.player (Game.update_wave_and_spawning dt inp g) = Game.player g.
Proof.
  unfold Game.update_wave_and_spawning. cbv zeta.
  repeat match goal with
         | |- context [Game.spawn_enemy_edge None ?lvl ?gs] =>
             destruct (spawn_enemy_edge_spec None lvl gs) as (? & ? & -> & _)
         | |- context [Game.spawn_wave ?gs] =>
             destruct (spawn_wave_spec gs) as (? & ? & ? & -> & _)
         end.
  destruct (Game.wave_state g); [|destruct (Game.enemies g)]; branches; reflexivity.
Qed.

(** X11. [update_physics] and [update_powerups] never move the player
    and never change the radius, speed, weapon, upgrade levels or [maxhp];
    they leave the state of the state machine, the hi-score, the persisted
    upgrades, the wave counter, the phase and its timers, the difficulty
    and the bomb clock as they were. *)
Theorem physics_frame (dt : Q) (g : Game.obj) :
  beyond_physics (Game.update_physics dt g) = beyond_physics g
  /\ beyond_physics (Game.update_powerups dt g) = beyond_physics g
  /\ beyond_physics (Game.update_powerups dt (Game.update_physics dt g)) = beyond_physics g.
Proof.
  pose proof (update_physics_frame _ dt g eq_refl) as H1.
  pose proof (update_powerups_frame _ dt _ H1) as H2.
  split; [exact (proj1 H1)|]. split; [|exact (proj1 H2)].
  (* the power-up pass alone: the timers play no part in the frame *)
  unfold Game.update_powerups.
  pose proof (sweep_frame (Game.powerup_step dt) (fun s => beyond_physics s = beyond_physics g)
                (Game.powerups g) g) as Hs.
  specialize (Hs ltac:(
    intros u s; rewrite powerup_step_eq; unfold Game.pickup, beyond_physics, build;
    destruct (PowerUp.type u); branches; cbn; intros E; exact E) eq_refl).
  destruct (sweep _ _ _) as [us g1]. cbn [snd] in Hs. rewrite <- Hs. reflexivity.
Qed.

(** X12. After a tick of the play state none of the player's four timers
    (dash, fire, rapid, shield) is negative, whatever they were before and
    whatever happened in the tick. *)
Theorem timers_settled_after_tick (dt : Q) (inp : Input) (g : Game.obj) :
  timers_settled (Game.player (Game.run_play dt inp g)).
Proof.
  unfold Game.run_play. cbv zeta.
  pose proof (update_physics_frame _ dt (Game.input_play dt inp g) eq_refl) as H1.
  pose proof (update_powerups_frame _ dt _ H1) as [_ H2].
  set (g3 := Game.update_wave_and_spawning dt inp _).
  assert (H3 : timers_settled (Game.player g3)).
  { unfold g3. rewrite update_wave_player. exact H2. }
  clearbody g3. unfold Game.check_player_death. branches; exact H3.
Qed.
End PhysicsFrame.

(** ** The collision passes *)

Section Collisions.
Context `{math.lib, random.source}.

Lemma only_hp_refl (e : Enemy.obj) : only_hp e e.
Proof. unfold only_hp. destruct e; reflexivity. Qed.

Lemma only_hp_trans (e1 e2 e3 : Enemy.obj) : only_hp e1 e2 -> only_hp e2 e3 -> only_hp e1 e3.
Proof. unfold only_hp. intros H12 H23. rewrite H23, H12. destruct e1; reflexivity. Qed.

Lemma Forall2_only_hp_refl (es : list Enemy.obj) : Forall2 only_hp es es.
Proof. induction es; constructor; [apply only_hp_refl | assumption]. Qed.

Lemma Forall2_only_hp_trans (es1 es2 es3 : list Enemy.obj) :
  Forall2 only_hp es1 es2 -> Forall2 only_hp es2 es3 -> Forall2 only_hp es1 es3.
Proof.
  intros H12. revert es3. induction H12 as [|e1 e2 es1 es2 He _ IH]; intros es3 H23;
    inversion H23; subst; constructor; [eapply only_hp_trans; eassumption | auto].
Qed.

(** The first enemy a bullet touches loses the bullet's damage; no other
    enemy changes. *)
Lemma hit_first_spec (b : Bullet.obj) (es es' : list Enemy.obj) :
  Game.hit_first b es = Some es' ->
  Forall2 only_hp es es' /\ total_hp es' == total_hp es - Bullet.dmg b.
Proof.
  revert es'. induction es as [|e es IH]; intros es' Hh; [discriminate|].
  cbn [Game.hit_first] in Hh.
  destruct (dist2 _ _ _ _ <=? _).
  - injection Hh as <-. split.
    + constructor; [reflexivity | apply Forall2_only_hp_refl].
    + unfold total_hp. cbn [fold_right Enemy.hp Enemy.set_hp]. ring.
  - destruct (Game.hit_first b es) as [es1|]; [|discriminate].
    injection Hh as <-. destruct (IH es1 eq_refl) as [H2 Ht]. split.
    + constructor; [apply only_hp_refl | exact H2].
    + unfold total_hp in *. cbn [fold_right]. rewrite Ht. ring.
Qed.

Lemma damage_of_cons (o : Owner) (b : Bullet.obj) (bs : list Bullet.obj) :
  damage_of o (b :: bs)
  = ((if same_owner (Bullet.owner b) o then Bullet.dmg b else 0) + damage_of o bs)%Z.
Proof. reflexivity. Qed.

Lemma bullet_sweep_spec (bs : list Bullet.obj) :
  forall g : Game.obj,
  let r := sweep Game.bullet_step bs g in
  let p := Game.player g in
  let open := Player.shield p <=? 0 in
  Forall2 only_hp (Game.enemies g) (Game.enemies (snd r))
  /\ total_hp (Game.enemies (snd r)) + damage_of by_player bs
     == total_hp (Game.enemies g) + damage_of by_player (fst r)
  /\ (exists h, Game.player (snd r) = Player.set_hp h p
                /\ (h + (if open then damage_of by_enemy bs else 0)
                    = Player.hp p + (if open then damage_of by_enemy (fst r) else 0))%Z)
  /\ (length (fst r) <= length bs)%nat
  /\ Game.powerups (snd r) = Game.powerups g.
Proof.
  induction bs as [|b bs IH]; intros g; cbv zeta.
  - cbn. split; [apply Forall2_only_hp_refl|]. split; [reflexivity|].
    split; [|split; [lia | reflexivity]].
    exists (Player.hp (Game.player g)). split; [symmetry; apply set_hp_same | reflexivity].
  - rewrite sweep_cons. cbn [fst snd].
    specialize (IH (snd (Game.bullet_step b g))). cbv zeta in IH.
    destruct IH as (IH2 & IHt & (h & IHp & IHh) & IHl & IHu).
    unfold Game.bullet_step in *.
    destruct (Bullet.owner b) eqn:Ho.
    + (* the player's bullet *)
      destruct (Game.hit_first b (Game.enemies g)) as [es1|] eqn:Hh; cbn [fst snd] in *.
      * destruct (hit_first_spec b _ _ Hh) as [H2 Ht].
        cbn [Game.enemies Game.set_enemies Game.player Game.set_player Game.powerups] in *.
        rewrite !damage_of_cons, Ho in *. cbn [same_owner length] in *.
        split; [eapply Forall2_only_hp_trans; eassumption|].
        split; [rewrite inject_Z_plus; rewrite Ht in IHt; lra|].
        split; [exists h; split; [exact IHp|]; destruct (Player.shield _ <=? 0); lia|].
        split; [lia | exact IHu].
      * rewrite !damage_of_cons, Ho in *. cbn [same_owner length] in *.
        split; [exact IH2|].
        split; [rewrite !inject_Z_plus; lra|].
        split; [exists h; split; [exact IHp|]; destruct (Player.shield _ <=? 0); lia|].
        split; [lia | exact IHu].
    + (* an enemy's bullet *)
      destruct (dist2 _ _ _ _ <=? _); cbn [fst snd] in *.
      * destruct (Player.shield (Game.player g) <=? 0) eqn:Hs;
          cbn [Game.enemies Game.set_enemies Game.player Game.set_player Game.powerups
               Player.shield Player.set_hp Player.hp] in *;
          rewrite ?Hs in *; rewrite !damage_of_cons, Ho in *; cbn [same_owner length] in *.
        all: split; [exact IH2|]; split; [rewrite ?Z.add_0_l; exact IHt|].
        all: split; [|split; [lia | exact IHu]].
        -- exists h. split; [rewrite IHp; reflexivity | lia].
        -- exists h. split; [exact IHp | lia].
      * rewrite !damage_of_cons, Ho in *. cbn [same_owner length] in *.
        split; [exact IH2|]. split; [rewrite ?Z.add_0_l; exact IHt|].
        split; [exists h; split; [exact IHp|]; destruct (Player.shield _ <=? 0); lia|].
        split; [lia | exact IHu].
Qed.

(** X13. The bullet pass of [update_physics] conserves damage.  It
    removes no enemy and changes nothing of an enemy but its hp; the hp the
    enemies lose in total is the damage of the player's bullets that
    disappear, and with the shield down the hp the player loses is the
    damage of the enemy bullets that disappear, while with the shield up
    the player's hp does not change.  No bullet is added, and score, coins
    and power-ups are as before: a hit pays nothing by itself. *)
Theorem bullet_pass_conserves_damage (g : Game.obj) :
  let g' := Game.bullet_pass g in
  let p := Game.player g in
  let open := Player.shield p <=? 0 in
  Forall2 only_hp (Game.enemies g) (Game.enemies g')
  /\ total_hp (Game.enemies g) - total_hp (Game.enemies g')
     == (damage_of by_player (Game.bullets g) - damage_of by_player (Game.bullets g'))%Z
  /\ (Player.hp p - Player.hp (Game.player g')
      = if open
        then damage_of by_enemy (Game.bullets g) - damage_of by_enemy (Game.bullets g')
        else 0)%Z
  /\ (length (Game.bullets g') <= length (Game.bullets g))%nat
  /\ (Player.score (Game.player g'), Player.coins (Game.player g'), Game.powerups g')
     = (Player.score p, Player.coins p, Game.powerups g).
Proof.
  cbv zeta. unfold Game.bullet_pass.
  pose proof (bullet_sweep_spec (Game.bullets g) g) as Hs. cbv zeta in Hs.
  destruct (sweep _ _ _) as [bs g1]. cbn [fst snd] in Hs.
  destruct Hs as (H2 & Ht & (h & Hp & Hh) & Hl & Hu).
  cbn [Game.enemies Game.bullets Game.set_bullets Game.player Game.powerups].
  split; [exact H2|]. split; [unfold Z.sub; rewrite inject_Z_plus, inject_Z_opp; lra|].
  rewrite Hp, Hu. cbn [Player.hp Player.set_hp Player.score Player.coins].
  split; [destruct (Player.shield _ <=? 0); lia|].
  split; [exact Hl | reflexivity].
Qed.

Lemma contact_step_eq (e : Enemy.obj) (g : Game.obj) :
  Game.contact_step e g
  = if touches (Game.player g) e
    then (None,
          Game.set_rng (Game.rng g + 80)
            (if Player.shield (Game.player g) <=? 0
             then Game.set_player
                    (Player.set_hp (Player.hp (Game.player g) - 18)%Z (Game.player g)) g
             else g))
    else (Some e, g).
Proof.
  unfold Game.contact_step, touches. cbv zeta.
  destruct (dist2 _ _ _ _ <=? _); [|reflexivity].
  destruct (Player.shield _ <=? 0); reflexivity.
Qed.

Lemma contact_sweep_count (p0 : Player.obj) (es : list Enemy.obj) :
  forall (g : Game.obj) (h : Z),
  Game.player g = Player.set_hp h p0 ->
  let r := sweep Game.contact_step es g in
  let n := Z.of_nat (length (List.filter (touches p0) es)) in
  Game.player (snd r)
    = Player.set_hp (if Player.shield p0 <=? 0 then (h - 18 * n)%Z else h) p0
  /\ Z.of_nat (Game.rng (snd r)) = (Z.of_nat (Game.rng g) + 80 * n)%Z.
Proof.
  induction es as [|e es IH]; intros g h Hp; cbv zeta.
  - cbn. rewrite Hp. split; [|lia]. destruct (Player.shield p0 <=? 0); f_equal; lia.
  - rewrite sweep_cons. cbn [fst snd List.filter].
    assert (Ht : touches (Game.player g) e = touches p0 e) by (rewrite Hp; reflexivity).
    assert (Hsh : (Player.shield (Game.player g) <=? 0) = (Player.shield p0 <=? 0))
      by (rewrite Hp; reflexivity).
    rewrite !(contact_step_eq e g), Ht, Hsh.
    destruct (touches p0 e); cbn [snd]; [|apply IH, Hp].
    destruct (Player.shield p0 <=? 0) eqn:Hs0.
    + match goal with
      | |- context [sweep Game.contact_step es ?s] =>
          destruct (IH s (h - 18)%Z) as [IHp IHr]
      end.
      { cbn [Game.player Game.set_rng Game.set_player]. rewrite Hp. reflexivity. }
      rewrite ?Hs0 in IHp; cbn iota in IHp. rewrite IHp, IHr.
      cbn [Game.rng Game.set_rng Game.set_player length].
      split; [f_equal|]; lia.
    + match goal with
      | |- context [sweep Game.contact_step es ?s] =>
          destruct (IH s h) as [IHp IHr]
      end.
      { exact Hp. }
      rewrite ?Hs0 in IHp; cbn iota in IHp. rewrite IHp, IHr.
      cbn [Game.rng Game.set_rng length].
      split; [reflexivity | lia].
Qed.

(** X14. The contact pass takes a flat 18 hp per enemy that touches the
    player when the shield is down, and nothing when the shield is up;
    either way each touching enemy is removed, and each one costs the
    generator the 80 calls of its explosion. *)
Theorem contact_costs_18_each (g : Game.obj) :
  let g' := Game.contact_pass g in
  let p := Game.player g in
  let n := Z.of_nat (length (List.filter (touches p) (Game.enemies g))) in
  Player.hp (Game.player g')
    = (if Player.shield p <=? 0 then (Player.hp p - 18 * n)%Z else Player.hp p)
  /\ (Z.of_nat (length (Game.enemies g')) + n = Z.of_nat (length (Game.enemies g)))%Z
  /\ Z.of_nat (Game.rng g') = (Z.of_nat (Game.rng g) + 80 * n)%Z.
Proof.
  cbv zeta.
  assert (Hlen : forall es : list Enemy.obj,
            (Z.of_nat (length (List.filter (fun e => negb (touches (Game.player g) e)) es))
             + Z.of_nat (length (List.filter (touches (Game.player g)) es))
             = Z.of_nat (length es))%Z).
  { induction es as [|e es' IH]; [reflexivity|].
    cbn [List.filter]. destruct (touches (Game.player g) e); cbn [negb length]; lia. }
  destruct (contact_pass_spec g) as [He _]. rewrite He, Hlen. clear He Hlen.
  unfold Game.contact_pass.
  pose proof (contact_sweep_count (Game.player g) (Game.enemies g) g
                (Player.hp (Game.player g)) (eq_sym (set_hp_same _))) as Hs.
  cbv zeta in Hs. destruct (sweep _ _ _) as [es g1]. cbn [snd] in Hs.
  destruct Hs as [Hp Hr]. cbn [Game.player Game.rng Game.set_enemies].
  rewrite Hp, Hr. cbn [Player.hp Player.set_hp].
  split; [destruct (Player.shield _ <=? 0); reflexivity|]. split; reflexivity.
Qed.
End Collisions.

(** ** The shield, the weapon and the power-ups *)

Section Protection.
Context `{math.lib, random.source}.

Lemma shielded_sweep {A : Type} (body : A -> Game.obj -> option A * Game.obj)
    (h : Z) (xs : list A) (g : Game.obj) :
  (forall e s, Player.hp (Game.player s) = h /\ 0 < Player.shield (Game.player s) ->
               Player.hp (Game.player (snd (body e s))) = h
               /\ 0 < Player.shield (Game.player (snd (body e s)))) ->
  Player.hp (Game.player g) = h /\ 0 < Player.shield (Game.player g) ->
  Player.hp (Game.player (snd (sweep body xs g))) = h
  /\ 0 < Player.shield (Game.player (snd (sweep body xs g))).
Proof.
  intros Hbody HI.
  apply (sweep_frame body
           (fun s => Player.hp (Game.player s) = h /\ 0 < Player.shield (Game.player s)));
    assumption.
Qed.

(** X15. A shield that outlasts the tick protects the player: when more
    than [dt] is left on [player.shield], [update_physics] leaves [hp] as
    it is, whatever bullets and enemies reach the player, and the shield
    is still up afterwards. *)
Theorem shield_outlasting_tick_protects (dt : Q) (g : Game.obj) :
  dt < Player.shield (Game.player g) ->
  Player.hp (Game.player (Game.update_physics dt g)) = Player.hp (Game.player g)
  /\ 0 < Player.shield (Game.player (Game.update_physics dt g)).
Proof.
  intros Hsh. set (h := Player.hp (Game.player g)).
  assert (H1 : Player.hp (Game.player (Game.advance dt g)) = h
               /\ 0 < Player.shield (Game.player (Game.advance dt g))).
  { unfold Game.advance, Player.update. cbn. split; [reflexivity|].
    unfold max. Qtests; lra. }
  unfold Game.update_physics. cbv zeta. revert H1. generalize (Game.advance dt g).
  clear Hsh. intros g1 H1.
  assert (H2 : Player.hp (Game.player (Game.enemy_pass dt g1)) = h
               /\ 0 < Player.shield (Game.player (Game.enemy_pass dt g1))).
  { unfold Game.enemy_pass.
    pose proof (shielded_sweep (Game.enemy_step dt) h (Game.enemies g1) g1) as Hs.
    destruct (sweep _ _ _) as [es g2]. cbn [snd] in Hs. apply Hs; [|exact H1].
    intros e s Hi. unfold Game.enemy_step.
    destruct (Enemy.update dt (Game.player s) (Game.bullets s) e) as [e' bs].
    unfold Game.drop_powerup. cbv zeta. branches; exact Hi. }
  revert H2. generalize (Game.enemy_pass dt g1). clear g1 H1. intros g2 H2.
  assert (H3 : Player.hp (Game.player (Game.bullet_pass g2)) = h
               /\ 0 < Player.shield (Game.player (Game.bullet_pass g2))).
  { unfold Game.bullet_pass.
    pose proof (shielded_sweep Game.bullet_step h (Game.bullets g2) g2) as Hs.
    destruct (sweep _ _ _) as [bs g3]. cbn [snd] in Hs. apply Hs; [|exact H2].
    intros b s [Hh Hp]. unfold Game.bullet_step.
    apply Qleb_gt in Hp. rewrite Hp.
    apply Qleb_gt in Hp.
    destruct (Bullet.owner b); [destruct (Game.hit_first b (Game.enemies s))|];
      branches; split; assumption. }
  revert H3. generalize (Game.bullet_pass g2). clear g2 H2. intros g3 H3.
  assert (H4 : Player.hp (Game.player (Game.laser_pass dt g3)) = h
               /\ 0 < Player.shield (Game.player (Game.laser_pass dt g3))) by exact H3.
  revert H4. generalize (Game.laser_pass dt g3). clear g3 H3. intros g4 H4.
  unfold Game.contact_pass.
  pose proof (shielded_sweep Game.contact_step h (Game.enemies g4) g4) as Hs.
  destruct (sweep _ _ _) as [es g5]. cbn [snd] in Hs. apply Hs; [|exact H4].
  intros e s [Hh Hp]. rewrite contact_step_eq.
  apply Qleb_gt in Hp. rewrite Hp.
  apply Qleb_gt in Hp.
  destruct (touches (Game.player s) e); split; assumption.
Qed.

Lemma switch_weapon_valid (dirn : Z) (p : Player.obj) :
  valid_weapon (Player.switch_weapon dirn p).
Proof.
  unfold valid_weapon, Player.switch_weapon.
  change (Z.of_nat (length Player.weapons)) with 3%Z.
  cbn [Player.weapon_index Player.set_weapon_index].
  apply Z.mod_pos_bound; lia.
Qed.

Lemma valid_weapon_lookup (p : Player.obj) :
  valid_weapon p -> is_Some (getitem Player.weapons (Player.weapon_index p)).
Proof.
  unfold valid_weapon, getitem. intros Hv.
  destruct (Z.leb_spec 0 (Player.weapon_index p)); [|lia].
  assert (Hn : (Z.to_nat (Player.weapon_index p) < 3)%nat) by lia.
  destruct (Z.to_nat _) as [|[|[|k]]]; cbn; first [lia | eexists; reflexivity].
Qed.

Lemma input_play_valid_weapon (dt : Q) (inp : Input) (g : Game.obj) :
  valid_weapon (Game.player g) -> valid_weapon (Game.player (Game.input_play dt inp g)).
Proof.
  intros Hv. unfold Game.input_play. cbv zeta.
  assert (H1 : valid_weapon (Game.player (Game.dash inp (Game.move_vector inp) g))).
  { unfold Game.dash. cbv zeta. branches; exact Hv. }
  revert H1. generalize (Game.dash inp (Game.move_vector inp) g). clear g Hv. intros g H1.
  assert (H2 : valid_weapon (Game.player (Game.movement dt (Game.move_vector inp) g)))
    by exact H1.
  revert H2. generalize (Game.movement dt (Game.move_vector inp) g). clear g H1. intros g H2.
  assert (H3 : valid_weapon (Game.player (Game.switch inp g))).
  { unfold Game.switch. cbv zeta.
    destruct (keys inp K_q), (keys inp K_e); cbn [Game.player Game.set_player];
      first [exact H2 | apply switch_weapon_valid]. }
  revert H3. generalize (Game.switch inp g). clear g H2. intros g H3.
  assert (H4 : valid_weapon (Game.player (Game.bomb inp g))).
  { unfold Game.bomb. destruct (Game.bomb_ready inp g); [|exact H3].
    cbv zeta. unfold Game.bomb_explode. cbv zeta.
    destruct (sweep _ _ _) as [es [[sc k] n]]. branches; exact H3. }
  revert H4. generalize (Game.bomb inp g). clear g H3. intros g H4.
  unfold Game.fire. cbv zeta. branches; exact H4.
Qed.

Lemma run_play_valid_weapon (dt : Q) (inp : Input) (g : Game.obj) :
  valid_weapon (Game.player g) -> valid_weapon (Game.player (Game.run_play dt inp g)).
Proof.
  intros Hv. apply (input_play_valid_weapon dt inp) in Hv.
  unfold Game.run_play. cbv zeta.
  pose proof (update_physics_frame _ dt (Game.input_play dt inp g) eq_refl) as H1.
  pose proof (update_powerups_frame _ dt _ H1) as [H2 _].
  set (g3 := Game.update_wave_and_spawning dt inp _).
  assert (H3 : valid_weapon (Game.player g3)).
  { unfold g3. rewrite update_wave_player. unfold beyond_physics, build in H2.
    unfold valid_weapon in *. injection H2 as _ _ _ _ _ _ _ _ _ _ _ _ _ _ _ -> _ _. exact Hv. }
  clearbody g3. unfold Game.check_player_death. branches; exact H3.
Qed.

Lemma buy_valid_weapon (sel : Z) (g : Game.obj) :
  valid_weapon (Game.player g) -> valid_weapon (Game.player (Game.buy sel g)).
Proof.
  intros Hv. unfold Game.buy, Game.apply_option.
  destruct (getitem Game.opts sel) as [[[label key] cost]|]; [|exact Hv].
  cbv zeta. branches; exact Hv.
Qed.

(** X16. The weapon index is an index of the weapon list all along a
    run: it is one in a new game, every tick of play and every purchase
    keeps it one, so the lookup [self.player.weapons[...]] of [input_play]
    never fails. *)
Theorem weapon_lookup_never_fails (saved_hiscore : Z) (saved_upgrades : gmap string Z)
    (acts : list Action) :
  let g := fold_left perform acts (Game.start_game (Game.init saved_hiscore saved_upgrades)) in
  valid_weapon (Game.player g)
  /\ is_Some (getitem Player.weapons (Player.weapon_index (Game.player g))).
Proof.
  cbv zeta.
  assert (Hinv : valid_weapon (Game.player
                   (fold_left perform acts
                      (Game.start_game (Game.init saved_hiscore saved_upgrades))))).
  { assert (Hstart : valid_weapon
                       (Game.player (Game.start_game (Game.init saved_hiscore saved_upgrades))))
      by (unfold valid_weapon; cbn; lia).
    revert Hstart. generalize (Game.start_game (Game.init saved_hiscore saved_upgrades)).
    induction acts as [|a acts IH]; intros g Hg; [exact Hg|].
    cbn [fold_left]. apply IH. destruct a; cbn [perform];
      [apply run_play_valid_weapon | apply buy_valid_weapon]; exact Hg. }
  split; [exact Hinv | apply valid_weapon_lookup, Hinv].
Qed.

Lemma reached_ext (p q : Player.obj) (u : PowerUp.obj) :
  (Player.x q, Player.y q, Player.r q) = (Player.x p, Player.y p, Player.r p) ->
  reached q u = reached p u.
Proof. intros E. injection E as Ex Ey Er. unfold reached. rewrite Ex, Ey, Er. reflexivity. Qed.

Lemma pickup_place (k : PowerUp.Kind) (p : Player.obj) :
  (Player.x (Game.pickup k p), Player.y (Game.pickup k p), Player.r (Game.pickup k p))
  = (Player.x p, Player.y p, Player.r p).
Proof. destruct k; reflexivity. Qed.

Lemma powerup_sweep_spec (dt : Q) (p0 : Player.obj) (us : list PowerUp.obj) :
  forall g : Game.obj,
  (Player.x (Game.player g), Player.y (Game.player g), Player.r (Game.player g))
  = (Player.x p0, Player.y p0, Player.r p0) ->
  let got u := reached p0 (fallen dt u) in
  let r := sweep (Game.powerup_step dt) us g in
  fst r = map (fallen dt)
            (List.filter (fun u => negb (got u) && negb (lost (fallen dt u))) us)
  /\ snd r = Game.set_player
               (fold_left (fun q u => Game.pickup (PowerUp.type u) q)
                  (List.filter got us) (Game.player g)) g.
Proof.
  induction us as [|u us IH]; intros g Hg; cbv zeta.
  - cbn. split; [reflexivity|]. destruct g; reflexivity.
  - rewrite sweep_cons, powerup_step_eq. cbn [List.filter].
    rewrite (reached_ext p0 (Game.player g) _ Hg). unfold lost at 1.
    destruct (reached p0 (fallen dt u)); cbn [fst snd negb andb fold_left map].
    + destruct (IH (Game.set_player (Game.pickup (PowerUp.type u) (Game.player g)) g))
        as [IH1 IH2].
      { cbn [Game.player Game.set_player]. rewrite pickup_place. exact Hg. }
      rewrite IH1, IH2. split; [reflexivity|]. destruct g; reflexivity.
    + destruct (IH g Hg) as [IH1 IH2].
      destruct (PowerUp.y (fallen dt u) >? (HEIGHT + 40)%Z);
        cbn [fst snd negb map]; rewrite IH1, IH2; split; reflexivity.
Qed.

(** X17. [update_powerups] as one pass.  Every power-up falls by
    [40*dt]; those that then lie within reach of the player are picked up,
    each exactly once and in list order, also when several are reached in
    the same tick; those that have fallen past [HEIGHT + 40] without being
    reached are dropped; the others stay, in order.  Nothing but the
    player and the list of power-ups changes. *)
Theorem powerups_fall_and_are_picked_once (dt : Q) (g : Game.obj) :
  let p := Game.player g in
  let got u := reached p (fallen dt u) in
  Game.update_powerups dt g
  = Game.set_powerups
      (map (fallen dt)
         (List.filter (fun u => negb (got u) && negb (lost (fallen dt u))) (Game.powerups g)))
      (Game.set_player
         (fold_left (fun q u => Game.pickup (PowerUp.type u) q)
            (List.filter got (Game.powerups g)) p) g).
Proof.
  cbv zeta. unfold Game.update_powerups.
  pose proof (powerup_sweep_spec dt (Game.player g) (Game.powerups g) g eq_refl) as Hs.
  cbv zeta in Hs. destruct (sweep _ _ _) as [us g1]. cbn [fst snd] in Hs.
  destruct Hs as [-> ->]. reflexivity.
Qed.
End Protection.

(** ** Spawning between the waves *)

Section Spawning.
Context `{math.lib, random.source}.

Lemma enemy_init_newborn (x y : Q) (k : Enemy.Kind) (lvl : Z) (n : nat) :
  (0 <= lvl)%Z -> newborn (Enemy.init x y k lvl n).
Proof.
  intros Hl. unfold newborn, Enemy.init. cbn.
  pose proof (uniform_range 0.6 1.8 n ltac:(lra)) as [Hc0 Hc1]. specialize (Hc1 ltac:(lra)).
  destruct (Enemy.is_boss k).
  - repeat split; try reflexivity; try assumption.
    change 0 with (inject_Z 0). rewrite <- Zlt_Qlt. lia.
  - repeat split; try reflexivity; try assumption.
    change 0 with (inject_Z 0). rewrite <- Zlt_Qlt. lia.
Qed.

Lemma spawn_edge_newborn (lvl : Z) (g : Game.obj) :
  (0 <= lvl)%Z ->
  exists (e : Enemy.obj) (n : nat),
    Game.spawn_enemy_edge None lvl g = Game.set_rng n (Game.set_enemies (Game.enemies g ++ [e]) g)
    /\ Enemy.level e = lvl /\ at_edge e /\ Enemy.is_boss (Enemy.kind e) = false /\ newborn e.
Proof.
  intros Hl. unfold Game.spawn_enemy_edge.
  pose proof (randint_range 50 (WIDTH - 50) (S (Game.rng g)) ltac:(vm_compute; discriminate)) as Hx.
  pose proof (randint_range 50 (HEIGHT - 50) (S (Game.rng g)) ltac:(vm_compute; discriminate)) as Hy.
  set (x := random.randint 50 (WIDTH - 50) (S (Game.rng g))) in *.
  set (y := random.randint 50 (HEIGHT - 50) (S (Game.rng g))) in *.
  destruct (random.choice _ _ _); cbv zeta iota beta.
  all: eexists; eexists; split; [reflexivity|]; split; [reflexivity|].
  all: split; [|split; [apply choices_kind | apply enemy_init_newborn, Hl]].
  all: unfold at_edge; cbn [Enemy.init Enemy.x Enemy.y].
  all: eexists; eexists; split; [reflexivity|]; split; [reflexivity|]; tauto.
Qed.

Lemma spawn_delay_range (w : Z) :
  (0 <= w)%Z -> 0.3 <= max 0.3 (1.2 / (1 + w * 0.08)) <= 1.2.
Proof.
  intros Hw. assert (Hq : 0 <= inject_Z w) by (change 0 with (inject_Z 0); rewrite <- Zle_Qle; lia).
  assert (Hd : 1.2 / (1 + w * 0.08) <= 1.2).
  { apply Qle_shift_div_r; lra. }
  unfold max. Qtests; lra.
Qed.

(** X18. The trickle of enemies during an active wave.  While the spawn
    timer has more than [dt] left, [update_wave_and_spawning] only counts
    it down: no enemy appears and the generator is not called.  When it
    runs out it is set again to [max(0.3, 1.2/(1 + wave*0.08))], between
    0.3 and 1.2 seconds, one call of the generator decides with chance 0.6
    whether an enemy appears, and then exactly one appears: at an edge, of
    level [1 + wave//2], never a boss, with the hp of a new enemy.  The
    wave number, the player, the bullets and the power-ups are not
    touched, and no enemy is removed. *)
Theorem trickle_spawning (dt : Q) (inp : Input) (g : Game.obj) :
  Game.wave_state g = Game.active -> (0 <= Game.wave g)%Z ->
  let g' := Game.update_wave_and_spawning dt inp g in
  (Game.wave g', Game.player g', Game.bullets g', Game.powerups g', Game.state g')
  = (Game.wave g, Game.player g, Game.bullets g, Game.powerups g, Game.state g)
  /\ (dt < Game.spawn_timer g ->
        Game.enemies g' = Game.enemies g /\ Game.rng g' = Game.rng g
        /\ Game.spawn_timer g' == Game.spawn_timer g - dt)
  /\ (Game.spawn_timer g <= dt ->
        Game.spawn_timer g' = max 0.3 (1.2 / (1 + Game.wave g * 0.08))
        /\ 0.3 <= Game.spawn_timer g' <= 1.2
        /\ if random.random (Game.rng g) <? 0.6
           then exists e, Game.enemies g' = Game.enemies g ++ [e]
                          /\ Enemy.level e = (1 + Game.wave g / 2)%Z
                          /\ at_edge e /\ Enemy.is_boss (Enemy.kind e) = false /\ newborn e
           else Game.enemies g' = Game.enemies g /\ Game.rng g' = S (Game.rng g)).
Proof.
  intros Ha Hw. cbv zeta. unfold Game.update_wave_and_spawning. rewrite Ha. cbv zeta.
  assert (Hlvl : (0 <= 1 + Game.wave g / 2)%Z) by (Z.div_mod_to_equations; lia).
  pose proof (spawn_delay_range (Game.wave g) Hw) as Hdelay.
  set (g1 := match Game.enemies g with
             | [] => Game.set_last_interlude (Some (now inp))
                       (Game.set_interlude_time 6.0 (Game.set_wave_state Game.interlude g))
             | _ :: _ => g
             end).
  assert (E1 : (Game.wave g1, Game.player g1, Game.bullets g1, Game.powerups g1, Game.state g1,
                Game.enemies g1, Game.rng g1, Game.spawn_timer g1)
               = (Game.wave g, Game.player g, Game.bullets g, Game.powerups g, Game.state g,
                  Game.enemies g, Game.rng g, Game.spawn_timer g))
    by (unfold g1; destruct (Game.enemies g) eqn:E0; cbn; rewrite ?E0; reflexivity).
  clearbody g1. injection E1 as Ew Ep Eb Eu Es Ee Er Et.
  cbn [Game.spawn_timer Game.set_spawn_timer Game.wave Game.rng Game.set_rng].
  rewrite ?Et, ?Ew, ?Er.
  destruct (Game.spawn_timer g - dt <=? 0) eqn:Ht;
    [apply Qle_bool_iff in Ht | apply Qleb_gt in Ht].
  - destruct (random.random (Game.rng g) <? 0.6) eqn:Hr.
    + match goal with
      | |- context [Game.spawn_enemy_edge None ?lvl ?s] =>
          destruct (spawn_edge_newborn lvl s Hlvl) as (e & n & -> & Hl & Hedge & Hk & Hnew)
      end.
      cbn. rewrite Ew, Ep, Eb, Eu, Es, Ee.
      split; [reflexivity|]. split; [intros; lra|]. intros _.
      split; [reflexivity|]. split; [exact Hdelay|]. exists e. tauto.
    + cbn. rewrite ?Ew, ?Ep, ?Eb, ?Eu, ?Es, ?Ee, ?Er.
      split; [reflexivity|]. split; [intros; lra|]. intros _.
      split; [reflexivity|]. split; [exact Hdelay|]. split; reflexivity.
  - cbn. rewrite ?Ew, ?Ep, ?Eb, ?Eu, ?Es, ?Ee, ?Er, ?Et.
    split; [reflexivity|]. split; [intros _; repeat split; reflexivity|]. intros; lra.
Qed.
End Spawning.

(** ** Screens *)

Section Screens.
Context `{math.lib, random.source}.

(** X19. What a key press does in the event loop of [run]: it changes
    the screen and nothing else.  M leads to the menu from every screen;
    P and ESC toggle between play and pause, so pressing one of them twice
    gives back the very same game; the shop opens on S exactly from play
    during an interlude; no key leads to the game-over screen, and in the
    menu no key does anything. *)
Theorem keydown_changes_the_screen_only (k : Key) (g : Game.obj) :
  let g' := Game.on_keydown k g in
  g' = Game.set_state (Game.state g') g
  /\ (k = K_m -> Game.state g' = Game.menu)
  /\ (k = K_p \/ k = K_ESCAPE ->
        (Game.state g = Game.play -> Game.state g' = Game.pause)
        /\ (Game.state g = Game.pause -> Game.state g' = Game.play)
        /\ (Game.state g = Game.play \/ Game.state g = Game.pause ->
              Game.on_keydown k g' = g))
  /\ (Game.state g' = Game.shop <->
        (Game.state g = Game.shop /\ k <> K_m)
        \/ (k = K_s /\ Game.state g = Game.play /\ Game.wave_state g = Game.interlude))
  /\ (Game.state g' = Game.gameover -> Game.state g = Game.gameover)
  /\ (Game.state g = Game.menu -> g' = g).
Proof.
  cbv zeta. destruct g as [st hs pu p es bs ls us w wt sp ws it df lb li n].
  cbn [Game.state Game.wave_state].
  split; [destruct k, st, ws; reflexivity|].
  split; [intros ->; destruct st, ws; reflexivity|].
  split.
  { intros [-> | ->]; (split; [intros ->; destruct ws; reflexivity|]);
      (split; [intros ->; destruct ws; reflexivity|]);
      intros [-> | ->]; destruct ws; reflexivity. }
  split.
  { split.
    - destruct k, st, ws; intros E; try discriminate E;
        first [left; split; [reflexivity | discriminate]
              | right; repeat split; reflexivity].
    - intros [[-> Hk] | (-> & -> & ->)]; [|reflexivity].
      destruct k, ws; first [reflexivity | contradiction]. }
  split.
  { destruct k, st, ws; intros E; first [reflexivity | discriminate E]. }
  intros ->; destruct k, ws; reflexivity.
Qed.

Lemma buy_shape (sel : Z) (g : Game.obj) :
  let p := Game.player g in
  let g' := Game.buy sel g in
  let p' := Game.player g' in
  (0 <= Player.coins p -> 0 <= Player.coins p' <= Player.coins p)%Z
  /\ (forall key, get0 (Game.persist_upgrades g) key <= get0 (Game.persist_upgrades g') key)%Z
  /\ (Player.maxhp p <= Player.maxhp p')%Z
  /\ (Player.bombs p <= Player.bombs p')%Z
  /\ Player.speed p' = Player.speed p
  /\ (Game.state g', Game.enemies g', Game.bullets g', Game.powerups g', Game.wave g',
      Game.hiscore g', Player.score p', position p')
     = (Game.state g, Game.enemies g, Game.bullets g, Game.powerups g, Game.wave g,
        Game.hiscore g, Player.score p, position p).
Proof.
  cbv zeta. unfold Game.buy.
  assert (Hget : forall (m : gmap string Z) (k key : string),
             (get0 m key <= get0 (<[k := (get0 m k + 1)%Z]> m) key)%Z).
  { intros m k key. unfold get0. destruct (decide (k = key)) as [->|Hne].
    - rewrite lookup_insert_eq. cbn. lia.
    - rewrite lookup_insert_ne by exact Hne. lia. }
  destruct (getitem Game.opts sel) as [[[label key] cost]|] eqn:Hsel;
    [|repeat split; intros; lia].
  assert (Hcost : (0 <= cost)%Z).
  { unfold getitem in Hsel.
    assert (Hin : In (label, key, cost) Game.opts).
    { destruct (0 <=? sel)%Z; [|destruct (_ <=? sel)%Z; [|discriminate]];
        eapply lookup_In; exact Hsel. }
    cbn in Hin. repeat destruct Hin as [Hin|Hin]; try inversion Hin; try lia; contradiction. }
  destruct (Z.geb_spec (Player.coins (Game.player g)) cost) as [Hc|Hc];
    [|repeat split; intros; lia].
  unfold Game.apply_option. cbv zeta.
  branches; cbn; repeat split; intros; try apply Hget; lia.
Qed.

Lemma shop_event_shape (sel : Z) (g : Game.obj) (e : Event) :
  e <> QUIT -> (0 <= sel < 5)%Z ->
  let r := Game.shop_event (sel, g) e in
  (0 <= fst r < 5)%Z
  /\ (snd r = g \/ snd r = Game.buy sel g \/ snd r = Game.set_state Game.play g).
Proof.
  intros Hq Hs. cbv zeta. unfold Game.shop_event.
  change (Z.of_nat (length Game.opts)) with 5%Z.
  destruct e as [| k |]; [contradiction| |cbn; tauto].
  destruct k; cbn [fst snd]; try tauto.
  all: split; [apply Z.mod_pos_bound; lia | tauto].
Qed.

(** X20. The shop never gives coins and never takes more than the
    player has: over any batch of events handled by [shop_loop] (the
    window is not closed), with a selection that starts on a line of the
    list and coins that are not negative, the selection stays on a line,
    the coins stay between 0 and what they were, no upgrade level,
    [maxhp] or bomb count goes down, [speed] is not changed by any
    purchase, and the enemies, bullets, power-ups, wave, score, hi-score
    and position of the run are as they were. *)
Theorem shop_batch_is_safe (evs : list Event) (sel : Z) (g : Game.obj) :
  Forall (fun e => e <> QUIT) evs -> (0 <= sel < 5)%Z -> (0 <= Player.coins (Game.player g))%Z ->
  let r := fold_left Game.shop_event evs (sel, g) in
  let p := Game.player g in
  let p' := Game.player (snd r) in
  (0 <= fst r < 5)%Z
  /\ (0 <= Player.coins p' <= Player.coins p)%Z
  /\ (forall key,
        get0 (Game.persist_upgrades g) key <= get0 (Game.persist_upgrades (snd r)) key)%Z
  /\ (Player.maxhp p <= Player.maxhp p')%Z
  /\ (Player.bombs p <= Player.bombs p')%Z
  /\ Player.speed p' = Player.speed p
  /\ (Game.enemies (snd r), Game.bullets (snd r), Game.powerups (snd r), Game.wave (snd r),
      Game.hiscore (snd r), Player.score p', position p')
     = (Game.enemies g, Game.bullets g, Game.powerups g, Game.wave g,
        Game.hiscore g, Player.score p, position p).
Proof.
  intros Hq. revert sel g. induction Hq as [|e evs He _ IH]; intros sel g Hs Hc; cbv zeta.
  - cbn. repeat split; lia.
  - cbn [fold_left].
    destruct (shop_event_shape sel g e He Hs) as [Hsel Hg]. cbv zeta in Hsel, Hg.
    destruct (Game.shop_event (sel, g) e) as [sel1 g1]. cbn [fst snd] in Hsel, Hg.
    pose proof (buy_shape sel g) as Hb. cbv zeta in Hb.
    destruct Hb as (Hb1 & Hb2 & Hb3 & Hb4 & Hb5 & Hb6). specialize (Hb1 Hc).
    injection Hb6 as _ Hb6a Hb6b Hb6c Hb6d Hb6e Hb6f Hb6g Hb6h.
    assert (Hg1 :
      (0 <= Player.coins (Game.player g1) <= Player.coins (Game.player g))%Z
      /\ (forall key, get0 (Game.persist_upgrades g) key <= get0 (Game.persist_upgrades g1) key)%Z
      /\ (Player.maxhp (Game.player g) <= Player.maxhp (Game.player g1))%Z
      /\ (Player.bombs (Game.player g) <= Player.bombs (Game.player g1))%Z
      /\ Player.speed (Game.player g1) = Player.speed (Game.player g)
      /\ (Game.enemies g1, Game.bullets g1, Game.powerups g1, Game.wave g1,
          Game.hiscore g1, Player.score (Game.player g1), position (Game.player g1))
         = (Game.enemies g, Game.bullets g, Game.powerups g, Game.wave g,
            Game.hiscore g, Player.score (Game.player g), position (Game.player g))).
    { destruct Hg as [-> | [-> | ->]].
      - repeat split; intros; lia.
      - unfold position. rewrite Hb6a, Hb6b, Hb6c, Hb6d, Hb6e, Hb6f, Hb6g, Hb6h.
        repeat split; try tauto; try lia.
      - cbn. repeat split; intros; lia. }
    destruct Hg1 as (G1 & G2 & G3 & G4 & G5 & G6).
    specialize (IH sel1 g1 Hsel ltac:(lia)). cbv zeta in IH.
    destruct IH as (I0 & I1 & I2 & I3 & I4 & I5 & I6).
    split; [exact I0|]. split; [lia|].
    split; [intros key; specialize (G2 key); specialize (I2 key); lia|].
    split; [lia|]. split; [lia|]. split; [congruence|]. rewrite I6. exact G6.
Qed.

Lemma shop_event_state (s : Z * Game.obj) (e : Event) :
  Game.state (snd (Game.shop_event s e))
  = match e with
    | KEYDOWN K_ESCAPE => Game.play
    | _ => Game.state (snd s)
    end.
Proof.
  destruct s as [sel g]. pose proof (buy_shape sel g) as Hb. cbv zeta in Hb.
  destruct Hb as (_ & _ & _ & _ & _ & Hb). injection Hb as Hst _ _ _ _ _ _ _ _.
  destruct e as [| k |]; [reflexivity| |reflexivity].
  destruct k; try reflexivity. cbn. exact Hst.
Qed.

Lemma shop_batch_state (evs : list Event) (s : Z * Game.obj) :
  Game.state (snd (fold_left Game.shop_event evs s))
  = if existsb (pressed K_ESCAPE) evs
    then Game.play else Game.state (snd s).
Proof.
  revert s. induction evs as [|e evs IH]; intros s; [reflexivity|].
  cbn [fold_left existsb]. rewrite IH, shop_event_state.
  destruct (existsb _ evs); [destruct (pressed _ e); reflexivity|].
  destruct e as [| k |]; [reflexivity| |reflexivity]. destruct k; reflexivity.
Qed.

(** X21. The shop closes on ESC, after the batch: the turn that reads a
    batch of events containing ESC (and no QUIT, which ends the program)
    handles every event of the batch, also those after ESC, and is the
    last one, whatever would follow; a batch without ESC leaves the shop
    open for the next turn. *)
Theorem shop_closes_after_the_batch (evs : list Event) (rest : list (list Event))
    (sel : Z) (g : Game.obj) :
  Forall (fun e => e <> QUIT) evs ->
  Game.state g = Game.shop ->
  let r := fold_left Game.shop_event evs (sel, g) in
  if existsb (pressed K_ESCAPE) evs
  then Game.shop_turns (evs :: rest) sel g = snd r /\ Game.state (snd r) = Game.play
  else Game.shop_turns (evs :: rest) sel g = Game.shop_turns rest (fst r) (snd r)
       /\ Game.state (snd r) = Game.shop.
Proof.
  intros _ Hst. cbv zeta. cbn [Game.shop_turns]. rewrite Hst.
  pose proof (shop_batch_state evs (sel, g)) as Hs.
  destruct (fold_left Game.shop_event evs (sel, g)) as [sel1 g1]. cbn [fst snd] in *.
  destruct (existsb _ evs).
  - split; [|exact Hs]. destruct rest; [reflexivity|]. cbn [Game.shop_turns]. rewrite Hs.
    reflexivity.
  - split; [reflexivity|]. rewrite Hs. exact Hst.
Qed.

(** X22. What a purchase of a permanent upgrade is worth.  No purchase
    changes the player's speed during the run.  In the next run (after
    [start_game]) the player starts with [PLAYER_MAX_HP] plus 20 per hp
    level and [PLAYER_BASE_SPEED] plus 30 per speed level, the level just
    bought included; the damage level stays in the saved upgrades but the
    new player has damage level 0; coins and score start at 0 and the
    bombs at 2. *)
Theorem upgrades_across_runs (sel : Z) (label key : string) (cost : Z) (g : Game.obj) :
  getitem Game.opts sel = Some (label, key, cost) ->
  permanent key = true ->
  (cost <= Player.coins (Game.player g))%Z ->
  let g1 := Game.buy sel g in
  let g2 := Game.start_game g1 in
  let lvl k := (get0 (Game.persist_upgrades g) k + if (k =? key)%string then 1 else 0)%Z in
  Player.speed (Game.player g1) = Player.speed (Game.player g)
  /\ (forall k, get0 (Game.persist_upgrades g2) k = lvl k)
  /\ Player.maxhp (Game.player g2) = (PLAYER_MAX_HP + 20 * lvl "hp")%Z
  /\ Player.hp (Game.player g2) = (PLAYER_MAX_HP + 20 * lvl "hp")%Z
  /\ Player.speed (Game.player g2) = (PLAYER_BASE_SPEED + 30 * lvl "speed")%Z
  /\ get0 (Player.upgrades (Game.player g2)) "damage" = 0%Z
  /\ (Player.coins (Game.player g2), Player.score (Game.player g2),
      Player.bombs (Game.player g2)) = (0, 0, 2)%Z.
Proof.
  intros Hsel Hperm Hc. cbv zeta.
  assert (Hpers : Game.persist_upgrades (Game.buy sel g)
                  = <[key := (get0 (Game.persist_upgrades g) key + 1)%Z]>
                      (Game.persist_upgrades g)).
  { unfold Game.buy. rewrite Hsel.
    destruct (Z.geb_spec (Player.coins (Game.player g)) cost); [|lia].
    unfold Game.apply_option. unfold permanent in Hperm. rewrite Hperm. reflexivity. }
  assert (Hlvl : forall k, get0 (Game.persist_upgrades (Game.buy sel g)) k
                           = (get0 (Game.persist_upgrades g) k
                              + if (k =? key)%string then 1 else 0)%Z).
  { intros k. rewrite Hpers. unfold get0. destruct (String.eqb_spec k key) as [->|Hne].
    - rewrite lookup_insert_eq. reflexivity.
    - rewrite lookup_insert_ne by congruence. lia. }
  split; [apply (buy_shape sel g)|].
  unfold Game.start_game, Game.reset_run. cbv zeta.
  cbn [Game.player Game.set_player Game.set_state Game.set_enemies Game.set_bullets
       Game.set_lasers Game.set_wave Game.set_wave_time Game.set_spawn_timer
       Game.set_wave_state Game.set_interlude_time Game.set_difficulty Game.persist_upgrades
       Player.maxhp Player.hp Player.speed Player.set_maxhp Player.set_hp Player.set_speed
       Player.coins Player.score Player.bombs Player.upgrades Player.init].
  rewrite !Hlvl. unfold PLAYER_MAX_HP, PLAYER_BASE_SPEED.
  repeat split; try lia. intros k. apply Hlvl.
Qed.
End Screens.

(** X23. The game-over screen waits for ENTER: one call of
    [gameover_loop] ends the program when the batch of events holds a
    QUIT, wherever it stands; otherwise it leads to the menu when ENTER
    was pressed and leaves the game as it is when not.  No other key does
    anything, and nothing but the screen changes. *)
Theorem gameover_waits_for_enter (evs : list Event) (g : Game.obj) :
  gameover_loop evs g
  = if existsb closes evs then None
    else if existsb (pressed K_RETURN) evs
         then Some (Game.set_state Game.menu g)
         else Some g.
Proof.
  assert (Hmenu : forall evs g,
            gameover_loop evs (Game.set_state Game.menu g)
            = if existsb closes evs then None else Some (Game.set_state Game.menu g)).
  { clear. induction evs as [|e evs IH]; intros g; [reflexivity|].
    cbn [gameover_loop existsb]. destruct e as [| k |]; cbn [closes orb].
    - reflexivity.
    - destruct k; apply (IH g).
    - apply IH. }
  revert g. induction evs as [|e evs IH]; intros g; [reflexivity|].
  cbn [gameover_loop existsb]. destruct e as [| k |]; cbn [closes orb].
  - reflexivity.
  - destruct k; try (rewrite IH; reflexivity).
    rewrite Hmenu. change (pressed K_RETURN (KEYDOWN K_RETURN)) with true.
    reflexivity.
  - apply IH.
Qed.

(** X24. A new run forgets the old one, up to what [reset_run] does not
    reset.  [start_game] leads to play with a new player, no enemies,
    bullets or beams, wave 0 and a first interlude of four seconds;
    starting twice is starting once.  The hi-score, the saved upgrades,
    the generator, the time of the last bomb and the power-ups lying
    around are carried over from the game before, and the new run depends
    on nothing else of it. *)
Theorem new_run_forgets_the_old (g : Game.obj) :
  let g' := Game.start_game g in
  Game.start_game g' = g'
  /\ (Game.state g', Game.enemies g', Game.bullets g', Game.lasers g', Game.wave g',
      Game.wave_state g', Game.interlude_time g')
     = (Game.play, [], [], [], 0%Z, Game.interlude, 4.0)
  /\ (Game.hiscore g', Game.persist_upgrades g', Game.rng g', Game.last_bomb g',
      Game.last_interlude g', Game.powerups g')
     = (Game.hiscore g, Game.persist_upgrades g, Game.rng g, Game.last_bomb g,
        Game.last_interlude g, Game.powerups g)
  /\ forall g2 : Game.obj,
       (Game.hiscore g2, Game.persist_upgrades g2, Game.rng g2, Game.last_bomb g2,
        Game.last_interlude g2, Game.powerups g2)
       = (Game.hiscore g, Game.persist_upgrades g, Game.rng g, Game.last_bomb g,
          Game.last_interlude g, Game.powerups g) ->
       Game.start_game g2 = g'.
Proof.
  cbv zeta.
  assert (Hkept : forall g1 : Game.obj,
            (Game.hiscore (Game.start_game g1), Game.persist_upgrades (Game.start_game g1),
             Game.rng (Game.start_game g1), Game.last_bomb (Game.start_game g1),
             Game.last_interlude (Game.start_game g1), Game.powerups (Game.start_game g1))
            = (Game.hiscore g1, Game.persist_upgrades g1, Game.rng g1, Game.last_bomb g1,
               Game.last_interlude g1, Game.powerups g1)) by reflexivity.
  assert (Hdep : forall g1 g2 : Game.obj,
            (Game.hiscore g2, Game.persist_upgrades g2, Game.rng g2, Game.last_bomb g2,
             Game.last_interlude g2, Game.powerups g2)
            = (Game.hiscore g1, Game.persist_upgrades g1, Game.rng g1, Game.last_bomb g1,
               Game.last_interlude g1, Game.powerups g1) ->
            Game.start_game g2 = Game.start_game g1).
  { intros g1 g2 E. injection E as E1 E2 E3 E4 E5 E6.
    unfold Game.start_game, Game.reset_run. cbv zeta.
    destruct g1, g2. cbn [Game.hiscore Game.persist_upgrades Game.rng Game.last_bomb
                          Game.last_interlude Game.powerups] in *.
    subst. reflexivity. }
  split; [apply Hdep, Hkept|]. split; [reflexivity|]. split; [apply Hkept|].
  intros g2. apply Hdep.
Qed.

(** ** Concrete runs of the further properties *)

Lemma no_direction_witness :
  no_direction no_keys
  /\ Player.x (Game.player (Game.input_play (1 # 60) no_keys g_start))
     == Player.x (Game.player g_start).
Proof.
  assert (Hn : no_direction no_keys) by (repeat split).
  split; [exact Hn|].
  pose proof (no_direction_no_motion (1 # 60) no_keys g_start Hn) as Hm.
  cbv zeta in Hm. destruct Hm as (_ & _ & Hx & _). apply Hx.
  split; vm_compute; discriminate.
Defined.

Lemma shield_witness :
  (1 # 60) < Player.shield (Game.player g_shielded)
  /\ Player.hp (Game.player (Game.update_physics (1 # 60) g_shielded))
     = Player.hp (Game.player g_shielded).
Proof.
  assert (Hs : (1 # 60) < Player.shield (Game.player g_shielded)) by (vm_compute; reflexivity).
  split; [exact Hs|].
  exact (proj1 (shield_outlasting_tick_protects (1 # 60) g_shielded Hs)).
Defined.

Lemma trickle_witness :
  (Game.wave_state g_wave1 = Game.active /\ (0 <= Game.wave g_wave1)%Z)
  /\ (Game.wave (Game.update_wave_and_spawning (1 # 60) no_keys g_wave1),
      Game.player (Game.update_wave_and_spawning (1 # 60) no_keys g_wave1),
      Game.bullets (Game.update_wave_and_spawning (1 # 60) no_keys g_wave1),
      Game.powerups (Game.update_wave_and_spawning (1 # 60) no_keys g_wave1),
      Game.state (Game.update_wave_and_spawning (1 # 60) no_keys g_wave1))
     = (Game.wave g_wave1, Game.player g_wave1, Game.bullets g_wave1,
        Game.powerups g_wave1, Game.state g_wave1).
Proof.
  assert (Ha : Game.wave_state g_wave1 = Game.active) by (vm_compute; reflexivity).
  assert (Hw : (0 <= Game.wave g_wave1)%Z) by (vm_compute; discriminate).
  split; [split; assumption|].
  pose proof (trickle_spawning (1 # 60) no_keys g_wave1 Ha Hw) as Ht.
  cbv zeta in Ht. exact (proj1 Ht).
Defined.

Lemma shop_batch_witness :
  (0 <= Player.coins (Game.player g_rich))%Z
  /\ (0 <= Player.coins
             (Game.player
                (snd (fold_left Game.shop_event
                        [KEYDOWN K_DOWN; KEYDOWN K_RETURN; KEYDOWN K_RETURN; KEYDOWN K_ESCAPE]
                        (0%Z, g_rich))))
      <= Player.coins (Game.player g_rich))%Z.
Proof.
  assert (Hc : (0 <= Player.coins (Game.player g_rich))%Z) by (vm_compute; discriminate).
  split; [exact Hc|].
  assert (Hq : Forall (fun e => e <> QUIT)
                 [KEYDOWN K_DOWN; KEYDOWN K_RETURN; KEYDOWN K_RETURN; KEYDOWN K_ESCAPE])
    by (repeat constructor; discriminate).
  pose proof (shop_batch_is_safe _ 0%Z g_rich Hq ltac:(lia) Hc) as Hs.
  cbv zeta in Hs. exact (proj1 (proj2 Hs)).
Defined.

Lemma shop_closes_witness :
  Game.state g_rich = Game.shop
  /\ Game.state
       (Game.shop_turns [[KEYDOWN K_ESCAPE; KEYDOWN K_RETURN]; [KEYDOWN K_RETURN]] 0%Z g_rich)
     = Game.play.
Proof.
  assert (Hst : Game.state g_rich = Game.shop) by (vm_compute; reflexivity).
  split; [exact Hst|].
  assert (Hq : Forall (fun e => e <> QUIT) [KEYDOWN K_ESCAPE; KEYDOWN K_RETURN])
    by (repeat constructor; discriminate).
  pose proof (shop_closes_after_the_batch [KEYDOWN K_ESCAPE; KEYDOWN K_RETURN]
                [[KEYDOWN K_RETURN]] 0%Z g_rich Hq Hst) as Hc.
  cbv zeta in Hc.
  assert (E : existsb (pressed K_ESCAPE) [KEYDOWN K_ESCAPE; KEYDOWN K_RETURN] = true)
    by (vm_compute; reflexivity).
  rewrite E in Hc. destruct Hc as [Hturn Hplay]. rewrite Hturn. exact Hplay.
Defined.

Lemma upgrades_witness :
  (getitem Game.opts 1 = Some ("Speed +10", "speed", 10%Z)
   /\ permanent "speed" = true
   /\ (10 <= Player.coins (Game.player g_rich))%Z)
  /\ Player.speed (Game.player (Game.buy 1 g_rich)) = Player.speed (Game.player g_rich).
Proof.
  assert (Hsel : getitem Game.opts 1 = Some ("Speed +10", "speed", 10%Z))
    by (vm_compute; reflexivity).
  assert (Hp : permanent "speed" = true) by (vm_compute; reflexivity).
  assert (Hc : (10 <= Player.coins (Game.player g_rich))%Z) by (vm_compute; discriminate).
  split; [repeat split; assumption|].
  pose proof (upgrades_across_runs 1 _ _ _ g_rich Hsel Hp Hc) as Hu.
  cbv zeta in Hu. exact (proj1 Hu).
Defined.
